(** * Quadrillion solver: orientation generator and cell-filling search

    A shallow embedding of [main.cpp] (the solver for the Quadrillion puzzle)
    and the properties of its two stages: [solver::Initialize], which expands
    every piece into its unique orientations, and [solver::Solve], the
    depth-first search over an explicit stack of board states; then the
    code of [main] around them: the reader of the boards file, the size of
    a board and the printing of boards. *)

From stdpp Require Import base numbers list.

From Stdlib Require Import ZArith Lia Ascii Sorted.

Open Scope Z_scope.

(** ** Build configuration

    [#define FAST 1], [WITH_STATS = !FAST], and [NDEBUG] defined when [FAST]
    is set.  The repository ships with [FAST = 1]. *)

Record build := { FAST : bool }.

Definition WITH_STATS (b : build) : bool := negb (FAST b).

Definition NDEBUG (b : build) : bool := FAST b.

Definition shipped : build := {| FAST := true |}.

Definition checked : build := {| FAST := false |}.

(** ** Constants *)

Definition MAX_BOARD_SIZE : Z := 16.

Definition NUM_VALID_CELLS : Z := 64.

Definition NUM_PIECES : Z := 12.

Definition MAX_PIECE_SIZE : Z := 4.

Definition MAX_BALLS : Z := 5.

Definition NUM_ROTATIONS : Z := 4.

(** Fixed-width integers are integers of [Z] reduced by hand. *)

Definition u8 (x : Z) : Z := x mod 2 ^ 8.

Definition u32 (x : Z) : Z := x mod 2 ^ 32.

Definition u64 (x : Z) : Z := x mod 2 ^ 64.

(** ** Cell values: [enum cell_value : u8] *)

Abbreviation cell_value := Z (only parsing).

Definition Empty : cell_value := 0.

Definition Invalid : cell_value := 1.

Definition Blocked : cell_value := 2.

Definition Piece01 : cell_value := 3.

Definition Piece02 : cell_value := 4.

Definition Piece03 : cell_value := 5.

Definition Piece04 : cell_value := 6.

Definition Piece05 : cell_value := 7.

Definition Piece06 : cell_value := 8.

Definition Piece07 : cell_value := 9.

Definition Piece08 : cell_value := 10.

Definition Piece09 : cell_value := 11.

Definition Piece10 : cell_value := 12.

Definition Piece11 : cell_value := 13.

Definition Piece12 : cell_value := 14.

Definition IsPiece (CellValue : cell_value) : bool :=
  (Piece01 <=? CellValue) && (CellValue <=? Piece12).

Definition CellValueToPieceIndex (CellValue : cell_value) : Z :=
  Z.land CellValue 15.

Definition PieceIndexToCellValue (PieceIdx : Z) : cell_value :=
  u8 (Piece01 + PieceIdx).

(** ** Two-dimensional arrays

    [T a[n][m]] is a list of rows.  [rd2] reads with a default and [wr2]
    writes in place; every index the piece code computes lies inside the
    array, so the out-of-range behaviour of the two is never observed on
    well-formed arrays. *)

Definition rd2 {A} (dflt : A) (g : list (list A)) (r c : Z) : A :=
  match g !! Z.to_nat r with
  | Some row => match row !! Z.to_nat c with Some v => v | None => dflt end
  | None => dflt
  end.

Definition wr2 {A} (g : list (list A)) (r c : Z) (v : A) : list (list A) :=
  alter (fun row => <[Z.to_nat c := v]> row) (Z.to_nat r) g.

(** [range lo hi] lists the values of [i] in [for (i = lo; i < hi; i++)]. *)

Definition range (lo hi : Z) : list Z := seqZ lo (hi - lo).

(** Two nested [for] loops over a state [S]: the body runs for every row of
    [outer] and, inside it, every value of [inner]. *)

Definition for2 {S} (outer inner : list Z) (body : Z -> Z -> S -> S) (s : S) : S :=
  fold_left (fun s i => fold_left (fun s j => body i j s) inner s) outer s.

(** ** Piece definitions: [u8 Balls[MAX_PIECE_SIZE][MAX_PIECE_SIZE]] *)

Abbreviation piece_definition := (list (list Z)) (only parsing).

Definition Balls := @rd2 Z 0.

Definition blank_piece : piece_definition := replicate 4 (replicate 4 0).

Definition Rotate (From To : piece_definition) : piece_definition :=
  for2 (range 0 MAX_PIECE_SIZE) (range 0 MAX_PIECE_SIZE)
    (fun fromRowIdx fromColIdx To =>
       wr2 To fromColIdx ((MAX_PIECE_SIZE - 1) - fromRowIdx)
         (Balls From fromRowIdx fromColIdx))
    To.

Definition Flip (From To : piece_definition) : piece_definition :=
  for2 (range 0 MAX_PIECE_SIZE) (range 0 MAX_PIECE_SIZE)
    (fun fromRowIdx fromColIdx To =>
       wr2 To ((MAX_PIECE_SIZE - 1) - fromRowIdx) fromColIdx
         (Balls From fromRowIdx fromColIdx))
    To.

(** The first loop of [PushUpAndLeft]: the first row and column with a set
    bit, as the pair [(MinRowIdx, MinColIdx)]. *)

Definition MinIdx (Definition_ : piece_definition) : Z * Z :=
  for2 (range 0 MAX_PIECE_SIZE) (range 0 MAX_PIECE_SIZE)
    (fun RowIdx ColIdx '(MinRowIdx, MinColIdx) =>
       if negb (Balls Definition_ RowIdx ColIdx =? 0) then
         ((if RowIdx <=? MinRowIdx then RowIdx else MinRowIdx),
          (if ColIdx <=? MinColIdx then ColIdx else MinColIdx))
       else (MinRowIdx, MinColIdx))
    (MAX_PIECE_SIZE - 1, MAX_PIECE_SIZE - 1).

(** The second loop: shift the set bits up and to the left, in place. *)

Definition ShiftBy (MinRowIdx MinColIdx : Z) (Definition_ : piece_definition)
  : piece_definition :=
  for2 (range MinRowIdx MAX_PIECE_SIZE) (range MinColIdx MAX_PIECE_SIZE)
    (fun RowIdx ColIdx D =>
       wr2 D (RowIdx - MinRowIdx) (ColIdx - MinColIdx) (Balls D RowIdx ColIdx))
    Definition_.

(** The last two loops: clear the rows and then the columns left over. *)

Definition ClearRest (MinRowIdx MinColIdx : Z) (Definition_ : piece_definition)
  : piece_definition :=
  let D1 :=
    for2 (range (MAX_PIECE_SIZE - MinRowIdx) MAX_PIECE_SIZE) (range 0 MAX_PIECE_SIZE)
      (fun RowIdx ColIdx D => wr2 D RowIdx ColIdx 0) Definition_ in
  for2 (range (MAX_PIECE_SIZE - MinColIdx) MAX_PIECE_SIZE) (range 0 MAX_PIECE_SIZE)
    (fun ColIdx RowIdx D => wr2 D RowIdx ColIdx 0) D1.

Definition PushUpAndLeft (Definition_ : piece_definition) : piece_definition :=
  let '(MinRowIdx, MinColIdx) := MinIdx Definition_ in
  ClearRest MinRowIdx MinColIdx (ShiftBy MinRowIdx MinColIdx Definition_).

Definition ComputePackedRepresentation (Definition_ : piece_definition) : Z :=
  for2 (range 0 MAX_PIECE_SIZE) (range 0 MAX_PIECE_SIZE)
    (fun RowIdx ColIdx Packed =>
       Z.lor (u32 (Z.shiftl Packed 1)) (Balls Definition_ RowIdx ColIdx))
    0.

(** ** Outcomes of a run

    A call either completes, stops at a failed [assert], or leaves the
    behaviour the language defines: an array written past its capacity, or a
    variable or array slot read before anything was stored in it. *)

Inductive fault :=
  | BallsOverflow        (* Balls[MAX_BALLS] written past its end *)
  | EmptyCellsOverflow   (* InputBoardEmptyCells[NUM_VALID_CELLS] written past its end *)
  | OutOfBounds          (* an array indexed outside its extent *)
  | UninitSlot           (* an array slot read that was never written *)
  | UninitTarget.        (* RowIdx / ColIdx read although the scan never assigned them *)

Inductive result (A : Type) :=
  | Ok (a : A)
  | AssertFailed
  | Undefined (f : fault).

Arguments Ok {A} a.
Arguments AssertFailed {A}.
Arguments Undefined {A} f.

Definition bind {A B} (m : result A) (k : A -> result B) : result B :=
  match m with
  | Ok a => k a
  | AssertFailed => AssertFailed
  | Undefined f => Undefined f
  end.

Notation "'try' x <- m 'in' k" := (bind m (fun x => k))
  (at level 10, x name, m at level 100, k at level 200).

Definition slot {A} (l : list A) (i : Z) : result A :=
  if i <? 0 then Undefined OutOfBounds
  else match l !! Z.to_nat i with
       | Some a => Ok a
       | None => Undefined UninitSlot
       end.

(** ** The search representation of the pieces *)

Record cell_ref := { RowIdx : Z; ColIdx : Z }.

(** [cell_ref Balls[MAX_BALLS]]: the list holds the slots written so far. *)
Abbreviation piece_orientation := (list cell_ref) (only parsing).

Record search_piece := {
  Orientations : list piece_orientation;   (* the slots written so far *)
  NumOrientations : Z;
  NumBalls : Z
}.

(** [search_piece SearchPieces[NUM_PIECES]], the only member of [solver]. *)
Abbreviation solver := (list search_piece) (only parsing).

Record expanded_representation := {
  Definition_ : piece_definition;
  Packed : Z
}.

(** ** [solver::Initialize] *)

(** The eight raw variants of one piece: the piece, three rotations of it,
    its vertical flip, and three rotations of that. *)

Definition Expand (Piece : piece_definition) : list piece_definition :=
  let PO := replicate (Z.to_nat (2 * NUM_ROTATIONS)) blank_piece in
  let PO := <[0%nat := Piece]> PO in
  let PO :=
    fold_left (fun PO OrientationIdx =>
        <[Z.to_nat (OrientationIdx + 1) :=
            Rotate (PO !!! Z.to_nat OrientationIdx)
                   (PO !!! Z.to_nat (OrientationIdx + 1))]> PO)
      (range 0 (NUM_ROTATIONS - 1)) PO in
  let PO :=
    <[Z.to_nat NUM_ROTATIONS :=
        Flip (PO !!! 0%nat) (PO !!! Z.to_nat NUM_ROTATIONS)]> PO in
  fold_left (fun PO OrientationIdx =>
      <[Z.to_nat (NUM_ROTATIONS + OrientationIdx + 1) :=
          Rotate (PO !!! Z.to_nat (NUM_ROTATIONS + OrientationIdx))
                 (PO !!! Z.to_nat (NUM_ROTATIONS + OrientationIdx + 1))]> PO)
    (range 0 (NUM_ROTATIONS - 1)) PO.

(** An orientation with its packed representation. *)

Definition WithPacked (D : piece_definition) : expanded_representation :=
  {| Definition_ := D; Packed := ComputePackedRepresentation D |}.

(** The de-duplication loop: an orientation is kept when no orientation kept
    before it has the same packed representation. *)

Definition IsOrientationUnique (Orientation : expanded_representation)
    (Kept : list expanded_representation) : bool :=
  negb (existsb (fun OtherOrientation =>
                   Packed Orientation =? Packed OtherOrientation) Kept).

Definition Dedup (All : list expanded_representation) : list expanded_representation :=
  fold_left (fun Kept Orientation =>
      if IsOrientationUnique Orientation Kept then Kept ++ [Orientation] else Kept)
    All [].

(** The conversion of one orientation, from [NumBalls = 0]: the row and
    column of every set cell, in row-major order. *)

Definition ConvertOrientation (D : piece_definition) : result (piece_orientation * Z) :=
  for2 (range 0 MAX_PIECE_SIZE) (range 0 MAX_PIECE_SIZE)
    (fun RowIdx ColIdx acc =>
       try acc <- acc in
       let '(SearchOrientation, NumBalls) := acc in
       if negb (Balls D RowIdx ColIdx =? 0) then
         if NumBalls <? MAX_BALLS then
           Ok (SearchOrientation ++ [{| RowIdx := u8 RowIdx; ColIdx := u8 ColIdx |}],
               NumBalls + 1)
         else Undefined BallsOverflow
       else Ok (SearchOrientation, NumBalls))
    (Ok ([], 0)).

(** The conversion of one piece.  [NumBalls] is reset for every orientation,
    so it ends as the count of the last one; [Old] is the value the member
    held before the call. *)

Definition ConvertPiece (Old : search_piece) (Kept : list expanded_representation)
  : result search_piece :=
  fold_left (fun acc IntermediateOrientation =>
      try SearchPiece <- acc in
      try Converted <- ConvertOrientation (Definition_ IntermediateOrientation) in
      let '(SearchOrientation, Count) := Converted in
      Ok {| Orientations := Orientations SearchPiece ++ [SearchOrientation];
            NumOrientations := NumOrientations SearchPiece;
            NumBalls := Count |})
    Kept
    (Ok {| Orientations := [];
           NumOrientations := u8 (Z.of_nat (length Kept));
           NumBalls := NumBalls Old |}).

(** The conversion loop over all the pieces; [Olds] are the values the
    members of [SearchPieces] held before the call. *)

Fixpoint ConvertAll (Olds : list search_piece)
    (IntermediatePieces : list (list expanded_representation)) : result solver :=
  match Olds, IntermediatePieces with
  | Old :: Olds', IntermediatePiece :: IntermediatePieces' =>
      try SearchPiece <- ConvertPiece Old IntermediatePiece in
      try Rest <- ConvertAll Olds' IntermediatePieces' in
      Ok (SearchPiece :: Rest)
  | _, _ => Ok []
  end.

(** The five loops of [Initialize], each over all the pieces: expand every
    piece into its orientations, push them up and left, pack them, keep the
    unique ones, convert them.  [this] is the solver before the call and
    [Pieces] the array of [NUM_PIECES] definitions. *)

Definition Initialize (this : solver) (Pieces : list piece_definition) : result solver :=
  let PieceOrientations := Expand <$> Pieces in
  let PieceOrientations := fmap (M := list) PushUpAndLeft <$> PieceOrientations in
  let PieceOrientations := fmap (M := list) WithPacked <$> PieceOrientations in
  let IntermediatePieces := Dedup <$> PieceOrientations in
  ConvertAll this IntermediatePieces.

(** ** Boards and search states *)

(** [cell_value Cells[MAX_BOARD_SIZE][MAX_BOARD_SIZE]] *)
Abbreviation board := (list (list Z)) (only parsing).

(** [Board.Cells[r][c]], undefined outside the array. *)
Definition Cells (Board : board) (r c : Z) : result cell_value :=
  if (0 <=? r) && (r <? MAX_BOARD_SIZE) && (0 <=? c) && (c <? MAX_BOARD_SIZE)
  then Ok (rd2 Invalid Board r c)
  else Undefined OutOfBounds.

(** [Board.Cells[r][c] = v], undefined outside the array. *)
Definition SetCell (Board : board) (r c : Z) (v : cell_value) : result board :=
  if (0 <=? r) && (r <? MAX_BOARD_SIZE) && (0 <=? c) && (c <? MAX_BOARD_SIZE)
  then Ok (wr2 Board r c v)
  else Undefined OutOfBounds.

(** [u16 RemainingPieceBitFlags : NUM_PIECES]: a store keeps the low
    [NUM_PIECES] bits. *)
Definition bitfield (x : Z) : Z := x mod 2 ^ NUM_PIECES.

Record search_state := {
  Board : board;
  RemainingPieceBitFlags : Z;
  EmptyCellIdx : Z
}.

(** The three [u64&] out-parameters of [Solve]. *)
Record counters := {
  OutNumBoardStatesTested : Z;
  OutNumOrientationsTested : Z;
  OutNumBallsTested : Z
}.

(** What happened during a run, counted whatever the build: states popped,
    placements attempted, ball checks performed. *)
Record tally := {
  Popped : Z;
  Attempted : Z;
  Checked : Z
}.

(** The variables [Solve] updates while it runs.  [SearchStates] has the
    back of the vector at its head; [OutSolutions] is in [push_back] order. *)
Record progress := {
  SearchStates : list search_state;
  OutSolutions : list board;
  Out : counters;
  Seen : tally
}.

Definition bump (b : build) (x : Z) : Z := if WITH_STATS b then u64 (x + 1) else x.

Definition CountState (b : build) (p : progress) : progress :=
  {| SearchStates := SearchStates p; OutSolutions := OutSolutions p;
     Out := {| OutNumBoardStatesTested := bump b (OutNumBoardStatesTested (Out p));
               OutNumOrientationsTested := OutNumOrientationsTested (Out p);
               OutNumBallsTested := OutNumBallsTested (Out p) |};
     Seen := {| Popped := Popped (Seen p) + 1; Attempted := Attempted (Seen p);
                Checked := Checked (Seen p) |} |}.

Definition CountOrientation (b : build) (p : progress) : progress :=
  {| SearchStates := SearchStates p; OutSolutions := OutSolutions p;
     Out := {| OutNumBoardStatesTested := OutNumBoardStatesTested (Out p);
               OutNumOrientationsTested := bump b (OutNumOrientationsTested (Out p));
               OutNumBallsTested := OutNumBallsTested (Out p) |};
     Seen := {| Popped := Popped (Seen p); Attempted := Attempted (Seen p) + 1;
                Checked := Checked (Seen p) |} |}.

Definition CountBall (b : build) (p : progress) : progress :=
  {| SearchStates := SearchStates p; OutSolutions := OutSolutions p;
     Out := {| OutNumBoardStatesTested := OutNumBoardStatesTested (Out p);
               OutNumOrientationsTested := OutNumOrientationsTested (Out p);
               OutNumBallsTested := bump b (OutNumBallsTested (Out p)) |};
     Seen := {| Popped := Popped (Seen p); Attempted := Attempted (Seen p);
                Checked := Checked (Seen p) + 1 |} |}.

Definition PushState (NewSearchState : search_state) (p : progress) : progress :=
  {| SearchStates := NewSearchState :: SearchStates p; OutSolutions := OutSolutions p;
     Out := Out p; Seen := Seen p |}.

Definition PushSolution (Solution : board) (p : progress) : progress :=
  {| SearchStates := SearchStates p; OutSolutions := OutSolutions p ++ [Solution];
     Out := Out p; Seen := Seen p |}.

Definition PopState (p : progress) : progress :=
  {| SearchStates := tail (SearchStates p); OutSolutions := OutSolutions p;
     Out := Out p; Seen := Seen p |}.

(** A [for] loop whose body may fail. *)
Fixpoint for_each {S} (l : list Z) (body : Z -> S -> result S) (s : S) : result S :=
  match l with
  | [] => Ok s
  | i :: l' => try s' <- body i s in for_each l' body s'
  end.

(** ** [solver::Solve] *)

(** The empty cells of the input board, in row-major order. *)
Definition EmptyCellsOf (InputBoard : board) : result (list cell_ref) :=
  for2 (range 0 MAX_BOARD_SIZE) (range 0 MAX_BOARD_SIZE)
    (fun RowIdx ColIdx acc =>
       try InputBoardEmptyCells <- acc in
       if rd2 Invalid InputBoard RowIdx ColIdx =? Empty then
         if Z.of_nat (length InputBoardEmptyCells) <? NUM_VALID_CELLS then
           Ok (InputBoardEmptyCells ++ [{| RowIdx := u8 RowIdx; ColIdx := u8 ColIdx |}])
         else Undefined EmptyCellsOverflow
       else Ok InputBoardEmptyCells)
    (Ok []).

Definition ClearFlag (Flags PieceIdx : Z) : Z :=
  bitfield (Z.land Flags (u32 (Z.lnot (Z.shiftl 1 PieceIdx)))).

(** The remaining-piece flags of the initial state: every piece, less the
    pieces found on the board inside [NumRows] x [NumCols]. *)
Definition InitialFlags (InputBoard : board) (NumRows NumCols : Z) : result Z :=
  let Flags :=
    fold_left (fun Flags PieceIdx => bitfield (Z.lor Flags (Z.shiftl 1 PieceIdx)))
      (range 0 NUM_PIECES) (bitfield 0) in
  for2 (range 0 NumRows) (range 0 NumCols)
    (fun RowIdx ColIdx acc =>
       try Flags <- acc in
       try CellValue <- Cells InputBoard RowIdx ColIdx in
       if IsPiece CellValue then
         let PieceIdx := CellValueToPieceIndex CellValue in
         Ok (ClearFlag Flags PieceIdx)
       else Ok Flags)
    (Ok Flags).

Section Search.
Variable b : build.
Variable SearchPieces : solver.
Variable InputBoardEmptyCells : list cell_ref.
Variables NumRows NumCols : Z.

Definition InputBoardNumEmptyCells : Z := Z.of_nat (length InputBoardEmptyCells).

(** The scan for the next empty cell: [n] bounds the iterations left.  The
    result is the final [EmptyCellIdx] and, when the loop left through
    [break], the [RowIdx] and [ColIdx] it assigned. *)
Fixpoint FindEmptyCell (Board : board) (n : nat) (EmptyCellIdx : Z)
  : result (Z * option (Z * Z)) :=
  match n with
  | O => Ok (EmptyCellIdx, None)
  | S n' =>
      try Cell <- slot InputBoardEmptyCells EmptyCellIdx in
      try CellValue <- Cells Board (RowIdx Cell) (ColIdx Cell) in
      if CellValue =? Empty then Ok (EmptyCellIdx, Some (RowIdx Cell, ColIdx Cell))
      else FindEmptyCell Board n' (EmptyCellIdx + 1)
  end.

Definition NextEmptyCell (SearchState : search_state) : result (Z * option (Z * Z)) :=
  FindEmptyCell (Board SearchState)
    (Z.to_nat (InputBoardNumEmptyCells - EmptyCellIdx SearchState))
    (EmptyCellIdx SearchState).

Definition RemainingPieceIdxs (Flags : Z) : list Z :=
  filter (fun PieceIdx => negb (Z.land (Z.shiftr Flags PieceIdx) 1 =? 0))
    (range 0 NUM_PIECES).

(** Reading [RowIdx] and [ColIdx]. *)
Definition ReadTarget (Target : option (Z * Z)) : result (Z * Z) :=
  match Target with
  | Some rc => Ok rc
  | None => Undefined UninitTarget
  end.

(** The board cell a ball of the orientation lands on. *)
Definition BallCell (Target : option (Z * Z)) (Orientation : piece_orientation)
    (OffsetRowIdx OffsetColIdx BallIdx : Z) : result (Z * Z) :=
  try rc <- ReadTarget Target in
  try Ball <- slot Orientation BallIdx in
  Ok (fst rc + OffsetRowIdx + RowIdx Ball, snd rc + OffsetColIdx + ColIdx Ball).

(** The validity loop over [TestBallIdx], left at the first failing ball. *)
Fixpoint CanPlaceLoop (Board : board) (Target : option (Z * Z))
    (Orientation : piece_orientation) (OffsetRowIdx OffsetColIdx : Z)
    (TestBallIdxs : list Z) (p : progress) : result (bool * progress) :=
  match TestBallIdxs with
  | [] => Ok (true, p)
  | TestBallIdx :: rest =>
      let p := CountBall b p in
      try rc <- BallCell Target Orientation OffsetRowIdx OffsetColIdx TestBallIdx in
      let '(BallRowIdx, BallColIdx) := rc in
      let IsValidCellIdx :=
        (0 <=? BallRowIdx) && (BallRowIdx <? NumRows) &&
        (0 <=? BallColIdx) && (BallColIdx <? NumCols) in
      try Fits <-
        (if IsValidCellIdx then
           try CellValue <- Cells Board BallRowIdx BallColIdx in
           Ok (CellValue =? Empty)
         else Ok false) in
      if Fits then
        CanPlaceLoop Board Target Orientation OffsetRowIdx OffsetColIdx rest p
      else Ok (false, p)
  end.

(** The new state of a placement that passed the validity loop. *)
Definition Place (SearchState : search_state) (Target : option (Z * Z))
    (PieceIdx : Z) (Piece : search_piece) (Orientation : piece_orientation)
    (OffsetRowIdx OffsetColIdx : Z) : result search_state :=
  let NewCellValue := PieceIndexToCellValue PieceIdx in
  try NewBoard <-
    for_each (range 0 (NumBalls Piece))
      (fun BallIdx NewBoard =>
         try rc <- BallCell Target Orientation OffsetRowIdx OffsetColIdx BallIdx in
         SetCell NewBoard (fst rc) (snd rc) NewCellValue)
      (Board SearchState) in
  Ok {| Board := NewBoard;
        RemainingPieceBitFlags :=
          ClearFlag (RemainingPieceBitFlags SearchState) PieceIdx;
        EmptyCellIdx := u8 (EmptyCellIdx SearchState + 1) |}.

(** The body of the innermost placement loop, for one placed ball. *)
Definition TryBall (SearchState : search_state) (Target : option (Z * Z))
    (IsLastPiece : bool) (PieceIdx : Z) (Piece : search_piece)
    (Orientation : piece_orientation) (PlacedBallIdx : Z) (p : progress)
  : result progress :=
  try PlacedBall <- slot Orientation PlacedBallIdx in
  let OffsetRowIdx := - RowIdx PlacedBall in
  let OffsetColIdx := - ColIdx PlacedBall in
  let p := CountOrientation b p in
  try tested <-
    CanPlaceLoop (Board SearchState) Target Orientation OffsetRowIdx OffsetColIdx
      (range 0 (NumBalls Piece)) p in
  let '(CanPlace, p) := tested in
  if CanPlace then
    try NewSearchState <-
      Place SearchState Target PieceIdx Piece Orientation OffsetRowIdx OffsetColIdx in
    if negb IsLastPiece then Ok (PushState NewSearchState p)
    else Ok (PushSolution (Board NewSearchState) p)
  else Ok p.

Definition TryOrientation (SearchState : search_state) (Target : option (Z * Z))
    (IsLastPiece : bool) (PieceIdx : Z) (Piece : search_piece)
    (OrientationIdx : Z) (p : progress) : result progress :=
  try Orientation <- slot (Orientations Piece) OrientationIdx in
  for_each (range 0 (NumBalls Piece))
    (TryBall SearchState Target IsLastPiece PieceIdx Piece Orientation) p.

Definition TryPiece (SearchState : search_state) (Target : option (Z * Z))
    (IsLastPiece : bool) (PieceIdx : Z) (p : progress) : result progress :=
  try Piece <- slot SearchPieces PieceIdx in
  for_each (range 0 (NumOrientations Piece))
    (TryOrientation SearchState Target IsLastPiece PieceIdx Piece) p.

(** One iteration of the [while] loop on a non-empty stack. *)
Definition Iteration (SearchState : search_state) (p : progress) : result progress :=
  let p := CountState b p in
  let p := PopState p in
  try found <- NextEmptyCell SearchState in
  let '(EmptyCellIdx, Target) := found in
  if negb (NDEBUG b) && negb (EmptyCellIdx <? InputBoardNumEmptyCells)
  then AssertFailed
  else
    let Remaining := RemainingPieceIdxs (RemainingPieceBitFlags SearchState) in
    let NumRemainingPieces := Z.of_nat (length Remaining) in
    let IsLastPiece := NumRemainingPieces =? 1 in
    for_each Remaining (TryPiece SearchState Target IsLastPiece) p.

(** The [while] loop, for at most [fuel] iterations. *)
Fixpoint Loop (fuel : nat) (p : progress) : option (result progress) :=
  match SearchStates p with
  | [] => Some (Ok p)
  | SearchState :: _ =>
      match fuel with
      | O => None
      | S fuel' =>
          match Iteration SearchState p with
          | Ok p' => Loop fuel' p'
          | AssertFailed => Some AssertFailed
          | Undefined f => Some (Undefined f)
          end
      end
  end.

End Search.

Definition ResetCounters (b : build) (c : counters) : counters :=
  if WITH_STATS b then
    {| OutNumBoardStatesTested := 0; OutNumOrientationsTested := 0;
       OutNumBallsTested := 0 |}
  else c.

Definition NoTally : tally := {| Popped := 0; Attempted := 0; Checked := 0 |}.

(** The state of [Solve] when it enters the [while] loop.  [Out0] holds the
    values of the three out-parameters at the call. *)
Definition Setup (b : build) (InputBoard : board) (NumRows NumCols : Z)
    (Out0 : counters) : result (list cell_ref * progress) :=
  try InputBoardEmptyCells <- EmptyCellsOf InputBoard in
  try Flags <- InitialFlags InputBoard NumRows NumCols in
  let InitialSearchState :=
    {| Board := InputBoard; RemainingPieceBitFlags := Flags; EmptyCellIdx := 0 |} in
  Ok (InputBoardEmptyCells,
      {| SearchStates := [InitialSearchState]; OutSolutions := [];
         Out := ResetCounters b Out0; Seen := NoTally |}).

(** [Solve] run for at most [fuel] iterations of its loop: [None] when the
    fuel ran out, otherwise how the call ended. *)
Definition Solve (b : build) (SearchPieces : solver) (fuel : nat)
    (InputBoard : board) (NumRows NumCols : Z) (Out0 : counters)
  : option (result progress) :=
  match Setup b InputBoard NumRows NumCols Out0 with
  | Ok (InputBoardEmptyCells, p) =>
      Loop b SearchPieces InputBoardEmptyCells NumRows NumCols fuel p
  | AssertFailed => Some AssertFailed
  | Undefined f => Some (Undefined f)
  end.

(** ** Characters

    A [char] is a byte.  [code] is its value as an [int] and [to_char] the
    conversion of an [int] back to [char]. *)

Definition code (c : ascii) : Z := Z.of_N (N_of_ascii c).

Definition to_char (x : Z) : ascii := ascii_of_N (Z.to_N (x mod 2 ^ 8)).

Definition newline : ascii := "010"%char.

#[global] Instance ascii_eq_dec : EqDecision ascii := ascii_dec.

(** The labels of the twelve piece cases of [switch (CellValue)]. *)
Definition piece_cases : list cell_value :=
  [Piece01; Piece02; Piece03; Piece04; Piece05; Piece06;
   Piece07; Piece08; Piece09; Piece10; Piece11; Piece12].

Definition CellValueToOutputChar (b : build) (CellValue : cell_value) : result ascii :=
  if CellValue =? Invalid then Ok " "%char
  else if CellValue =? Empty then Ok "."%char
  else if CellValue =? Blocked then Ok "*"%char
  else if existsb (Z.eqb CellValue) piece_cases then
    Ok (to_char (code "A" + CellValueToPieceIndex CellValue))
  else if NDEBUG b then Ok "?"%char
  else AssertFailed.

Definition InputCharToCellValue (b : build) (InputChar : ascii) : result cell_value :=
  match InputChar with
  | " " => Ok Invalid
  | "." => Ok Empty
  | "*" => Ok Blocked
  | "A" | "B" | "C" | "D" | "E" | "F" | "G" | "H" | "I" | "J" | "K" | "L" =>
      Ok (PieceIndexToCellValue (code InputChar - code "A"))
  | _ => if NDEBUG b then Ok Invalid else AssertFailed
  end%char.

(** ** [SetCells] and [PrintBoard] *)

Definition SetCells (Board : board) (CellValue : cell_value) : board :=
  for2 (range 0 MAX_BOARD_SIZE) (range 0 MAX_BOARD_SIZE)
    (fun RowIdx ColIdx Board => wr2 Board RowIdx ColIdx CellValue)
    Board.

(** [PrintBoard] returns what its calls of [printf] wrote, in order. *)
Definition PrintBoard (b : build) (Board : board) (NumRows NumCols : Z)
  : result (list ascii) :=
  for_each (range 0 NumRows)
    (fun RowIdx out =>
       try out <-
         for_each (range 0 NumCols)
           (fun ColIdx out =>
              try CellValue <- Cells Board RowIdx ColIdx in
              try OutputChar <- CellValueToOutputChar b CellValue in
              Ok (out ++ [OutputChar]))
           out in
       Ok (out ++ [newline]))
    [].

(** ** [main]: reading the boards

    The input file is the list of the bytes not yet read.  A call
    [fscanf(File, "%c", &c)] takes the first of them; on the empty list it
    stores nothing and sets the end-of-file indicator that [feof] tests
    afterwards.  Read errors are left out, so [Result == 1] holds whenever
    [feof] is false.  [RowIdx], [ColIdx] and [NumValidCells] are [s32] and
    count bytes read, which keeps them in range on any file below 2 GiB. *)

(** What the local [board InputBoard] holds before [SetCells] has run. *)
Definition indeterminate : board := replicate 16 (replicate 16 Empty).

(** The inner [while (1)] loop, for one board.  It returns the board and
    what is left of the file, or [None] for the file once
    [EndOfFileReached] is set. *)
Fixpoint ReadBoard (b : build) (File : list ascii) (InputBoard : board)
    (RowIdx ColIdx NumValidCells : Z) : result (board * option (list ascii)) :=
  match File with
  | [] =>
      (* the last line of the last board needs no newline *)
      if negb (NDEBUG b) && negb (NumValidCells =? NUM_VALID_CELLS) then AssertFailed
      else Ok (InputBoard, None)
  | InputChar :: File =>
      if bool_decide (InputChar = newline) then
        let ColIdx := 0 in
        let RowIdx := RowIdx + 1 in
        if negb (NDEBUG b) && negb (RowIdx <=? MAX_BOARD_SIZE) then AssertFailed
        else if NumValidCells >=? NUM_VALID_CELLS then Ok (InputBoard, Some File)
        else ReadBoard b File InputBoard RowIdx ColIdx NumValidCells
      else
        if negb (NDEBUG b) && negb (ColIdx <? MAX_BOARD_SIZE) then AssertFailed
        else
          try CellValue <- InputCharToCellValue b InputChar in
          try InputBoard <- SetCell InputBoard RowIdx ColIdx CellValue in
          let ColIdx := ColIdx + 1 in
          if negb (CellValue =? Invalid) then
            let NumValidCells := NumValidCells + 1 in
            if negb (NDEBUG b) && negb (NumValidCells <=? NUM_VALID_CELLS)
            then AssertFailed
            else ReadBoard b File InputBoard RowIdx ColIdx NumValidCells
          else ReadBoard b File InputBoard RowIdx ColIdx NumValidCells
  end.

(** The outer [while (!EndOfFileReached)] loop, for at most [fuel] boards;
    [InputBoards] is in [push_back] order. *)
Fixpoint ReadBoards (b : build) (fuel : nat) (File : list ascii)
    (InputBoards : list board) : option (result (list board)) :=
  match fuel with
  | O => None
  | S fuel' =>
      let InputBoard := SetCells indeterminate Invalid in
      match ReadBoard b File InputBoard 0 0 0 with
      | Ok (InputBoard, File) =>
          let InputBoards := InputBoards ++ [InputBoard] in
          match File with
          | None => Some (Ok InputBoards)
          | Some [] =>
              (* a trailing newline after the final board *)
              Some (Ok InputBoards)
          | Some (NewlineChar :: File) =>
              (* boards are delimited with a newline *)
              if negb (NDEBUG b) && negb (bool_decide (NewlineChar = newline))
              then Some AssertFailed
              else ReadBoards b fuel' File InputBoards
          end
      | AssertFailed => Some AssertFailed
      | Undefined f => Some (Undefined f)
      end
  end.

(** ** [main]: the size of a board

    The loop that pre-computes [NumRows] and [NumCols] for [PrintBoard] and
    [Solve]. *)

Definition BoardSize (InputBoard : board) : Z * Z :=
  for2 (range 0 MAX_BOARD_SIZE) (range 0 MAX_BOARD_SIZE)
    (fun RowIdx ColIdx '(NumRows, NumCols) =>
       if negb (rd2 Invalid InputBoard RowIdx ColIdx =? Invalid) then
         ((if RowIdx + 1 >? NumRows then RowIdx + 1 else NumRows),
          (if ColIdx + 1 >? NumCols then ColIdx + 1 else NumCols))
       else (NumRows, NumCols))
    (0, 0).

Arguments SetCells : simpl never.
Arguments PrintBoard : simpl never.
Arguments BoardSize : simpl never.

(** ** Sample inputs *)

(** A solver before [Initialize]: twelve members with nothing written. *)
Definition blank_solver : solver :=
  replicate 12 {| Orientations := []; NumOrientations := 0; NumBalls := 0 |}.

Arguments Rotate : simpl never.
Arguments Flip : simpl never.
Arguments MinIdx : simpl never.
Arguments ShiftBy : simpl never.
Arguments ClearRest : simpl never.
Arguments PushUpAndLeft : simpl never.
Arguments ComputePackedRepresentation : simpl never.
Arguments Expand : simpl never.
Arguments Dedup : simpl never.
Arguments ConvertOrientation : simpl never.
Arguments ConvertPiece : simpl never.
Arguments for2 : simpl never.
Arguments EmptyCellsOf : simpl never.
Arguments InitialFlags : simpl never.

Definition ex_L : piece_definition :=
  [[0;0;0;0];[0;1;0;0];[0;1;0;0];[0;1;1;0]].

Definition unit_piece : piece_definition := [[1;0;0;0];[0;0;0;0];[0;0;0;0];[0;0;0;0]].

Definition domino : piece_definition := [[1;1;0;0];[0;0;0;0];[0;0;0;0];[0;0;0;0]].

(** A board from its top-left rows, padded with [Invalid] cells. *)
Definition pad {A} (n : nat) (d : A) (l : list A) : list A :=
  take n (l ++ replicate n d).

Definition mk_board (rows : list (list cell_value)) : board :=
  pad 16 (replicate 16 Invalid) (map (pad 16 Invalid) rows).

Definition zero_counters : counters :=
  {| OutNumBoardStatesTested := 0; OutNumOrientationsTested := 0; OutNumBallsTested := 0 |}.

(** ** [Initialize], piece by piece *)

(** The variants of one piece pushed up and left, each with its packed
    representation. *)
Definition Variants (Piece : piece_definition) : list expanded_representation :=
  WithPacked <$> (PushUpAndLeft <$> Expand Piece).

(** What the five loops do for one piece. *)
Definition InitializePiece (Old : search_piece) (Piece : piece_definition)
  : result search_piece :=
  ConvertPiece Old (Dedup (Variants Piece)).

Fixpoint InitializeAll (Olds : list search_piece) (Pieces : list piece_definition)
  : result solver :=
  match Olds, Pieces with
  | Old :: Olds', Piece :: Pieces' =>
      try SearchPiece <- InitializePiece Old Piece in
      try Rest <- InitializeAll Olds' Pieces' in
      Ok (SearchPiece :: Rest)
  | _, _ => Ok []
  end.

Arguments Variants : simpl never.
Arguments InitializePiece : simpl never.

(** ** Well-formed definitions and their shapes *)

Definition wf_piece (d : piece_definition) : Prop :=
  length d = 4%nat /\ Forall (fun row => length row = 4%nat) d.

Definition bit01 (v : Z) : Z := if v =? 0 then 0 else 1.

(** The occupancy pattern of a definition: 1 where a cell is set. *)
Definition Shape (d : piece_definition) : piece_definition :=
  fmap (M := list) (fmap (M := list) bit01) d.

(** A definition read from 0/1 input is its own shape. *)
Definition binary (d : piece_definition) : Prop := Shape d = d.

(** The number of set cells. *)
Definition BallCount (d : piece_definition) : Z :=
  for2 (range 0 MAX_PIECE_SIZE) (range 0 MAX_PIECE_SIZE)
    (fun RowIdx ColIdx n => n + bit01 (Balls d RowIdx ColIdx)) 0.

Definition occupied (d : piece_definition) (r c : Z) : Prop := Balls d r c <> 0.

Definition has_ball_in_row (d : piece_definition) (r : Z) : bool :=
  existsb (fun c => negb (Balls d r c =? 0)) (range 0 MAX_PIECE_SIZE).

Definition has_ball_in_col (d : piece_definition) (c : Z) : bool :=
  existsb (fun r => negb (Balls d r c =? 0)) (range 0 MAX_PIECE_SIZE).

(** ** Checking a property on every pattern *)

Definition rows01 : list (list Z) :=
  flat_map (fun a => flat_map (fun b => flat_map (fun c =>
    map (fun d => [a; b; c; d]) [0; 1]) [0; 1]) [0; 1]) [0; 1].

(** [forall01 P] checks [P] on each of the 65536 patterns. *)
Definition forall01 (P : piece_definition -> bool) : bool :=
  forallb (fun a => forallb (fun b => forallb (fun c => forallb (fun d =>
    P [a; b; c; d]) rows01) rows01) rows01) rows01.

Definition piece_eqb (d1 d2 : piece_definition) : bool :=
  bool_decide (d1 = d2).

Definition pair_eqb (a b : Z * Z) : bool := (fst a =? fst b) && (snd a =? snd b).

(** The facts about [PushUpAndLeft] that depend on the pattern only. *)
Definition pattern_facts_of (d e : piece_definition) : bool :=
  (BallCount e =? BallCount d) &&
  (if has_ball_in_row d 0 && has_ball_in_col d 0
   then pair_eqb (MinIdx d) (0, 0) else true) &&
  (if 0 <? BallCount d
   then has_ball_in_row e 0 && has_ball_in_col e 0
   else piece_eqb d blank_piece).

Definition pattern_facts (d : piece_definition) : bool :=
  pattern_facts_of d (PushUpAndLeft d).

Definition normalized_L : piece_definition :=
  [[1; 0; 0; 0]; [1; 0; 0; 0]; [1; 1; 0; 0]; [0; 0; 0; 0]].

(** ** The eight variants *)

(** The variants in generation order: the piece, its three successive
    rotations, the flipped piece, and its three successive rotations. *)
Definition GenerationOrder (d : piece_definition) : list piece_definition :=
  let r1 := Rotate d blank_piece in
  let r2 := Rotate r1 blank_piece in
  let r3 := Rotate r2 blank_piece in
  let f0 := Flip d blank_piece in
  let f1 := Rotate f0 blank_piece in
  let f2 := Rotate f1 blank_piece in
  let f3 := Rotate f2 blank_piece in
  [d; r1; r2; r3; f0; f1; f2; f3].

(** ** De-duplication *)

Definition DedupStep (Kept : list expanded_representation)
    (Orientation : expanded_representation) : list expanded_representation :=
  if IsOrientationUnique Orientation Kept then Kept ++ [Orientation] else Kept.

Definition ConvertStep (acc : result search_piece)
    (IntermediateOrientation : expanded_representation) : result search_piece :=
  try SearchPiece <- acc in
  try Converted <- ConvertOrientation (Definition_ IntermediateOrientation) in
  let '(SearchOrientation, Count) := Converted in
  Ok {| Orientations := Orientations SearchPiece ++ [SearchOrientation];
        NumOrientations := NumOrientations SearchPiece;
        NumBalls := Count |}.

(** The normalized variants, in generation order. *)
Definition Normalized (d : piece_definition) : list piece_definition :=
  PushUpAndLeft <$> GenerationOrder d.

(** An inventory of twelve pieces, and the solver [Initialize] makes of it. *)
Definition sample_pieces : list piece_definition :=
  [ [[1;1;1;0];[1;0;0;0];[1;0;0;0];[0;0;0;0]];
    [[1;1;1;1];[1;0;0;0];[0;0;0;0];[0;0;0;0]];
    [[1;1;0;0];[1;1;0;0];[0;0;0;0];[0;0;0;0]];
    [[0;1;0;0];[1;1;1;0];[0;1;0;0];[0;0;0;0]];
    [[1;1;1;1];[0;0;0;0];[0;0;0;0];[0;0;0;0]];
    [[1;1;0;0];[0;1;1;0];[0;0;1;0];[0;0;0;0]];
    [[1;1;1;0];[0;1;0;0];[0;1;0;0];[0;0;0;0]];
    [[1;1;0;0];[1;1;1;0];[0;0;0;0];[0;0;0;0]];
    [[1;1;0;0];[0;1;1;1];[0;0;0;0];[0;0;0;0]];
    [[1;1;1;0];[1;0;1;0];[0;0;0;0];[0;0;0;0]];
    [[1;1;1;1];[0;1;0;0];[0;0;0;0];[0;0;0;0]];
    [[1;1;0;0];[0;1;1;0];[0;0;0;0];[0;0;0;0]] ].

Definition sample_solver : solver :=
  Eval vm_compute in
    match Initialize blank_solver sample_pieces with Ok s => s | _ => [] end.

(** ** Packed representations of patterns *)

(** The body of the loop of [ComputePackedRepresentation]. *)
Definition PackStep (Packed v : Z) : Z := Z.lor (u32 (Z.shiftl Packed 1)) v.

Definition is01 (v : Z) : Prop := v = 0 \/ v = 1.

(** ** Generation order with duplicates removed *)

(** A list without its repeated elements: an element is kept when it is not
    among [seen], the elements kept before it. *)
Fixpoint RemoveRepeats (seen l : list piece_definition) : list piece_definition :=
  match l with
  | [] => []
  | x :: l' =>
      if bool_decide (x ∈ seen) then RemoveRepeats seen l'
      else x :: RemoveRepeats (seen ++ [x]) l'
  end.

(** The set cells of a definition, row by row. *)
Definition BallsOf (D : piece_definition) : piece_orientation :=
  for2 (range 0 MAX_PIECE_SIZE) (range 0 MAX_PIECE_SIZE)
    (fun r c l =>
       if negb (Balls D r c =? 0) then l ++ [{| RowIdx := r; ColIdx := c |}] else l)
    [].

Definition square : piece_definition := [[1;1;0;0];[1;1;0;0];[0;0;0;0];[0;0;0;0]].

Definition long_L : piece_definition := [[1;1;1;1];[1;0;0;0];[0;0;0;0];[0;0;0;0]].

(** ** What a run adds to the stack, the solutions and the counters *)

Definition SeenLe (p p' : progress) : Prop :=
  Popped (Seen p) <= Popped (Seen p') /\
  Attempted (Seen p) <= Attempted (Seen p') /\
  Checked (Seen p) <= Checked (Seen p').

(** The out-parameters agree with the events seen, as 64-bit values. *)
Definition InSync (p : progress) : Prop :=
  OutNumBoardStatesTested (Out p) = u64 (Popped (Seen p)) /\
  OutNumOrientationsTested (Out p) = u64 (Attempted (Seen p)) /\
  OutNumBallsTested (Out p) = u64 (Checked (Seen p)).

Definition Counted (b : build) (p p' : progress) : Prop :=
  SeenLe p p' /\
  (WITH_STATS b = true -> InSync p -> InSync p') /\
  (WITH_STATS b = false -> Out p' = Out p).

(** [p'] is [p] with at most [n] states pushed and some solutions recorded,
    all of them boards of states in [Q]. *)
Definition Grows (Q : search_state -> Prop) (n : nat) (p p' : progress) : Prop :=
  exists pushed recorded,
    SearchStates p' = pushed ++ SearchStates p /\
    OutSolutions p' = OutSolutions p ++ (Board <$> recorded) /\
    Forall Q pushed /\ Forall Q recorded /\ (length pushed <= n)%nat.

Definition Advances (b : build) (Q : search_state -> Prop) (n : nat)
    (p p' : progress) : Prop :=
  Grows Q n p p' /\ Counted b p p'.

Section Placements.
Variable b : build.
Variable SearchPieces : solver.
Variables NumRows NumCols : Z.

(** [child] is the state made from [st] by a placement of piece
    [PieceIdx] that passed the validity loop. *)
Definition IsPlacement (st : search_state) (Target : option (Z * Z))
    (PieceIdx : Z) (child : search_state) : Prop :=
  exists Piece OrientationIdx Orientation PlacedBallIdx PlacedBall p p',
    slot SearchPieces PieceIdx = Ok Piece /\
    OrientationIdx ∈ range 0 (NumOrientations Piece) /\
    slot (Orientations Piece) OrientationIdx = Ok Orientation /\
    PlacedBallIdx ∈ range 0 (NumBalls Piece) /\
    slot Orientation PlacedBallIdx = Ok PlacedBall /\
    CanPlaceLoop b NumRows NumCols (Board st) Target Orientation
      (- RowIdx PlacedBall) (- ColIdx PlacedBall) (range 0 (NumBalls Piece)) p
      = Ok (true, p') /\
    Place st Target PieceIdx Piece Orientation
      (- RowIdx PlacedBall) (- ColIdx PlacedBall) = Ok child.

(** The most states one piece can push in an iteration. *)
Definition Capacity (PieceIdx : Z) : nat :=
  match slot SearchPieces PieceIdx with
  | Ok Piece =>
      (length (range 0 (NumOrientations Piece)) * length (range 0 (NumBalls Piece)))%nat
  | _ => 0%nat
  end.

End Placements.

(** ** Termination *)




Definition unit_pieces : list piece_definition := replicate 12 unit_piece.

Definition unit_solver : solver :=
  Eval vm_compute in
    match Initialize blank_solver unit_pieces with Ok s => s | _ => [] end.

(** Every piece placed, no cell empty: two rows of six one-ball pieces. *)
Definition full_board : board :=
  mk_board [[Piece01; Piece02; Piece03; Piece04; Piece05; Piece06];
            [Piece07; Piece08; Piece09; Piece10; Piece11; Piece12]].

Definition full_state : search_state :=
  {| Board := full_board; RemainingPieceBitFlags := 7; EmptyCellIdx := 0 |}.

Definition start_of (st : search_state) : progress :=
  {| SearchStates := [st]; OutSolutions := []; Out := zero_counters; Seen := NoTally |}.

(** ** Boards without an empty cell *)

Definition NoEmptyCell (InputBoard : board) : Prop :=
  forall r c, 0 <= r < MAX_BOARD_SIZE -> 0 <= c < MAX_BOARD_SIZE ->
    rd2 Invalid InputBoard r c <> Empty.

Definition no_empty_cellb (InputBoard : board) : bool :=
  forallb (fun r => forallb (fun c => negb (rd2 Invalid InputBoard r c =? Empty))
                      (range 0 MAX_BOARD_SIZE))
    (range 0 MAX_BOARD_SIZE).

(** ** The counters *)

(** The variables of [Solve] after [n] iterations of its loop, or at the
    exit of the loop when it came sooner. *)
Fixpoint Steps (b : build) (SearchPieces : solver) (InputBoardEmptyCells : list cell_ref)
    (NumRows NumCols : Z) (n : nat) (p : progress) : result progress :=
  match n with
  | O => Ok p
  | S n' =>
      match SearchStates p with
      | [] => Ok p
      | SearchState :: _ =>
          try p' <- Iteration b SearchPieces InputBoardEmptyCells NumRows NumCols
                      SearchState p in
          Steps b SearchPieces InputBoardEmptyCells NumRows NumCols n' p'
      end
  end.

(** [Solve] stopped after [n] iterations. *)
Definition During (b : build) (SearchPieces : solver) (InputBoard : board)
    (NumRows NumCols : Z) (Out0 : counters) (n : nat) : result progress :=
  try start <- Setup b InputBoard NumRows NumCols Out0 in
  Steps b SearchPieces (fst start) NumRows NumCols n (snd start).

(** ** The events of a run

    What the loop of [Solve] does, read off its loops and not off its
    counters: the states it pops, the placements its three nested loops
    attempt for a popped state, and the balls the validity loop tests for an
    attempt. *)

Section Events.
Variable b : build.
Variable SearchPieces : solver.
Variable InputBoardEmptyCells : list cell_ref.
Variables NumRows NumCols : Z.

(** The states popped in the first [n] iterations, in order. *)
Fixpoint PoppedStates (n : nat) (p : progress) : list search_state :=
  match n with
  | O => []
  | S n' =>
      match SearchStates p with
      | [] => []
      | SearchState :: _ =>
          SearchState ::
          match Iteration b SearchPieces InputBoardEmptyCells NumRows NumCols
                  SearchState p with
          | Ok p' => PoppedStates n' p'
          | _ => []
          end
      end
  end.

(** The target cell the scan leaves for a popped state. *)
Definition TargetOf (SearchState : search_state) : option (Z * Z) :=
  match NextEmptyCell InputBoardEmptyCells SearchState with
  | Ok (_, Target) => Target
  | _ => None
  end.

(** The attempts for one remaining piece: every orientation of it with
    every ball of it as the placed ball. *)
Definition AttemptsOfPiece (PieceIdx : Z) : list (Z * Z * Z) :=
  match slot SearchPieces PieceIdx with
  | Ok Piece =>
      OrientationIdx ← range 0 (NumOrientations Piece);
      (fun PlacedBallIdx => (PieceIdx, OrientationIdx, PlacedBallIdx))
        <$> range 0 (NumBalls Piece)
  | _ => []
  end.

(** The (piece, orientation, placed ball) attempts for a popped state. *)
Definition AttemptsOf (SearchState : search_state) : list (Z * Z * Z) :=
  PieceIdx ← RemainingPieceIdxs (RemainingPieceBitFlags SearchState);
  AttemptsOfPiece PieceIdx.

(** Whether the ball [TestBallIdx] of an attempt lands on an empty cell
    inside [NumRows] x [NumCols]. *)
Definition BallFits (Board : board) (Target : option (Z * Z))
    (Orientation : piece_orientation) (OffsetRowIdx OffsetColIdx TestBallIdx : Z)
  : bool :=
  match BallCell Target Orientation OffsetRowIdx OffsetColIdx TestBallIdx with
  | Ok (BallRowIdx, BallColIdx) =>
      if (0 <=? BallRowIdx) && (BallRowIdx <? NumRows) &&
         (0 <=? BallColIdx) && (BallColIdx <? NumCols)
      then match Cells Board BallRowIdx BallColIdx with
           | Ok CellValue => CellValue =? Empty
           | _ => false
           end
      else false
  | _ => false
  end.

(** The balls a validity loop tests: those up to the first that does not
    fit, that one included. *)
Fixpoint TestedUntilFail (fits : Z -> bool) (TestBallIdxs : list Z) : list Z :=
  match TestBallIdxs with
  | [] => []
  | TestBallIdx :: rest =>
      TestBallIdx :: (if fits TestBallIdx then TestedUntilFail fits rest else [])
  end.

(** The balls tested for one attempt. *)
Definition ChecksOfAttempt (SearchState : search_state) (Target : option (Z * Z))
    (Piece : search_piece) (Orientation : piece_orientation) (PlacedBallIdx : Z)
  : list Z :=
  match slot Orientation PlacedBallIdx with
  | Ok PlacedBall =>
      TestedUntilFail
        (BallFits (Board SearchState) Target Orientation
           (- RowIdx PlacedBall) (- ColIdx PlacedBall))
        (range 0 (NumBalls Piece))
  | _ => []
  end.

Definition ChecksOfOrientation (SearchState : search_state) (Target : option (Z * Z))
    (PieceIdx : Z) (Piece : search_piece) (OrientationIdx : Z)
  : list (Z * Z * Z * Z) :=
  match slot (Orientations Piece) OrientationIdx with
  | Ok Orientation =>
      PlacedBallIdx ← range 0 (NumBalls Piece);
      (fun TestBallIdx => (PieceIdx, OrientationIdx, PlacedBallIdx, TestBallIdx))
        <$> ChecksOfAttempt SearchState Target Piece Orientation PlacedBallIdx
  | _ => []
  end.

Definition ChecksOfPiece (SearchState : search_state) (Target : option (Z * Z))
    (PieceIdx : Z) : list (Z * Z * Z * Z) :=
  match slot SearchPieces PieceIdx with
  | Ok Piece =>
      OrientationIdx ← range 0 (NumOrientations Piece);
      ChecksOfOrientation SearchState Target PieceIdx Piece OrientationIdx
  | _ => []
  end.

(** The (piece, orientation, placed ball, tested ball) checks for a popped
    state. *)
Definition ChecksOf (SearchState : search_state) : list (Z * Z * Z * Z) :=
  PieceIdx ← RemainingPieceIdxs (RemainingPieceBitFlags SearchState);
  ChecksOfPiece SearchState (TargetOf SearchState) PieceIdx.

(** The number of pops, attempts and checks for a list of popped states. *)
Definition EventsOf (popped : list search_state) : tally :=
  {| Popped := Z.of_nat (length popped);
     Attempted := Z.of_nat (length (popped ≫= AttemptsOf));
     Checked := Z.of_nat (length (popped ≫= ChecksOf)) |}.

End Events.

(** The states a call of [Solve] pops in its first [n] iterations. *)
Definition PoppedDuring (b : build) (SearchPieces : solver) (InputBoard : board)
    (NumRows NumCols : Z) (Out0 : counters) (n : nat) : list search_state :=
  match Setup b InputBoard NumRows NumCols Out0 with
  | Ok (InputBoardEmptyCells, p) =>
      PoppedStates b SearchPieces InputBoardEmptyCells NumRows NumCols n p
  | _ => []
  end.

(** The events of the first [n] iterations of a call of [Solve]. *)
Definition EventsDuring (b : build) (SearchPieces : solver) (InputBoard : board)
    (NumRows NumCols : Z) (Out0 : counters) (n : nat) : tally :=
  match Setup b InputBoard NumRows NumCols Out0 with
  | Ok (InputBoardEmptyCells, p) =>
      EventsOf SearchPieces InputBoardEmptyCells NumRows NumCols
        (PoppedStates b SearchPieces InputBoardEmptyCells NumRows NumCols n p)
  | _ => NoTally
  end.

(** [p'] has seen what [p] has and [pops] pops, [attempts] attempts and
    [checks] checks more. *)
Definition Adds (p p' : progress) (pops attempts checks : nat) : Prop :=
  Popped (Seen p') = Popped (Seen p) + Z.of_nat pops /\
  Attempted (Seen p') = Attempted (Seen p) + Z.of_nat attempts /\
  Checked (Seen p') = Checked (Seen p) + Z.of_nat checks.

Definition lone_cell : board := mk_board [[Empty]].

Definition marked : counters :=
  {| OutNumBoardStatesTested := 7; OutNumOrientationsTested := 8;
     OutNumBallsTested := 9 |}.

Definition lone_cell_result : progress :=
  Eval vm_compute in
    match Solve checked sample_solver 10 lone_cell 1 1 marked with
    | Some (Ok p) => p
    | _ => start_of full_state
    end.

(** ** Placements *)

Definition wf_board (B : board) : Prop :=
  length B = 16%nat /\ Forall (fun row => length row = 16%nat) B.

(** The cells the balls of an orientation land on. *)
Definition BallCells (Target : option (Z * Z)) (Orientation : piece_orientation)
    (OffsetRowIdx OffsetColIdx NumBalls : Z) (cells : list (Z * Z)) : Prop :=
  Forall2 (fun BallIdx rc =>
             BallCell Target Orientation OffsetRowIdx OffsetColIdx BallIdx = Ok rc)
    (range 0 NumBalls) cells.


Definition domino_pieces : list piece_definition := replicate 12 domino.

Definition domiblank_solver : solver :=
  Eval vm_compute in
    match Initialize blank_solver domino_pieces with Ok s => s | _ => [] end.

(** Twenty-four empty cells in two rows, the second one shifted right. *)
Definition staggered : board :=
  mk_board [replicate 12 Empty; Invalid :: replicate 12 Empty].

Definition staggered_cells : list cell_ref :=
  Eval vm_compute in
    match EmptyCellsOf staggered with Ok ec => ec | _ => [] end.

Definition staggered_state : search_state :=
  {| Board := staggered; RemainingPieceBitFlags := 4095; EmptyCellIdx := 0 |}.

Definition staggered_after_one : progress :=
  Eval vm_compute in
    match Iteration shipped domiblank_solver staggered_cells 2 13 staggered_state
            (start_of staggered_state) with
    | Ok p => p
    | _ => start_of staggered_state
    end.

(** ** Boards with pieces already placed *)

(** Nine one-ball pieces A..I and three dominoes J, K, L. *)
Definition preplaced_pieces : list piece_definition :=
  replicate 9 unit_piece ++ replicate 3 domino.

Definition preplaced_solver : solver :=
  Eval vm_compute in
    match Initialize blank_solver preplaced_pieces with Ok s => s | _ => [] end.

(** The pieces A..I on the board and six empty cells for J, K and L. *)
Definition preplaced_board : board :=
  mk_board [[Piece01; Piece02; Piece03; Piece04; Piece05; Piece06; Piece07;
             Piece08; Piece09; Empty; Empty; Empty; Empty; Empty; Empty]].

(** One of the six tilings of the empty cells by J, K and L. *)
Definition preplaced_tiling : board :=
  mk_board [[Piece01; Piece02; Piece03; Piece04; Piece05; Piece06; Piece07;
             Piece08; Piece09; Piece10; Piece10; Piece11; Piece11; Piece12; Piece12]].

Definition preplaced_result : progress :=
  Eval vm_compute in
    match Solve shipped preplaced_solver 100 preplaced_board 1 15 zero_counters with
    | Some (Ok p) => p
    | _ => start_of full_state
    end.

(** The same call in a build with assertions and statistics. *)
Definition preplaced_checked : progress :=
  Eval vm_compute in
    match Solve checked preplaced_solver 100 preplaced_board 1 15 marked with
    | Some (Ok p) => p
    | _ => start_of full_state
    end.

(** The cells of a board inside [NumRows] x [NumCols] that hold [v]. *)
Definition CountCells (B : board) (NumRows NumCols : Z) (v : cell_value) : Z :=
  for2 (range 0 NumRows) (range 0 NumCols)
    (fun r c n => if rd2 Invalid B r c =? v then n + 1 else n) 0.

(** ** Board characters *)

(** The characters a boards file may hold besides newlines. *)
Definition board_chars : list ascii :=
  [" "; "."; "*"; "A"; "B"; "C"; "D"; "E"; "F"; "G"; "H"; "I"; "J"; "K"; "L"]%char.

Definition piece_chars : list ascii :=
  ["A"; "B"; "C"; "D"; "E"; "F"; "G"; "H"; "I"; "J"; "K"; "L"]%char.

(** The character of a cell value, ['?'] where the switch has no case. *)
Definition OutputChar (CellValue : cell_value) : ascii :=
  match CellValueToOutputChar shipped CellValue with
  | Ok c => c
  | _ => "?"%char
  end.

(** One printed row, and the rows of a board one after the other. *)
Definition RowText (B : board) (nc r : Z) : list ascii :=
  ((fun c => OutputChar (rd2 Invalid B r c)) <$> range 0 nc) ++ [newline].

Definition BoardText (B : board) (nr nc : Z) : list ascii :=
  concat (RowText B nc <$> range 0 nr).

(** ** Pairs of indices *)

Definition pair_le (x y : Z * Z) : Prop := fst x <= fst y /\ snd x <= snd y.

Definition pair_ge (x y : Z * Z) : Prop := pair_le y x.

(** The body of the first loop of [PushUpAndLeft]. *)
Definition MinStep (D : piece_definition) (RowIdx ColIdx : Z) (s : Z * Z) : Z * Z :=
  let '(MinRowIdx, MinColIdx) := s in
  if negb (Balls D RowIdx ColIdx =? 0) then
    ((if RowIdx <=? MinRowIdx then RowIdx else MinRowIdx),
     (if ColIdx <=? MinColIdx then ColIdx else MinColIdx))
  else (MinRowIdx, MinColIdx).

(** The body of the loop of [BoardSize]. *)
Definition SizeStep (B : board) (RowIdx ColIdx : Z) (s : Z * Z) : Z * Z :=
  let '(NumRows, NumCols) := s in
  if negb (rd2 Invalid B RowIdx ColIdx =? Invalid) then
    ((if RowIdx + 1 >? NumRows then RowIdx + 1 else NumRows),
     (if ColIdx + 1 >? NumCols then ColIdx + 1 else NumCols))
  else (NumRows, NumCols).

(** ** Arrays filled by a loop *)

(** The state of the conversion loop after [n] set cells, the ball list
    [l] among them: complete while [Balls] has room, undefined after. *)
Definition Stored (acc : result (list cell_ref * Z)) (l : list cell_ref) (n : Z) : Prop :=
  0 <= n /\
  (n <= MAX_BALLS -> acc = Ok (l, n)) /\
  (MAX_BALLS < n -> acc = Undefined BallsOverflow).

(** The cells a loop over rows and columns visits, in its order. *)
Definition CellsIn (outer inner : list Z) : list cell_ref :=
  r ← outer; (fun c => {| RowIdx := r; ColIdx := c |}) <$> inner.

(** The empty cells of a board, row by row. *)
Definition EmptyIn (B : board) : list cell_ref :=
  filter (fun x => rd2 Invalid B (RowIdx x) (ColIdx x) = Empty)
    (CellsIn (range 0 MAX_BOARD_SIZE) (range 0 MAX_BOARD_SIZE)).

(** The cells of a board that are not [Invalid], row by row. *)
Definition ValidIn (B : board) : list cell_ref :=
  filter (fun x => rd2 Invalid B (RowIdx x) (ColIdx x) <> Invalid)
    (CellsIn (range 0 MAX_BOARD_SIZE) (range 0 MAX_BOARD_SIZE)).

(** An array of capacity [cap] after the cells [l] were stored in it. *)
Definition Within (cap : Z) (f : fault) (acc : result (list cell_ref)) (l : list cell_ref)
  : Prop :=
  (Z.of_nat (length l) <= cap -> acc = Ok l) /\
  (cap < Z.of_nat (length l) -> acc = Undefined f).

(** ** The flags of the initial state *)

(** The flags after the first loop: all twelve set. *)
Definition AllFlags : Z :=
  fold_left (fun Flags PieceIdx => bitfield (Z.lor Flags (Z.shiftl 1 PieceIdx)))
    (range 0 NUM_PIECES) (bitfield 0).

(** What the second loop has done to flag [j] once it has visited the
    cells [seen] that hold the value [j]. *)
Definition FlagAfter (j : Z) (acc : result Z) (seen : list cell_ref) : Prop :=
  exists Flags, acc = Ok Flags /\ 0 <= Flags < 2 ^ NUM_PIECES /\
    (Z.testbit Flags j = false <-> Piece01 <= j /\ seen <> []).

(** ** Placements on empty cells *)

(** [child] is [st] after piece [PieceIdx] was put on [cells]: the target
    cell is among them, all of them were empty and inside the board, and
    the board has changed nowhere else. *)
Definition PlacedOn (nr nc : Z) (st : search_state) (Target : option (Z * Z))
    (PieceIdx : Z) (cells : list (Z * Z)) (child : search_state) : Prop :=
  RemainingPieceBitFlags child = ClearFlag (RemainingPieceBitFlags st) PieceIdx /\
  (exists rc, Target = Some rc /\ rc ∈ cells) /\
  Forall (fun x => 0 <= fst x < nr /\ 0 <= snd x < nc /\
                   0 <= fst x < MAX_BOARD_SIZE /\ 0 <= snd x < MAX_BOARD_SIZE /\
                   rd2 Invalid (Board st) (fst x) (snd x) = Empty) cells /\
  forall r c, 0 <= r -> 0 <= c ->
    rd2 Invalid (Board child) r c =
    if bool_decide ((r, c) ∈ cells) then PieceIndexToCellValue PieceIdx
    else rd2 Invalid (Board st) r c.

(** [child] is [parent] with some empty cells inside [nr] x [nc] given to
    pieces. *)
Definition FillsEmpty (nr nc : Z) (parent child : board) : Prop :=
  forall r c, 0 <= r -> 0 <= c ->
    rd2 Invalid child r c = rd2 Invalid parent r c \/
    (rd2 Invalid parent r c = Empty /\ r < nr /\ c < nc /\
     IsPiece (rd2 Invalid child r c) = true).

(** Every state on the stack satisfies [Q] and every recorded solution [R]. *)
Definition Holds (Q : search_state -> Prop) (R : board -> Prop) (p : progress) : Prop :=
  Forall Q (SearchStates p) /\ Forall R (OutSolutions p).

(** What a run leaves alone when the flag [IsLastPiece] is [last]: the
    stack when it is on, the solutions when it is off. *)
Definition Leaves (last : bool) (p p' : progress) : Prop :=
  if last then SearchStates p' = SearchStates p
  else OutSolutions p' = OutSolutions p.

(** Piece [PieceIdx] has a cell on the board, inside [nr] x [nc]. *)
Definition OnBoard (nr nc : Z) (B : board) (PieceIdx : Z) : Prop :=
  exists r c, 0 <= r < nr /\ 0 <= c < nc /\
    rd2 Invalid B r c = PieceIndexToCellValue PieceIdx.

(** Every piece that was remaining at the start is still remaining or on
    the board. *)
Definition Accounted (nr nc Flags0 : Z) (st : search_state) : Prop :=
  wf_board (Board st) /\
  forall i, i ∈ RemainingPieceIdxs Flags0 ->
    i ∈ RemainingPieceIdxs (RemainingPieceBitFlags st) \/ OnBoard nr nc (Board st) i.

(** ** Runs of two builds *)

(** Two outcomes agree: both completed with related values, or both stopped
    in the same way. *)
Definition Agree {A} (R : A -> A -> Prop) (x y : result A) : Prop :=
  match x, y with
  | Ok a, Ok b => R a b
  | AssertFailed, AssertFailed => True
  | Undefined f, Undefined g => f = g
  | _, _ => False
  end.

(** Two runs with the same stack, solutions and events. *)
Definition SameRun (p q : progress) : Prop :=
  SearchStates p = SearchStates q /\ OutSolutions p = OutSolutions q /\ Seen p = Seen q.

(** ** Boards while they are read *)

Definition CellValuesOk (B : board) : Prop :=
  forall r c, 0 <= r < MAX_BOARD_SIZE -> 0 <= c < MAX_BOARD_SIZE ->
    Empty <= rd2 Invalid B r c <= Piece12.

(** What [ReadBoard] has stored so far: the cells from [(RowIdx, ColIdx)]
    on are untouched, and [NumValidCells] counts the valid cells. *)
Definition Reading (B : board) (RowIdx ColIdx NumValidCells : Z) : Prop :=
  wf_board B /\ CellValuesOk B /\ 0 <= RowIdx /\ 0 <= ColIdx /\
  Z.of_nat (length (ValidIn B)) = NumValidCells /\
  forall r c, 0 <= r < MAX_BOARD_SIZE -> 0 <= c < MAX_BOARD_SIZE ->
    RowIdx < r \/ (r = RowIdx /\ ColIdx <= c) -> rd2 Invalid B r c = Invalid.

Definition invalid_board : board := replicate 16 (replicate 16 Invalid).

(** ** More sample inputs *)

(** A boards file with one board: four rows of sixteen empty cells. *)
Definition four_rows : list ascii :=
  concat (replicate 4 (replicate 16 "."%char ++ [newline])).

Definition four_rows_board : board := mk_board (replicate 4 (replicate 16 Empty)).

(** The second state [Solve] pops for [staggered]. *)
Definition staggered_second : search_state :=
  Eval vm_compute in
    match head (SearchStates staggered_after_one) with
    | Some st => st
    | None => staggered_state
    end.

(** The first solution [Solve] records for [preplaced_board]. *)
Definition preplaced_first : board :=
  Eval vm_compute in
    match head (OutSolutions preplaced_result) with
    | Some B => B
    | None => preplaced_board
    end.

(** A piece with six balls. *)
Definition six_balls : piece_definition :=
  [[1;1;1;0];[1;1;1;0];[0;0;0;0];[0;0;0;0]].

(** * Proofs *)

(** * Properties of the piece operations *)

(** ** Nested loops *)

Section for2_lemmas.
Context {S T : Type}.

(** Two loops over the same indices whose bodies keep a relation between
    their states end in related states. *)
Lemma for2_rel (R : S -> T -> Prop) (outer inner : list Z)
    (f : Z -> Z -> S -> S) (g : Z -> Z -> T -> T) (s : S) (t : T) :
  R s t ->
  (forall i j s t, i ∈ outer -> j ∈ inner -> R s t -> R (f i j s) (g i j t)) ->
  R (for2 outer inner f s) (for2 outer inner g t).
Proof.
  unfold for2. revert s t.
  induction outer as [|i outer IH]; intros s t Hst Hstep; simpl; [done|].
  apply IH.
  - assert (Hin : forall j, j ∈ inner -> forall s t, R s t -> R (f i j s) (g i j t)).
    { intros j Hj s' t' Hr. apply Hstep; [left | done | done]. }
    clear Hstep IH. revert s t Hst.
    induction inner as [|j inner IHin]; intros s t Hst; simpl; [done|].
    apply IHin.
    + intros j' Hj'. apply Hin. by right.
    + apply Hin; [left | done].
  - intros i' j s' t' Hi' Hj. apply Hstep; [by right | done].
Qed.

Lemma for2_commute (h : S -> T) (outer inner : list Z)
    (f : Z -> Z -> S -> S) (g : Z -> Z -> T -> T) (s : S) :
  (forall i j s, i ∈ outer -> j ∈ inner -> h (f i j s) = g i j (h s)) ->
  h (for2 outer inner f s) = for2 outer inner g (h s).
Proof.
  intros Hstep.
  apply (for2_rel (fun s t => h s = t)); [done|].
  intros i j s' t' Hi Hj <-. by apply Hstep.
Qed.

End for2_lemmas.

Lemma for2_ext {S} (outer inner : list Z) (f g : Z -> Z -> S -> S) (s : S) :
  (forall i j s, i ∈ outer -> j ∈ inner -> f i j s = g i j s) ->
  for2 outer inner f s = for2 outer inner g s.
Proof. intros H. by apply (for2_commute (fun s => s)). Qed.

Lemma for2_invariant {S} (P : S -> Prop) (outer inner : list Z)
    (f : Z -> Z -> S -> S) (s : S) :
  P s ->
  (forall i j s, i ∈ outer -> j ∈ inner -> P s -> P (f i j s)) ->
  P (for2 outer inner f s).
Proof.
  intros Hs Hstep.
  apply (for2_rel (fun s (_ : unit) => P s) outer inner f (fun _ _ u => u) s tt);
    [done|]. intros i j s' _ Hi Hj Hp. by apply Hstep.
Qed.

Lemma bit01_zero v : bit01 v = 0 -> v = 0.
Proof. unfold bit01. destruct (Z.eqb_spec v 0); [done | discriminate]. Qed.

Lemma bit01_eqb v : (bit01 v =? 0) = (v =? 0).
Proof. unfold bit01. by destruct (v =? 0). Qed.

Lemma bit01_idem v : bit01 (bit01 v) = bit01 v.
Proof. unfold bit01. by destruct (v =? 0). Qed.

Lemma length4_inv {A} (l : list A) :
  length l = 4%nat -> exists a b c d, l = [a; b; c; d].
Proof.
  destruct l as [|a [|b [|c [|d [|]]]]]; try discriminate. intros _. by exists a, b, c, d.
Qed.

Lemma wf_piece_inv d :
  wf_piece d ->
  exists a0 a1 a2 a3 b0 b1 b2 b3 c0 c1 c2 c3 d0 d1 d2 d3,
    d = [[a0; a1; a2; a3]; [b0; b1; b2; b3]; [c0; c1; c2; c3]; [d0; d1; d2; d3]].
Proof.
  intros [Hlen Hrows].
  destruct (length4_inv _ Hlen) as (ra & rb & rc & rd & ->).
  repeat match goal with
         | H : Forall _ (_ :: _) |- _ => apply Forall_cons in H; destruct H
         end.
  destruct (length4_inv ra) as (a0 & a1 & a2 & a3 & ->); [done|].
  destruct (length4_inv rb) as (b0 & b1 & b2 & b3 & ->); [done|].
  destruct (length4_inv rc) as (c0 & c1 & c2 & c3 & ->); [done|].
  destruct (length4_inv rd) as (d0 & d1 & d2 & d3 & ->); [done|].
  by exists a0, a1, a2, a3, b0, b1, b2, b3, c0, c1, c2, c3, d0, d1, d2, d3.
Qed.

Lemma wf_piece_wr2 d r c v : wf_piece d -> wf_piece (wr2 d r c v).
Proof.
  intros [Hlen Hrows]. split; unfold wr2.
  - by rewrite length_alter.
  - apply Forall_alter; [done|]. intros row _ Hrow. by rewrite length_insert.
Qed.

Lemma wf_blank_piece : wf_piece blank_piece.
Proof. split; [done|]. by repeat constructor. Qed.

(** ** Shapes commute with the piece operations *)

Lemma Balls_Shape d r c : Balls (Shape d) r c = bit01 (Balls d r c).
Proof.
  unfold Balls, rd2, Shape. rewrite list_lookup_fmap.
  destruct (d !! Z.to_nat r) as [row|]; simpl; [|done].
  rewrite list_lookup_fmap. by destruct (row !! Z.to_nat c).
Qed.

Lemma Shape_wr2 d r c v : Shape (wr2 d r c v) = wr2 (Shape d) r c (bit01 v).
Proof.
  unfold Shape, wr2. apply list_fmap_alter.
  apply Forall_forall. intros row _. apply list_fmap_insert.
Qed.

Lemma Shape_Rotate From To : Shape (Rotate From To) = Rotate (Shape From) (Shape To).
Proof.
  unfold Rotate. apply for2_commute. intros i j s _ _.
  by rewrite Shape_wr2, Balls_Shape.
Qed.

Lemma Shape_Flip From To : Shape (Flip From To) = Flip (Shape From) (Shape To).
Proof.
  unfold Flip. apply for2_commute. intros i j s _ _.
  by rewrite Shape_wr2, Balls_Shape.
Qed.

Lemma MinIdx_Shape d : MinIdx (Shape d) = MinIdx d.
Proof.
  unfold MinIdx. apply for2_ext. intros i j [mr mc] _ _.
  by rewrite Balls_Shape, bit01_eqb.
Qed.

Lemma Shape_ShiftBy mr mc d : Shape (ShiftBy mr mc d) = ShiftBy mr mc (Shape d).
Proof.
  unfold ShiftBy. apply for2_commute. intros i j s _ _.
  by rewrite Shape_wr2, Balls_Shape.
Qed.

Lemma Shape_ClearRest mr mc d : Shape (ClearRest mr mc d) = ClearRest mr mc (Shape d).
Proof.
  unfold ClearRest. simpl.
  rewrite (for2_commute Shape _ _ _ (fun ColIdx RowIdx D => wr2 D RowIdx ColIdx 0));
    [|intros; by rewrite Shape_wr2].
  f_equal. apply for2_commute. intros. by rewrite Shape_wr2.
Qed.

Lemma Shape_PushUpAndLeft d : Shape (PushUpAndLeft d) = PushUpAndLeft (Shape d).
Proof.
  unfold PushUpAndLeft. rewrite MinIdx_Shape. destruct (MinIdx d) as [mr mc].
  by rewrite Shape_ClearRest, Shape_ShiftBy.
Qed.

Lemma BallCount_Shape d : BallCount (Shape d) = BallCount d.
Proof.
  unfold BallCount. apply for2_ext. intros i j n _ _.
  by rewrite Balls_Shape, bit01_idem.
Qed.

Lemma has_ball_in_row_Shape d r : has_ball_in_row (Shape d) r = has_ball_in_row d r.
Proof.
  unfold has_ball_in_row. induction (range 0 MAX_PIECE_SIZE) as [|c l IH]; [done|].
  simpl. by rewrite IH, Balls_Shape, bit01_eqb.
Qed.

Lemma has_ball_in_col_Shape d c : has_ball_in_col (Shape d) c = has_ball_in_col d c.
Proof.
  unfold has_ball_in_col. induction (range 0 MAX_PIECE_SIZE) as [|r l IH]; [done|].
  simpl. by rewrite IH, Balls_Shape, bit01_eqb.
Qed.

(** ** Well-formedness is kept *)

Lemma wf_piece_Rotate From To : wf_piece To -> wf_piece (Rotate From To).
Proof.
  intros H. unfold Rotate. apply for2_invariant; [done|].
  intros. by apply wf_piece_wr2.
Qed.

Lemma wf_piece_Flip From To : wf_piece To -> wf_piece (Flip From To).
Proof.
  intros H. unfold Flip. apply for2_invariant; [done|].
  intros. by apply wf_piece_wr2.
Qed.

Lemma wf_piece_PushUpAndLeft d : wf_piece d -> wf_piece (PushUpAndLeft d).
Proof.
  intros H. unfold PushUpAndLeft. destruct (MinIdx d) as [mr mc].
  unfold ClearRest, ShiftBy.
  repeat (apply for2_invariant; [|intros; by apply wf_piece_wr2]). done.
Qed.

Lemma rows01_complete a b c d : In (bit01 <$> [a; b; c; d]) rows01.
Proof.
  unfold bit01. simpl.
  destruct (a =? 0), (b =? 0), (c =? 0), (d =? 0); vm_compute; tauto.
Qed.

Lemma forall01_spec (P : piece_definition -> bool) :
  forall01 P = true -> forall d, wf_piece d -> P (Shape d) = true.
Proof.
  intros H d Hwf.
  destruct (wf_piece_inv d Hwf)
    as (a0 & a1 & a2 & a3 & b0 & b1 & b2 & b3 & c0 & c1 & c2 & c3 &
        d0 & d1 & d2 & d3 & ->).
  unfold forall01 in H.
  rewrite forallb_forall in H.
  specialize (H _ (rows01_complete a0 a1 a2 a3)). rewrite forallb_forall in H.
  specialize (H _ (rows01_complete b0 b1 b2 b3)). rewrite forallb_forall in H.
  specialize (H _ (rows01_complete c0 c1 c2 c3)). rewrite forallb_forall in H.
  exact (H _ (rows01_complete d0 d1 d2 d3)).
Qed.

Lemma pattern_facts_all : forall01 pattern_facts = true.
Proof. vm_cast_no_check (eq_refl true). Qed.

Lemma pattern_facts_elim n n' hr hc hr' hc' (m : Z * Z) (isblank : bool) :
  (n' =? n) && (if hr && hc then pair_eqb m (0, 0) else true) &&
    (if 0 <? n then hr' && hc' else isblank) = true ->
  n' = n /\ (hr = true -> hc = true -> m = (0, 0)) /\
  (0 < n -> hr' = true /\ hc' = true) /\ (n <= 0 -> isblank = true).
Proof.
  intros H. apply andb_prop in H as [H H3]. apply andb_prop in H as [H1 H2].
  split; [lia|]. split; [|split].
  - intros -> ->. simpl in H2. unfold pair_eqb in H2. destruct m as [mr mc].
    simpl in H2. apply andb_prop in H2 as [Ha Hb]. f_equal; lia.
  - intros Hpos. destruct (Z.ltb_spec 0 n); [|lia]. by apply andb_prop in H3.
  - intros Hz. by destruct (Z.ltb_spec 0 n); [lia|].
Qed.

Lemma pattern_facts_true p :
  pattern_facts p = true ->
  BallCount (PushUpAndLeft p) = BallCount p /\
  (has_ball_in_row p 0 = true -> has_ball_in_col p 0 = true -> MinIdx p = (0, 0)) /\
  (0 < BallCount p ->
     has_ball_in_row (PushUpAndLeft p) 0 = true /\
     has_ball_in_col (PushUpAndLeft p) 0 = true) /\
  (BallCount p <= 0 -> piece_eqb p blank_piece = true).
Proof. unfold pattern_facts, pattern_facts_of. apply pattern_facts_elim. Qed.

Lemma pattern_facts_spec d :
  wf_piece d ->
  BallCount (PushUpAndLeft d) = BallCount d /\
  (has_ball_in_row d 0 = true -> has_ball_in_col d 0 = true -> MinIdx d = (0, 0)) /\
  (0 < BallCount d ->
     has_ball_in_row (PushUpAndLeft d) 0 = true /\
     has_ball_in_col (PushUpAndLeft d) 0 = true) /\
  (BallCount d <= 0 -> Shape d = blank_piece).
Proof.
  intros Hwf.
  destruct (pattern_facts_true (Shape d) (forall01_spec _ pattern_facts_all d Hwf))
    as (H1 & H2 & H3 & H4).
  rewrite <- Shape_PushUpAndLeft in H1, H3.
  repeat rewrite BallCount_Shape in H1.
  rewrite BallCount_Shape in H3, H4.
  rewrite has_ball_in_row_Shape, has_ball_in_col_Shape in H2, H3.
  rewrite MinIdx_Shape in H2.
  split; [done|]. split; [done|]. split; [done|].
  intros Hz. specialize (H4 Hz). unfold piece_eqb in H4.
  by apply bool_decide_eq_true in H4.
Qed.

Lemma has_ball_in_row_true d r :
  (exists c, 0 <= c < MAX_PIECE_SIZE /\ occupied d r c) -> has_ball_in_row d r = true.
Proof.
  intros (c & Hc & Hocc). unfold has_ball_in_row. apply existsb_exists.
  exists c. split.
  - apply list_elem_of_In, elem_of_seqZ. lia.
  - unfold occupied in Hocc. by destruct (Z.eqb_spec (Balls d r c) 0).
Qed.

Lemma has_ball_in_col_true d c :
  (exists r, 0 <= r < MAX_PIECE_SIZE /\ occupied d r c) -> has_ball_in_col d c = true.
Proof.
  intros (r & Hr & Hocc). unfold has_ball_in_col. apply existsb_exists.
  exists r. split.
  - apply list_elem_of_In, elem_of_seqZ. lia.
  - unfold occupied in Hocc. by destruct (Z.eqb_spec (Balls d r c) 0).
Qed.

(** With nothing to shift, the second and third loops change nothing. *)
Lemma PushUpAndLeft_at_origin d :
  wf_piece d -> MinIdx d = (0, 0) -> PushUpAndLeft d = d.
Proof.
  intros Hwf Hmin. unfold PushUpAndLeft. rewrite Hmin.
  destruct (wf_piece_inv d Hwf)
    as (a0 & a1 & a2 & a3 & b0 & b1 & b2 & b3 & c0 & c1 & c2 & c3 &
        d0 & d1 & d2 & d3 & ->).
  reflexivity.
Qed.

Lemma Shape_blank_inv d : wf_piece d -> Shape d = blank_piece -> d = blank_piece.
Proof.
  intros Hwf.
  destruct (wf_piece_inv d Hwf)
    as (a0 & a1 & a2 & a3 & b0 & b1 & b2 & b3 & c0 & c1 & c2 & c3 &
        d0 & d1 & d2 & d3 & ->).
  intros H. injection H as.
  repeat match goal with H : bit01 _ = 0 |- _ => apply bit01_zero in H; subst end.
  reflexivity.
Qed.

(** C8.  Normalization is idempotent: a definition with a set cell in row
    0 and a set cell in column 0 (its minimum occupied row and column are
    already 0) is left unchanged by [PushUpAndLeft], and applying
    [PushUpAndLeft] twice is the same as applying it once. *)
Theorem PushUpAndLeft_idempotent (d : piece_definition) :
  wf_piece d ->
  ((exists c, 0 <= c < MAX_PIECE_SIZE /\ occupied d 0 c) ->
   (exists r, 0 <= r < MAX_PIECE_SIZE /\ occupied d r 0) ->
   PushUpAndLeft d = d) /\
  PushUpAndLeft (PushUpAndLeft d) = PushUpAndLeft d.
Proof.
  intros Hwf. split.
  - intros Hrow Hcol. apply PushUpAndLeft_at_origin; [done|].
    apply (pattern_facts_spec d Hwf).
    + by apply has_ball_in_row_true.
    + by apply has_ball_in_col_true.
  - destruct (Z.lt_ge_cases 0 (BallCount d)) as [Hpos | Hzero].
    + destruct (pattern_facts_spec d Hwf) as (_ & _ & Hfirst & _).
      destruct (Hfirst Hpos) as [Hr Hc].
      pose proof (wf_piece_PushUpAndLeft d Hwf) as Hwf'.
      apply PushUpAndLeft_at_origin; [done|].
      by apply (pattern_facts_spec _ Hwf').
    + destruct (pattern_facts_spec d Hwf) as (_ & _ & _ & Hblank).
      rewrite (Shape_blank_inv d Hwf (Hblank Hzero)). reflexivity.
Qed.

Lemma PushUpAndLeft_idempotent_witness :
  wf_piece normalized_L /\
  PushUpAndLeft normalized_L = normalized_L /\
  PushUpAndLeft (PushUpAndLeft ex_L) = PushUpAndLeft ex_L.
Proof.
  assert (Hwf : forall a0 a1 a2 a3 b0 b1 b2 b3 c0 c1 c2 c3 d0 d1 d2 d3,
             wf_piece [[a0; a1; a2; a3]; [b0; b1; b2; b3];
                       [c0; c1; c2; c3]; [d0; d1; d2; d3]]).
  { intros. split; [reflexivity | repeat constructor]. }
  split; [apply Hwf | split].
  - refine (proj1 (PushUpAndLeft_idempotent normalized_L
                     (Hwf _ _ _ _ _ _ _ _ _ _ _ _ _ _ _ _)) _ _).
    + exists 0. split; [unfold MAX_PIECE_SIZE; lia | discriminate].
    + exists 0. split; [unfold MAX_PIECE_SIZE; lia | discriminate].
  - exact (proj2 (PushUpAndLeft_idempotent ex_L (Hwf _ _ _ _ _ _ _ _ _ _ _ _ _ _ _ _))).
Defined.

Lemma Expand_GenerationOrder d : Expand d = GenerationOrder d.
Proof.
  unfold Expand, GenerationOrder.
  generalize Rotate, Flip. intros R F. reflexivity.
Qed.

Lemma Rotate_explicit a0 a1 a2 a3 b0 b1 b2 b3 c0 c1 c2 c3 d0 d1 d2 d3 To :
  wf_piece To ->
  Rotate [[a0; a1; a2; a3]; [b0; b1; b2; b3]; [c0; c1; c2; c3]; [d0; d1; d2; d3]] To
  = [[d0; c0; b0; a0]; [d1; c1; b1; a1]; [d2; c2; b2; a2]; [d3; c3; b3; a3]].
Proof.
  intros Hwf.
  destruct (wf_piece_inv To Hwf)
    as (x0 & x1 & x2 & x3 & y0 & y1 & y2 & y3 & z0 & z1 & z2 & z3 &
        w0 & w1 & w2 & w3 & ->).
  reflexivity.
Qed.

Lemma Flip_explicit a0 a1 a2 a3 b0 b1 b2 b3 c0 c1 c2 c3 d0 d1 d2 d3 To :
  wf_piece To ->
  Flip [[a0; a1; a2; a3]; [b0; b1; b2; b3]; [c0; c1; c2; c3]; [d0; d1; d2; d3]] To
  = [[d0; d1; d2; d3]; [c0; c1; c2; c3]; [b0; b1; b2; b3]; [a0; a1; a2; a3]].
Proof.
  intros Hwf.
  destruct (wf_piece_inv To Hwf)
    as (x0 & x1 & x2 & x3 & y0 & y1 & y2 & y3 & z0 & z1 & z2 & z3 &
        w0 & w1 & w2 & w3 & ->).
  reflexivity.
Qed.

Lemma BallCount_explicit a0 a1 a2 a3 b0 b1 b2 b3 c0 c1 c2 c3 d0 d1 d2 d3 :
  BallCount [[a0; a1; a2; a3]; [b0; b1; b2; b3]; [c0; c1; c2; c3]; [d0; d1; d2; d3]]
  = 0 + bit01 a0 + bit01 a1 + bit01 a2 + bit01 a3
      + bit01 b0 + bit01 b1 + bit01 b2 + bit01 b3
      + bit01 c0 + bit01 c1 + bit01 c2 + bit01 c3
      + bit01 d0 + bit01 d1 + bit01 d2 + bit01 d3.
Proof. reflexivity. Qed.

Lemma BallCount_Rotate d To : wf_piece d -> wf_piece To -> BallCount (Rotate d To) = BallCount d.
Proof.
  intros Hwf HTo.
  destruct (wf_piece_inv d Hwf)
    as (a0 & a1 & a2 & a3 & b0 & b1 & b2 & b3 & c0 & c1 & c2 & c3 &
        d0 & d1 & d2 & d3 & ->).
  rewrite Rotate_explicit, !BallCount_explicit by done. lia.
Qed.

Lemma BallCount_Flip d To : wf_piece d -> wf_piece To -> BallCount (Flip d To) = BallCount d.
Proof.
  intros Hwf HTo.
  destruct (wf_piece_inv d Hwf)
    as (a0 & a1 & a2 & a3 & b0 & b1 & b2 & b3 & c0 & c1 & c2 & c3 &
        d0 & d1 & d2 & d3 & ->).
  rewrite Flip_explicit, !BallCount_explicit by done. lia.
Qed.

(** Every variant is well formed and has as many set cells as the piece. *)
Lemma GenerationOrder_facts d :
  wf_piece d ->
  Forall (fun v => wf_piece v /\ BallCount v = BallCount d) (GenerationOrder d).
Proof.
  intros Hwf. unfold GenerationOrder. cbv zeta.
  pose proof wf_blank_piece as Hb.
  assert (HR : forall x, wf_piece x /\ BallCount x = BallCount d ->
                 wf_piece (Rotate x blank_piece) /\
                 BallCount (Rotate x blank_piece) = BallCount d).
  { intros x [Hx Hc]. split; [by apply wf_piece_Rotate|].
    by rewrite BallCount_Rotate. }
  assert (HF : wf_piece (Flip d blank_piece) /\
               BallCount (Flip d blank_piece) = BallCount d).
  { split; [by apply wf_piece_Flip | by rewrite BallCount_Flip]. }
  assert (H0 : wf_piece d /\ BallCount d = BallCount d) by done.
  pose proof (HR _ H0) as H1. pose proof (HR _ H1) as H2. pose proof (HR _ H2) as H3.
  pose proof (HR _ HF) as F1. pose proof (HR _ F1) as F2. pose proof (HR _ F2) as F3.
  repeat (apply Forall_cons; split; [assumption|]). by apply Forall_nil.
Qed.

Lemma Dedup_fold All : Dedup All = fold_left DedupStep All [].
Proof. reflexivity. Qed.

Lemma DedupStep_prefix All Kept : exists Added, fold_left DedupStep All Kept = Kept ++ Added.
Proof.
  revert Kept. induction All as [|x All IH]; intros Kept; simpl.
  - exists []. by rewrite app_nil_r.
  - unfold DedupStep at 2. destruct (IsOrientationUnique x Kept).
    + destruct (IH (Kept ++ [x])) as [Added ->]. exists (x :: Added).
      by rewrite <- app_assoc.
    + apply IH.
Qed.

Lemma DedupStep_incl All Kept x :
  x ∈ fold_left DedupStep All Kept -> x ∈ Kept \/ x ∈ All.
Proof.
  revert Kept. induction All as [|y All IH]; intros Kept; simpl; [by left|].
  intros [Hin | Hin]%IH.
  - unfold DedupStep in Hin. destruct (IsOrientationUnique y Kept).
    + apply elem_of_app in Hin as [Hin | Hin%list_elem_of_singleton].
      * by left.
      * subst. right. left.
    + by left.
  - right. by right.
Qed.

Lemma Dedup_incl All x : x ∈ Dedup All -> x ∈ All.
Proof.
  rewrite Dedup_fold. intros [Hin | Hin]%DedupStep_incl; [|done].
  by apply elem_of_nil in Hin.
Qed.

Lemma Dedup_head x All : exists Added, Dedup (x :: All) = x :: Added.
Proof.
  rewrite Dedup_fold. simpl. unfold DedupStep at 2. simpl.
  apply (DedupStep_prefix All [x]).
Qed.

(** ** Conversion to ball lists *)

Lemma ConvertOrientation_count D o n :
  ConvertOrientation D = Ok (o, n) -> Z.of_nat (length o) = n /\ n = BallCount D.
Proof.
  unfold ConvertOrientation, BallCount.
  pose (R := fun (acc : result (list cell_ref * Z)) (m : Z) =>
               forall o n, acc = Ok (o, n) -> Z.of_nat (length o) = n /\ n = m).
  intros H. refine (for2_rel R _ _ _ _ _ _ _ _ o n H).
  - intros o' n' [= <- <-]. done.
  - clear. intros i j acc m _ _ HR o n.
    destruct acc as [[o' n']| |]; simpl; [|discriminate..].
    destruct (HR o' n' eq_refl) as [Hlen <-].
    unfold bit01. destruct (Balls D i j =? 0); simpl.
    + intros [= <- <-]. lia.
    + destruct (n' <? MAX_BALLS); [|discriminate].
      intros [= <- <-]. rewrite length_app. simpl. lia.
Qed.

Lemma ConvertStep_fail Kept (acc : result search_piece) sp :
  fold_left ConvertStep Kept acc = Ok sp -> exists sp0, acc = Ok sp0.
Proof.
  revert acc. induction Kept as [|K Kept IH]; intros acc; cbn [fold_left]; [eauto|].
  intros [sp0 H]%IH. destruct acc; [eauto | discriminate..].
Qed.

(** What the conversion loop leaves in a piece: one ball list per kept
    orientation, and the count of the last one in [NumBalls]. *)
Lemma ConvertStep_spec Kept os0 no nb sp :
  fold_left ConvertStep Kept
    (Ok {| Orientations := os0; NumOrientations := no; NumBalls := nb |}) = Ok sp ->
  NumOrientations sp = no /\
  exists os,
    Orientations sp = os0 ++ os /\
    Forall2 (fun K o => ConvertOrientation (Definition_ K) = Ok (o, Z.of_nat (length o)))
      Kept os /\
    NumBalls sp = match last Kept with
                  | Some K => BallCount (Definition_ K)
                  | None => nb
                  end.
Proof.
  revert os0 nb. induction Kept as [|K Kept IH]; intros os0 nb; cbn [fold_left].
  - intros [= <-]. split; [done|]. exists []. by rewrite app_nil_r.
  - intros H. destruct (ConvertStep_fail _ _ _ H) as [sp1 H1]. rewrite H1 in H.
    unfold ConvertStep in H1. cbn [bind Orientations NumOrientations] in H1.
    destruct (ConvertOrientation (Definition_ K)) as [[o n]| |] eqn:HK;
      cbn [bind] in H1; [|discriminate..].
    injection H1 as <-.
    destruct (ConvertOrientation_count _ _ _ HK) as [Hlen Hn].
    destruct (IH _ _ H) as (HNO & os & Hos & Hall & HNB).
    split; [done|]. exists (o :: os). split; [|split].
    + by rewrite Hos, <- app_assoc.
    + constructor; [by rewrite Hlen | done].
    + rewrite HNB. destruct Kept as [|K' Kept']; [exact Hn|].
      change (last (K :: K' :: Kept')) with (last (K' :: Kept')).
      destruct (last (K' :: Kept')) eqn:E; [done|].
      by apply last_None in E.
Qed.

Lemma ConvertPiece_fold Old Kept :
  ConvertPiece Old Kept =
  fold_left ConvertStep Kept
    (Ok {| Orientations := [];
           NumOrientations := u8 (Z.of_nat (length Kept));
           NumBalls := NumBalls Old |}).
Proof. reflexivity. Qed.

(** ** The variants of a well-formed piece *)

Lemma binary_blank : binary blank_piece.
Proof. reflexivity. Qed.

Lemma binary_Rotate d : binary d -> binary (Rotate d blank_piece).
Proof. unfold binary. intros H. by rewrite Shape_Rotate, H, binary_blank. Qed.

Lemma binary_Flip d : binary d -> binary (Flip d blank_piece).
Proof. unfold binary. intros H. by rewrite Shape_Flip, H, binary_blank. Qed.

Lemma binary_PushUpAndLeft d : binary d -> binary (PushUpAndLeft d).
Proof. unfold binary. intros H. by rewrite Shape_PushUpAndLeft, H. Qed.

Lemma GenerationOrder_binary d :
  binary d -> Forall binary (GenerationOrder d).
Proof.
  intros H0. unfold GenerationOrder. cbv zeta.
  pose proof (binary_Rotate _ H0) as H1. pose proof (binary_Rotate _ H1) as H2.
  pose proof (binary_Rotate _ H2) as H3. pose proof (binary_Flip _ H0) as F0.
  pose proof (binary_Rotate _ F0) as F1. pose proof (binary_Rotate _ F1) as F2.
  pose proof (binary_Rotate _ F2) as F3.
  repeat (apply Forall_cons; split; [assumption|]). by apply Forall_nil.
Qed.

Lemma Variants_Normalized d : Definition_ <$> Variants d = Normalized d.
Proof.
  unfold Variants, Normalized. rewrite Expand_GenerationOrder.
  rewrite <- list_fmap_compose. apply list_fmap_id.
Qed.

Lemma Variants_Packed d :
  Forall (fun K => Packed K = ComputePackedRepresentation (Definition_ K)) (Variants d).
Proof. unfold Variants. apply Forall_fmap, Forall_true. done. Qed.

Lemma Normalized_facts d :
  wf_piece d ->
  Forall (fun v => wf_piece v /\ BallCount v = BallCount d) (Normalized d).
Proof.
  intros Hwf. unfold Normalized. apply Forall_fmap.
  eapply Forall_impl; [by apply GenerationOrder_facts|].
  intros v [Hv Hc]. simpl. split; [by apply wf_piece_PushUpAndLeft|].
  rewrite <- Hc. by apply pattern_facts_spec.
Qed.

Lemma Normalized_binary d : binary d -> Forall binary (Normalized d).
Proof.
  intros Hb. unfold Normalized. apply Forall_fmap.
  eapply Forall_impl; [by apply GenerationOrder_binary|].
  intros v Hv. by apply binary_PushUpAndLeft.
Qed.

Lemma Variants_cons d : exists V Vs, Variants d = V :: Vs /\ length Vs = 7%nat.
Proof.
  unfold Variants. rewrite Expand_GenerationOrder. unfold GenerationOrder.
  cbv zeta. rewrite !fmap_cons, fmap_nil. eauto.
Qed.

(** ** What [Initialize] stores for one piece *)

Lemma Initialize_InitializeAll this Pieces :
  Initialize this Pieces = InitializeAll this Pieces.
Proof.
  unfold Initialize. cbv zeta. revert this.
  induction Pieces as [|Piece Pieces IH]; intros this.
  - by destruct this.
  - destruct this as [|Old Olds]; [done|].
    rewrite !fmap_cons. cbn [ConvertAll InitializeAll]. rewrite IH.
    unfold InitializePiece, Variants. reflexivity.
Qed.

Lemma InitializeAll_lookup Olds Pieces s :
  InitializeAll Olds Pieces = Ok s ->
  forall i sp, s !! i = Some sp ->
    exists Old Piece,
      Olds !! i = Some Old /\ Pieces !! i = Some Piece /\
      InitializePiece Old Piece = Ok sp.
Proof.
  revert Pieces s. induction Olds as [|Old Olds IH]; intros Pieces s.
  - simpl. intros [= <-] i sp Hi. by rewrite lookup_nil in Hi.
  - destruct Pieces as [|Piece Pieces].
    { simpl. intros [= <-] i sp Hi. by rewrite lookup_nil in Hi. }
    cbn [InitializeAll].
    destruct (InitializePiece Old Piece) as [sp0| |] eqn:H0; cbn [bind]; [|discriminate..].
    destruct (InitializeAll Olds Pieces) as [rest| |] eqn:Hrest; cbn [bind];
      [|discriminate..].
    intros [= <-] [|i] sp Hi.
    + injection Hi as <-. exists Old, Piece. done.
    + simpl in Hi. destruct (IH _ _ Hrest i sp Hi) as (O' & P' & ? & ? & ?).
      exists O', P'. done.
Qed.

Lemma Dedup_length All : (length (Dedup All) <= length All)%nat.
Proof.
  assert (Hle : forall All Kept,
             (length (fold_left DedupStep All Kept) <= length Kept + length All)%nat).
  { clear. induction All as [|x All IH]; intros Kept; cbn [fold_left length]; [lia|].
    etrans; [apply IH|]. unfold DedupStep.
    destruct (IsOrientationUnique x Kept); [rewrite length_app; cbn [length]|]; lia. }
  rewrite Dedup_fold. etrans; [apply Hle|]. cbn [length]. lia.
Qed.

Lemma Dedup_Variants_length d : (1 <= length (Dedup (Variants d)) <= 8)%nat.
Proof.
  destruct (Variants_cons d) as (V & Vs & HV & HVs). split.
  - rewrite HV. destruct (Dedup_head V Vs) as [Added ->]. cbn [length]. lia.
  - etrans; [apply Dedup_length|]. rewrite HV. cbn [length]. lia.
Qed.

Lemma Dedup_Variants_count d K :
  wf_piece d -> K ∈ Dedup (Variants d) -> BallCount (Definition_ K) = BallCount d.
Proof.
  intros Hwf HK%Dedup_incl.
  assert (Hin : Definition_ K ∈ Normalized d).
  { rewrite <- Variants_Normalized. by apply list_elem_of_fmap_2. }
  pose proof (Normalized_facts d Hwf) as Hf.
  rewrite Forall_forall in Hf. by apply Hf.
Qed.

Lemma InitializePiece_spec Old d sp :
  wf_piece d ->
  InitializePiece Old d = Ok sp ->
  NumOrientations sp = Z.of_nat (length (Dedup (Variants d))) /\
  NumBalls sp = BallCount d /\
  Forall2 (fun K o => ConvertOrientation (Definition_ K) = Ok (o, BallCount d))
    (Dedup (Variants d)) (Orientations sp).
Proof.
  intros Hwf. unfold InitializePiece. rewrite ConvertPiece_fold.
  intros (HNO & os & Hos & Hall & HNB)%ConvertStep_spec.
  rewrite app_nil_l in Hos.
  pose proof (Dedup_Variants_length d) as Hlen.
  split; [|split].
  - rewrite HNO. unfold u8. rewrite Z.mod_small; lia.
  - rewrite HNB. destruct (last (Dedup (Variants d))) as [K|] eqn:Hlast.
    + apply Dedup_Variants_count; [done|]. by apply last_Some_elem_of.
    + apply last_None in Hlast. rewrite Hlast in Hlen. cbn [length] in Hlen. lia.
  - rewrite Hos. apply Forall2_same_length_lookup_2; [by eapply Forall2_length|].
    intros i K o HK Ho.
    pose proof (Forall2_lookup_lr _ _ _ _ _ _ Hall HK Ho) as Hconv.
    cbn beta in Hconv.
    destruct (ConvertOrientation_count _ _ _ Hconv) as [_ Hc].
    rewrite Hconv. f_equal. f_equal. rewrite Hc.
    apply Dedup_Variants_count; [done|]. by eapply list_elem_of_lookup_2.
Qed.

(** C10.  After [Initialize], every orientation stored for a piece has the
    same number of balls, the number of set cells of the piece, and the
    piece's [NumBalls] -- which the conversion loop resets and recounts for
    every orientation -- is that number. *)
Theorem NumBalls_counts_every_orientation
    (this : solver) (Pieces : list piece_definition) (s : solver) :
  Forall wf_piece Pieces ->
  Initialize this Pieces = Ok s ->
  forall i sp d,
    s !! i = Some sp -> Pieces !! i = Some d ->
    NumBalls sp = BallCount d /\
    Forall (fun Orientation => Z.of_nat (length Orientation) = NumBalls sp)
      (Orientations sp).
Proof.
  intros Hwf Hinit i sp d Hsp Hd. rewrite Initialize_InitializeAll in Hinit.
  destruct (InitializeAll_lookup _ _ _ Hinit i sp Hsp) as (Old & d' & _ & Hd' & Hp).
  assert (d' = d) as -> by congruence.
  assert (Hwfd : wf_piece d).
  { rewrite Forall_forall in Hwf. apply Hwf. by eapply list_elem_of_lookup_2. }
  destruct (InitializePiece_spec _ _ _ Hwfd Hp) as (_ & HNB & Hall).
  split; [done|]. rewrite HNB.
  apply Forall_forall. intros o Ho.
  apply list_elem_of_lookup in Ho as [j Hj].
  destruct (Forall2_lookup_r _ _ _ _ _ Hall Hj) as (K & _ & Hconv).
  by destruct (ConvertOrientation_count _ _ _ Hconv) as [-> _].
Qed.

Lemma wf_piece_explicit a0 a1 a2 a3 b0 b1 b2 b3 c0 c1 c2 c3 d0 d1 d2 d3 :
  wf_piece [[a0; a1; a2; a3]; [b0; b1; b2; b3]; [c0; c1; c2; c3]; [d0; d1; d2; d3]].
Proof. split; [reflexivity | repeat constructor]. Defined.

Lemma wf_sample_pieces : Forall wf_piece sample_pieces.
Proof. repeat (constructor; [apply wf_piece_explicit|]). constructor. Defined.

Lemma NumBalls_counts_every_orientation_witness :
  exists sp,
    sample_solver !! 5%nat = Some sp /\
    NumBalls sp = 5 /\
    Forall (fun Orientation => Z.of_nat (length Orientation) = NumBalls sp)
      (Orientations sp).
Proof.
  eexists. split; [reflexivity|].
  exact (NumBalls_counts_every_orientation blank_solver sample_pieces sample_solver
           wf_sample_pieces eq_refl 5%nat _ _ eq_refl eq_refl).
Defined.

Lemma for2_4x4 {S} (f : Z -> Z -> S -> S) (s : S) :
  for2 (range 0 4) (range 0 4) f s =
  f 3 3 (f 3 2 (f 3 1 (f 3 0 (f 2 3 (f 2 2 (f 2 1 (f 2 0
  (f 1 3 (f 1 2 (f 1 1 (f 1 0 (f 0 3 (f 0 2 (f 0 1 (f 0 0 s))))))))))))))).
Proof. reflexivity. Qed.

Lemma Packed_explicit a0 a1 a2 a3 b0 b1 b2 b3 c0 c1 c2 c3 d0 d1 d2 d3 :
  ComputePackedRepresentation
    [[a0; a1; a2; a3]; [b0; b1; b2; b3]; [c0; c1; c2; c3]; [d0; d1; d2; d3]]
  = fold_left PackStep
      [a0; a1; a2; a3; b0; b1; b2; b3; c0; c1; c2; c3; d0; d1; d2; d3] 0.
Proof.
  unfold ComputePackedRepresentation, MAX_PIECE_SIZE. rewrite for2_4x4.
  cbv [Balls rd2 lookup list_lookup Z.to_nat Pos.to_nat Pos.iter_op Nat.add
       fold_left PackStep].
  reflexivity.
Qed.

Lemma PackStep_01 P v : 0 <= P < 2 ^ 31 -> is01 v -> PackStep P v = 2 * P + v.
Proof.
  intros HP Hv. unfold PackStep, u32.
  rewrite Z.shiftl_mul_pow2 by lia. change (2 ^ 1) with 2.
  rewrite Z.mod_small by lia.
  destruct Hv as [-> | ->]; [rewrite Z.lor_0_r; lia|].
  rewrite <- Z.lxor_lor, <- Z.add_nocarry_lxor; [lia | |].
  - change 1 with (Z.ones 1). rewrite Z.land_ones by lia. change (2 ^ 1) with 2.
    first [apply Z_mod_mult | rewrite Z.mul_comm; apply Z_mod_mult].
  - change 1 with (Z.ones 1). rewrite Z.land_ones by lia. change (2 ^ 1) with 2.
    first [apply Z_mod_mult | rewrite Z.mul_comm; apply Z_mod_mult].
Qed.

(** The packed value of a 0/1 list is the number its bits spell. *)
Lemma fold_PackStep_snoc l v :
  (length l < 31)%nat -> Forall is01 l -> is01 v ->
  0 <= fold_left PackStep l 0 < 2 ^ Z.of_nat (length l) /\
  fold_left PackStep (l ++ [v]) 0 = 2 * fold_left PackStep l 0 + v.
Proof.
  revert v. induction l as [|w l IH] using rev_ind; intros v Hlen Hl Hv.
  - cbn [length fold_left app]. split; [cbn; lia|].
    rewrite PackStep_01 by (cbn; done || lia). lia.
  - rewrite length_app in Hlen |- *. cbn [length] in Hlen |- *.
    apply Forall_app in Hl as [Hl Hw]. apply Forall_inv in Hw.
    destruct (IH w ltac:(lia) Hl Hw) as [Hb Hs].
    assert (Hpow : 2 ^ Z.of_nat (length l + 1) = 2 * 2 ^ Z.of_nat (length l)).
    { rewrite Nat2Z.inj_add, Z.pow_add_r by lia. change (2 ^ Z.of_nat 1) with 2. lia. }
    assert (Hmax : 2 ^ Z.of_nat (length l + 1) <= 2 ^ 31)
      by (apply Z.pow_le_mono_r; lia).
    assert (Hrange : 0 <= fold_left PackStep (l ++ [w]) 0 < 2 ^ Z.of_nat (length l + 1)).
    { rewrite Hs, Hpow. destruct Hw as [-> | ->]; lia. }
    split; [done|].
    rewrite (fold_left_app PackStep (l ++ [w]) [v]). cbn [fold_left].
    rewrite PackStep_01 by (done || lia). done.
Qed.

Lemma fold_PackStep_inj l1 l2 :
  length l1 = length l2 -> (length l1 <= 31)%nat ->
  Forall is01 l1 -> Forall is01 l2 ->
  fold_left PackStep l1 0 = fold_left PackStep l2 0 -> l1 = l2.
Proof.
  revert l2. induction l1 as [|v l1 IH] using rev_ind; intros l2 Hlen Hmax H1 H2 Heq.
  - destruct l2; [done | discriminate].
  - destruct l2 as [|w l2 _] using rev_ind.
    { rewrite length_app in Hlen. cbn in Hlen. lia. }
    rewrite !length_app in Hlen. rewrite length_app in Hmax. cbn [length] in Hlen, Hmax.
    apply Forall_app in H1 as [H1 Hv]. apply Forall_inv in Hv.
    apply Forall_app in H2 as [H2 Hw]. apply Forall_inv in Hw.
    destruct (fold_PackStep_snoc l1 v ltac:(lia) H1 Hv) as [_ E1].
    destruct (fold_PackStep_snoc l2 w ltac:(lia) H2 Hw) as [_ E2].
    rewrite E1, E2 in Heq.
    assert (v = w /\ fold_left PackStep l1 0 = fold_left PackStep l2 0) as [-> Hrest]
      by (destruct Hv as [-> | ->], Hw as [-> | ->]; lia).
    f_equal. apply IH; (done || lia).
Qed.

Lemma binary_explicit a0 a1 a2 a3 b0 b1 b2 b3 c0 c1 c2 c3 d0 d1 d2 d3 :
  binary [[a0; a1; a2; a3]; [b0; b1; b2; b3]; [c0; c1; c2; c3]; [d0; d1; d2; d3]] ->
  Forall is01 [a0; a1; a2; a3; b0; b1; b2; b3; c0; c1; c2; c3; d0; d1; d2; d3].
Proof.
  unfold binary, Shape. cbn [fmap list_fmap]. intros [= <- <- <- <- <- <- <- <- <- <- <- <- <- <- <- <-].
  repeat (constructor; [unfold is01, bit01; destruct (_ =? 0); auto|]). constructor.
Qed.

Lemma Packed_inj d1 d2 :
  wf_piece d1 -> wf_piece d2 -> binary d1 -> binary d2 ->
  ComputePackedRepresentation d1 = ComputePackedRepresentation d2 -> d1 = d2.
Proof.
  intros H1 H2.
  destruct (wf_piece_inv d1 H1)
    as (a0 & a1 & a2 & a3 & b0 & b1 & b2 & b3 & c0 & c1 & c2 & c3 &
        d0 & d1' & d2' & d3 & ->).
  destruct (wf_piece_inv d2 H2)
    as (x0 & x1 & x2 & x3 & y0 & y1 & y2 & y3 & z0 & z1 & z2 & z3 &
        w0 & w1 & w2 & w3 & ->).
  intros B1%binary_explicit B2%binary_explicit. rewrite !Packed_explicit.
  intros Heq. apply fold_PackStep_inj in Heq; [|reflexivity|cbn; lia|done..].
  by injection Heq as -> -> -> -> -> -> -> -> -> -> -> -> -> -> -> ->.
Qed.

Lemma RemoveRepeats_seen seen l :
  (forall v, v ∈ l -> v ∈ seen) -> RemoveRepeats seen l = [].
Proof.
  induction l as [|x l IH]; intros H; cbn [RemoveRepeats]; [done|].
  rewrite bool_decide_eq_true_2 by (apply H; left).
  apply IH. intros v Hv. apply H. by right.
Qed.

Lemma RemoveRepeats_NoDup seen l :
  NoDup l -> (forall v, v ∈ l -> v ∉ seen) -> RemoveRepeats seen l = l.
Proof.
  revert seen. induction l as [|x l IH]; intros seen Hnd H; cbn [RemoveRepeats]; [done|].
  apply NoDup_cons in Hnd as [Hx Hnd].
  rewrite bool_decide_eq_false_2 by (apply H; left).
  f_equal. apply IH; [done|]. intros v Hv [Hin | ->%list_elem_of_singleton]%elem_of_app.
  - apply (H v); [by right | done].
  - done.
Qed.

Lemma IsOrientationUnique_false x Kept :
  IsOrientationUnique x Kept = false <-> exists o, o ∈ Kept /\ Packed x = Packed o.
Proof.
  unfold IsOrientationUnique. rewrite negb_false_iff, existsb_exists. split.
  - intros (o & Hin & Heq). exists o. split; [by apply list_elem_of_In | lia].
  - intros (o & Hin & Heq). exists o. split; [by apply list_elem_of_In | lia].
Qed.

(** Where packed representations tell definitions apart, the loop keeps
    the first occurrence of every definition. *)
Lemma DedupStep_RemoveRepeats All Kept :
  (forall x y, x ∈ Kept ++ All -> y ∈ Kept ++ All ->
     (Packed x = Packed y <-> Definition_ x = Definition_ y)) ->
  Definition_ <$> fold_left DedupStep All Kept =
  (Definition_ <$> Kept) ++ RemoveRepeats (Definition_ <$> Kept) (Definition_ <$> All).
Proof.
  revert Kept. induction All as [|x All IH]; intros Kept H.
  - cbn [fold_left fmap list_fmap RemoveRepeats]. by rewrite app_nil_r.
  - cbn [fold_left]. rewrite fmap_cons. cbn [RemoveRepeats].
    assert (Hx : x ∈ Kept ++ x :: All) by (apply elem_of_app; right; left).
    unfold DedupStep at 2.
    destruct (IsOrientationUnique x Kept) eqn:Hu.
    + rewrite bool_decide_eq_false_2.
      * rewrite IH.
        -- rewrite fmap_app. cbn [fmap list_fmap]. by rewrite <- app_assoc.
        -- intros a c Ha Hc. apply H.
           ++ rewrite <- app_assoc in Ha. exact Ha.
           ++ rewrite <- app_assoc in Hc. exact Hc.
      * intros (o & Heq & Ho)%list_elem_of_fmap.
        assert (Hf : IsOrientationUnique x Kept = false).
        { apply IsOrientationUnique_false. exists o. split; [done|].
          apply H; [done | by apply elem_of_app; left | done]. }
        congruence.
    + apply IsOrientationUnique_false in Hu as (o & Ho & Heq).
      rewrite bool_decide_eq_true_2.
      * apply IH. intros a c Ha Hc. apply H.
        -- apply elem_of_app in Ha as [?|?]; apply elem_of_app; [by left | right; by right].
        -- apply elem_of_app in Hc as [?|?]; apply elem_of_app; [by left | right; by right].
      * apply list_elem_of_fmap. exists o. split; [|done].
        apply H; [done | by apply elem_of_app; left | done].
Qed.

Lemma Dedup_Variants d :
  wf_piece d -> binary d ->
  Definition_ <$> Dedup (Variants d) = RemoveRepeats [] (Normalized d).
Proof.
  intros Hwf Hb. rewrite Dedup_fold.
  rewrite DedupStep_RemoveRepeats.
  - cbn [fmap list_fmap app]. by rewrite Variants_Normalized.
  - cbn [app]. intros x y Hx Hy.
    pose proof (Variants_Packed d) as HP. rewrite Forall_forall in HP.
    rewrite (HP x Hx), (HP y Hy).
    split; [|by intros ->].
    assert (Hn : forall K, K ∈ Variants d ->
                   wf_piece (Definition_ K) /\ binary (Definition_ K)).
    { intros K HK.
      assert (Hin : Definition_ K ∈ Normalized d).
      { rewrite <- Variants_Normalized. by apply list_elem_of_fmap_2. }
      pose proof (Normalized_facts d Hwf) as Hf. rewrite Forall_forall in Hf.
      pose proof (Normalized_binary d Hb) as Hg. rewrite Forall_forall in Hg.
      split; [by apply Hf | by apply Hg]. }
    destruct (Hn x Hx), (Hn y Hy). by apply Packed_inj.
Qed.

Lemma ConvertOrientation_BallsOf D o n :
  ConvertOrientation D = Ok (o, n) -> o = BallsOf D.
Proof.
  unfold ConvertOrientation, BallsOf.
  pose (R := fun (acc : result (list cell_ref * Z)) (l : list cell_ref) =>
               forall o n, acc = Ok (o, n) -> o = l).
  intros H. refine (for2_rel R _ _ _ _ _ _ _ _ o n H).
  - by intros o' n' [= <- <-].
  - clear. intros i j acc l Hi Hj HR o n.
    apply elem_of_seqZ in Hi, Hj. unfold MAX_PIECE_SIZE in Hi, Hj.
    destruct acc as [[o' n']| |]; cbn [bind]; [|discriminate..].
    rewrite <- (HR o' n' eq_refl).
    destruct (Balls D i j =? 0); cbn [negb].
    + by intros [= <- <-].
    + destruct (n' <? MAX_BALLS); [|discriminate].
      intros [= <- <-]. unfold u8. by rewrite !Z.mod_small by lia.
Qed.

Lemma Normalized_cons d : exists vs, Normalized d = PushUpAndLeft d :: vs /\ length vs = 7%nat.
Proof. unfold Normalized, GenerationOrder. cbv zeta. rewrite !fmap_cons. eauto. Qed.

(** C7.  For a piece read from 0/1 input, [Initialize] stores its normalized
    variants in generation order (the piece, its three rotations, the flipped
    piece, its three rotations) with repeated ones removed: exactly one
    orientation when every variant normalizes to the same definition, and
    exactly eight when no two do. *)
Theorem Initialize_unique_orientations
    (this : solver) (Pieces : list piece_definition) (s : solver)
    (i : nat) (d : piece_definition) (sp : search_piece) :
  Initialize this Pieces = Ok s ->
  Pieces !! i = Some d -> s !! i = Some sp ->
  wf_piece d -> binary d ->
  Orientations sp = BallsOf <$> RemoveRepeats [] (Normalized d) /\
  NumOrientations sp = Z.of_nat (length (Orientations sp)) /\
  ((forall v, v ∈ Normalized d -> v = PushUpAndLeft d) -> NumOrientations sp = 1) /\
  (NoDup (Normalized d) -> NumOrientations sp = 8).
Proof.
  intros Hinit Hd Hsp Hwf Hb. rewrite Initialize_InitializeAll in Hinit.
  destruct (InitializeAll_lookup _ _ _ Hinit i sp Hsp) as (Old & d' & _ & Hd' & Hp).
  assert (d' = d) as -> by congruence.
  destruct (InitializePiece_spec _ _ _ Hwf Hp) as (HNO & _ & Hall).
  assert (Hor : Orientations sp = BallsOf <$> RemoveRepeats [] (Normalized d)).
  { rewrite <- Dedup_Variants by done. rewrite <- list_fmap_compose.
    apply list_eq_same_length with (length (Orientations sp)); [|done|].
    - rewrite length_fmap. by eapply Forall2_length.
    - intros j o o' _ Ho Ho'.
      apply list_lookup_fmap_Some in Ho' as (K & -> & HK).
      pose proof (Forall2_lookup_lr _ _ _ _ _ _ Hall HK Ho) as Hconv.
      by apply ConvertOrientation_BallsOf in Hconv. }
  assert (Hlen : NumOrientations sp = Z.of_nat (length (RemoveRepeats [] (Normalized d)))).
  { rewrite HNO, <- Dedup_Variants by done. by rewrite length_fmap. }
  split; [done|]. split; [|split].
  - by rewrite Hor, length_fmap.
  - intros Hsame. rewrite Hlen.
    destruct (Normalized_cons d) as (vs & Hn & _). rewrite Hn in Hsame |- *.
    cbn [RemoveRepeats]. rewrite bool_decide_eq_false_2 by apply not_elem_of_nil.
    rewrite RemoveRepeats_seen; [done|].
    intros v Hv. rewrite (Hsame v) by (by right). cbn [app]. left.
  - intros Hnd. rewrite Hlen, RemoveRepeats_NoDup.
    + destruct (Normalized_cons d) as (vs & -> & Hvs). cbn [length]. lia.
    + done.
    + intros v _. apply not_elem_of_nil.
Qed.

Lemma Initialize_unique_orientations_witness :
  (exists sp,
     sample_solver !! 2%nat = Some sp /\
     Orientations sp = BallsOf <$> RemoveRepeats [] (Normalized square) /\
     NumOrientations sp = 1) /\
  (exists sp,
     sample_solver !! 1%nat = Some sp /\
     Orientations sp = BallsOf <$> RemoveRepeats [] (Normalized long_L) /\
     NumOrientations sp = 8).
Proof.
  split.
  - eexists. split; [reflexivity|].
    destruct (Initialize_unique_orientations blank_solver sample_pieces sample_solver
                2%nat square _ eq_refl eq_refl eq_refl
                (wf_piece_explicit _ _ _ _ _ _ _ _ _ _ _ _ _ _ _ _) eq_refl)
      as (Hor & _ & Hone & _).
    split; [exact Hor|]. apply Hone.
    apply Forall_forall. vm_compute. repeat constructor.
  - eexists. split; [reflexivity|].
    destruct (Initialize_unique_orientations blank_solver sample_pieces sample_solver
                1%nat long_L _ eq_refl eq_refl eq_refl
                (wf_piece_explicit _ _ _ _ _ _ _ _ _ _ _ _ _ _ _ _) eq_refl)
      as (Hor & _ & _ & Height).
    split; [exact Hor|]. apply Height.
    apply (bool_decide_unpack _). vm_compute. exact I.
Defined.

(** * Properties of the search *)

(** ** Loops with a failing body *)

Lemma for_each_nil {S} (body : Z -> S -> result S) (s : S) : for_each [] body s = Ok s.
Proof. reflexivity. Qed.

Lemma for_each_cons {S} i l (body : Z -> S -> result S) (s : S) :
  for_each (i :: l) body s = bind (body i s) (for_each l body).
Proof. reflexivity. Qed.

Lemma bind_Ok {A B} (m : result A) (k : A -> result B) (y : B) :
  bind m k = Ok y -> exists x, m = Ok x /\ k x = Ok y.
Proof. destruct m; cbn [bind]; [eauto | discriminate..]. Qed.

Lemma Counted_refl b p : Counted b p p.
Proof. unfold Counted, SeenLe. split; [lia|]. split; [tauto | done]. Qed.

Lemma Counted_same b p p' : Seen p' = Seen p -> Out p' = Out p -> Counted b p p'.
Proof.
  intros Hs Ho. unfold Counted, SeenLe, InSync. rewrite Hs, Ho.
  split; [lia|]. split; [tauto | done].
Qed.

Lemma Counted_trans b p1 p2 p3 : Counted b p1 p2 -> Counted b p2 p3 -> Counted b p1 p3.
Proof.
  unfold Counted, SeenLe. intros (Hs & Hy & Hn) (Hs' & Hy' & Hn').
  split; [lia|]. split.
  - intros Hb H1. auto.
  - intros Hb. rewrite Hn', Hn; done.
Qed.

Lemma Grows_refl Q p : Grows Q 0 p p.
Proof.
  exists [], []. cbn [fmap list_fmap app length]. rewrite app_nil_r.
  repeat split; (done || lia).
Qed.

Lemma Grows_trans Q n m p1 p2 p3 :
  Grows Q n p1 p2 -> Grows Q m p2 p3 -> Grows Q (n + m) p1 p3.
Proof.
  intros (pu & re & Hs & Ho & Hpu & Hre & Hn) (pu' & re' & Hs' & Ho' & Hpu' & Hre' & Hm).
  exists (pu' ++ pu), (re ++ re'). repeat split.
  - by rewrite Hs', Hs, app_assoc.
  - by rewrite Ho', Ho, fmap_app, app_assoc.
  - by apply Forall_app.
  - by apply Forall_app.
  - rewrite length_app. lia.
Qed.

Lemma Grows_weaken (Q Q' : search_state -> Prop) n n' p p' :
  (forall st, Q st -> Q' st) -> (n <= n')%nat -> Grows Q n p p' -> Grows Q' n' p p'.
Proof.
  intros HQ Hn (pu & re & Hs & Ho & Hpu & Hre & Hlen).
  exists pu, re. repeat split; try done.
  - eapply Forall_impl; eauto.
  - eapply Forall_impl; eauto.
  - lia.
Qed.

Lemma Advances_refl b Q p : Advances b Q 0 p p.
Proof. split; [apply Grows_refl | apply Counted_refl]. Qed.

Lemma Advances_trans b Q n m p1 p2 p3 :
  Advances b Q n p1 p2 -> Advances b Q m p2 p3 -> Advances b Q (n + m) p1 p3.
Proof.
  intros [G C] [G' C']. split; [by eapply Grows_trans | by eapply Counted_trans].
Qed.

Lemma Advances_weaken b (Q Q' : search_state -> Prop) n n' p p' :
  (forall st, Q st -> Q' st) -> (n <= n')%nat ->
  Advances b Q n p p' -> Advances b Q' n' p p'.
Proof. intros HQ Hn [G C]. split; [by eapply Grows_weaken | done]. Qed.

Lemma u64_bump x : u64 (u64 x + 1) = u64 (x + 1).
Proof. unfold u64. by rewrite Zplus_mod_idemp_l. Qed.

Lemma Counted_CountState b p : Counted b p (CountState b p).
Proof.
  unfold Counted, SeenLe, InSync, CountState, bump. cbn. split; [lia|].
  split.
  - intros -> (H1 & H2 & H3). rewrite H1, u64_bump. by repeat split.
  - intros ->. by destruct (Out p).
Qed.

Lemma Counted_CountOrientation b p : Counted b p (CountOrientation b p).
Proof.
  unfold Counted, SeenLe, InSync, CountOrientation, bump. cbn. split; [lia|].
  split.
  - intros -> (H1 & H2 & H3). rewrite H2, u64_bump. by repeat split.
  - intros ->. by destruct (Out p).
Qed.

Lemma Counted_CountBall b p : Counted b p (CountBall b p).
Proof.
  unfold Counted, SeenLe, InSync, CountBall, bump. cbn. split; [lia|].
  split.
  - intros -> (H1 & H2 & H3). rewrite H3, u64_bump. by repeat split.
  - intros ->. by destruct (Out p).
Qed.

Lemma Advances_CountOrientation b Q p : Advances b Q 0 p (CountOrientation b p).
Proof.
  split; [|apply Counted_CountOrientation].
  exists [], []. cbn. rewrite app_nil_r. repeat split; (done || lia).
Qed.

Lemma Advances_CountBall b Q p : Advances b Q 0 p (CountBall b p).
Proof.
  split; [|apply Counted_CountBall].
  exists [], []. cbn. rewrite app_nil_r. repeat split; (done || lia).
Qed.

Lemma Advances_PushState b (Q : search_state -> Prop) st p :
  Q st -> Advances b Q 1 p (PushState st p).
Proof.
  intros HQ. split; [|by apply Counted_same].
  exists [st], []. cbn. rewrite app_nil_r. repeat split; try done.
  - by apply Forall_singleton.
Qed.

Lemma Advances_PushSolution b (Q : search_state -> Prop) st p :
  Q st -> Advances b Q 0 p (PushSolution (Board st) p).
Proof.
  intros HQ. split; [|by apply Counted_same].
  exists [], [st]. cbn. repeat split; try done.
  - by apply Forall_singleton.
Qed.

Lemma for_each_Advances b Q (c : Z -> nat) (l : list Z)
    (body : Z -> progress -> result progress) p p' :
  (forall i s s', i ∈ l -> body i s = Ok s' -> Advances b Q (c i) s s') ->
  for_each l body p = Ok p' ->
  Advances b Q (sum_list (c <$> l)) p p'.
Proof.
  revert p. induction l as [|i l IH]; intros p Hbody.
  - rewrite for_each_nil. intros [= <-]. apply Advances_refl.
  - rewrite for_each_cons. intros (q & Hq & Hrest)%bind_Ok.
    rewrite fmap_cons. cbn [sum_list sum_list_with].
    eapply Advances_trans.
    + apply Hbody; [left | done].
    + apply IH; [|done]. intros j s s' Hj. apply Hbody. by right.
Qed.

Lemma sum_list_const_1 {A} (l : list A) : sum_list ((fun _ => 1%nat) <$> l) = length l.
Proof. induction l as [|x l IH]; [done|]. rewrite fmap_cons. cbn. by rewrite IH. Qed.

Lemma sum_list_const {A} (n : nat) (l : list A) :
  sum_list ((fun _ => n) <$> l) = (length l * n)%nat.
Proof. induction l as [|x l IH]; [done|]. rewrite fmap_cons. cbn. rewrite IH. lia. Qed.

Section SearchFacts.
Variable b : build.
Variable SearchPieces : solver.
Variable InputBoardEmptyCells : list cell_ref.
Variables NumRows NumCols : Z.

Lemma CanPlaceLoop_Advances Q Board Target Orientation OffR OffC idxs p ok p' :
  CanPlaceLoop b NumRows NumCols Board Target Orientation OffR OffC idxs p = Ok (ok, p') ->
  Advances b Q 0 p p'.
Proof.
  revert p. induction idxs as [|i idxs IH]; intros p; cbn [CanPlaceLoop].
  - intros [= <- <-]. apply Advances_refl.
  - intros (rc & Hrc & H)%bind_Ok. destruct rc as [r c].
    apply bind_Ok in H as (Fits & HF & H).
    destruct Fits.
    + apply (Advances_trans b Q 0 0 _ (CountBall b p)); [apply Advances_CountBall|].
      by apply IH.
    + injection H as <- <-. apply Advances_CountBall.
Qed.

Lemma TryBall_Advances st Target IsLastPiece PieceIdx Piece OrientationIdx
    Orientation PlacedBallIdx p p' :
  slot SearchPieces PieceIdx = Ok Piece ->
  OrientationIdx ∈ range 0 (NumOrientations Piece) ->
  slot (Orientations Piece) OrientationIdx = Ok Orientation ->
  PlacedBallIdx ∈ range 0 (NumBalls Piece) ->
  TryBall b NumRows NumCols st Target IsLastPiece PieceIdx Piece Orientation
    PlacedBallIdx p = Ok p' ->
  Advances b (IsPlacement b SearchPieces NumRows NumCols st Target PieceIdx) 1 p p'.
Proof.
  intros HP HOi HO HBi. unfold TryBall.
  intros (PlacedBall & HB & H)%bind_Ok. cbv zeta in H.
  apply bind_Ok in H as ([ok q] & Hcan & H).
  pose proof (CanPlaceLoop_Advances (IsPlacement b SearchPieces NumRows NumCols st Target PieceIdx)
                _ _ _ _ _ _ _ _ _ Hcan) as Hadv.
  assert (Hq : Advances b (IsPlacement b SearchPieces NumRows NumCols st Target PieceIdx) 0 p q).
  { apply (Advances_trans b _ 0 0 _ (CountOrientation b p));
      [apply Advances_CountOrientation | done]. }
  destruct ok.
  - apply bind_Ok in H as (New & Hplace & H).
    assert (HQ : IsPlacement b SearchPieces NumRows NumCols st Target PieceIdx New).
    { exists Piece, OrientationIdx, Orientation, PlacedBallIdx, PlacedBall,
        (CountOrientation b p), q. done. }
    destruct IsLastPiece; cbn [negb] in H; injection H as <-.
    + apply (Advances_trans b _ 0 1 _ q); [done|].
      eapply Advances_weaken; [| |by apply Advances_PushSolution]; [done | lia].
    + apply (Advances_trans b _ 0 1 _ q); [done|]. by apply Advances_PushState.
  - injection H as <-. eapply Advances_weaken; [| |exact Hq]; [done | lia].
Qed.

Lemma TryOrientation_Advances st Target IsLastPiece PieceIdx Piece OrientationIdx p p' :
  slot SearchPieces PieceIdx = Ok Piece ->
  OrientationIdx ∈ range 0 (NumOrientations Piece) ->
  TryOrientation b NumRows NumCols st Target IsLastPiece PieceIdx Piece
    OrientationIdx p = Ok p' ->
  Advances b (IsPlacement b SearchPieces NumRows NumCols st Target PieceIdx)
    (length (range 0 (NumBalls Piece))) p p'.
Proof.
  intros HP HOi. unfold TryOrientation.
  intros (Orientation & HO & H)%bind_Ok.
  rewrite <- sum_list_const_1.
  eapply for_each_Advances; [|exact H].
  intros i s s' Hi Hs. by eapply TryBall_Advances.
Qed.

Lemma TryPiece_Advances st Target IsLastPiece PieceIdx p p' :
  TryPiece b SearchPieces NumRows NumCols st Target IsLastPiece PieceIdx p = Ok p' ->
  Advances b (IsPlacement b SearchPieces NumRows NumCols st Target PieceIdx) (Capacity SearchPieces PieceIdx) p p'.
Proof.
  unfold TryPiece, Capacity. intros (Piece & HP & H)%bind_Ok. rewrite HP.
  rewrite <- sum_list_const.
  eapply for_each_Advances; [|exact H].
  intros i s s' Hi Hs. by eapply TryOrientation_Advances.
Qed.

(** What one iteration does: the state on top is popped and counted, and
    every state pushed or solution recorded is a placement of a remaining
    piece on the popped state. *)
Lemma Iteration_Advances st p p' :
  Iteration b SearchPieces InputBoardEmptyCells NumRows NumCols st p = Ok p' ->
  exists EmptyCellIdx Target,
    NextEmptyCell InputBoardEmptyCells st = Ok (EmptyCellIdx, Target) /\
    (NDEBUG b = true \/ EmptyCellIdx < InputBoardNumEmptyCells InputBoardEmptyCells) /\
    Advances b
      (fun child => exists PieceIdx,
         PieceIdx ∈ RemainingPieceIdxs (RemainingPieceBitFlags st) /\
         IsPlacement b SearchPieces NumRows NumCols st Target PieceIdx child)
      (sum_list (Capacity SearchPieces <$> RemainingPieceIdxs (RemainingPieceBitFlags st)))
      (PopState (CountState b p)) p'.
Proof.
  unfold Iteration. cbv zeta.
  intros ([EmptyCellIdx Target] & Hnext & H)%bind_Ok.
  exists EmptyCellIdx, Target. split; [done|].
  destruct (NDEBUG b) eqn:Hnd; cbn [negb andb] in H.
  - split; [by left|].
    eapply for_each_Advances; [|exact H].
    intros i s s' Hi Hs. eapply Advances_weaken; [| |by eapply TryPiece_Advances].
    + intros child Hc. by exists i.
    + done.
  - destruct (EmptyCellIdx <? InputBoardNumEmptyCells InputBoardEmptyCells) eqn:Hlt;
      cbn [negb] in H; [|discriminate].
    split; [right; lia|].
    eapply for_each_Advances; [|exact H].
    intros i s s' Hi Hs. eapply Advances_weaken; [| |by eapply TryPiece_Advances].
    + intros child Hc. by exists i.
    + done.
Qed.

End SearchFacts.

(** ** The remaining-piece flags *)

Lemma flag_test F j :
  0 <= j -> negb (Z.land (Z.shiftr F j) 1 =? 0) = Z.testbit F j.
Proof.
  intros Hj. change 1 with (Z.ones 1) at 1. rewrite Z.land_ones by lia.
  change (2 ^ 1) with 2. rewrite Zmod_odd, <- Z.bit0_odd, Z.shiftr_spec by lia.
  rewrite Z.add_0_l. by destruct (Z.testbit F j).
Qed.

Lemma ClearFlag_testbit F i j :
  0 <= i -> 0 <= j < NUM_PIECES ->
  Z.testbit (ClearFlag F i) j = Z.testbit F j && negb (j =? i).
Proof.
  unfold NUM_PIECES. intros Hi Hj. unfold ClearFlag, bitfield, u32, NUM_PIECES.
  rewrite Z.mod_pow2_bits_low by lia. rewrite Z.land_spec.
  rewrite Z.mod_pow2_bits_low by lia. rewrite Z.lnot_spec by lia.
  rewrite Z.shiftl_1_l, Z.pow2_bits_eqb by lia.
  by rewrite (Z.eqb_sym i j).
Qed.

Lemma RemainingPieceIdxs_spec F j :
  j ∈ RemainingPieceIdxs F <-> 0 <= j < NUM_PIECES /\ Z.testbit F j = true.
Proof.
  unfold RemainingPieceIdxs, range. rewrite list_elem_of_filter, elem_of_seqZ.
  split.
  - intros [Ht Hj]. split; [lia|]. rewrite flag_test in Ht by lia.
    by apply Is_true_true.
  - intros [Hj Ht]. split; [|lia]. rewrite flag_test by lia. by apply Is_true_true.
Qed.

Lemma RemainingPieceIdxs_NoDup F : NoDup (RemainingPieceIdxs F).
Proof. unfold RemainingPieceIdxs, range. apply NoDup_filter, NoDup_seqZ. Qed.

Lemma filter_ext_in {A} (P1 P2 : A -> Prop)
    `{!forall x, Decision (P1 x)} `{!forall x, Decision (P2 x)} (l : list A) :
  (forall x, x ∈ l -> P1 x <-> P2 x) -> filter P1 l = filter P2 l.
Proof.
  induction l as [|x l IH]; intros Hext; [done|].
  rewrite !filter_cons.
  assert (Hx : P1 x <-> P2 x) by (apply Hext; left).
  rewrite IH by (intros y Hy; apply Hext; by right).
  destruct (decide (P1 x)), (decide (P2 x)); tauto.
Qed.

Lemma filter_all {A} (P : A -> Prop) `{!forall x, Decision (P x)} (l : list A) :
  (forall x, x ∈ l -> P x) -> filter P l = l.
Proof.
  induction l as [|x l IH]; intros Hall; [done|].
  rewrite filter_cons, decide_True by (apply Hall; left).
  f_equal. apply IH. intros y Hy. apply Hall. by right.
Qed.

Lemma RemainingPieceIdxs_ClearFlag F i :
  0 <= i ->
  RemainingPieceIdxs (ClearFlag F i) = filter (fun j => j <> i) (RemainingPieceIdxs F).
Proof.
  intros Hi. unfold RemainingPieceIdxs. rewrite list_filter_filter.
  apply filter_ext_in. intros j Hj.
  unfold range in Hj. apply elem_of_seqZ in Hj. unfold NUM_PIECES in Hj.
  rewrite !flag_test by lia. rewrite ClearFlag_testbit by (unfold NUM_PIECES; lia).
  destruct (Z.testbit F j), (Z.eqb_spec j i); cbn; intuition (done || lia).
Qed.

Lemma length_filter_remove (l : list Z) i :
  NoDup l -> i ∈ l -> (length (filter (fun j => j <> i) l) + 1 = length l)%nat.
Proof.
  induction l as [|x l IH]; intros Hnd Hin; [by apply elem_of_nil in Hin|].
  apply NoDup_cons in Hnd as [Hx Hnd]. rewrite filter_cons.
  apply elem_of_cons in Hin as [-> | Hin].
  - rewrite decide_False by (intros H; by apply H).
    rewrite filter_all; [cbn [length]; lia|].
    intros j Hj ->. done.
  - rewrite decide_True by (intros ->; done). cbn [length].
    specialize (IH Hnd Hin). lia.
Qed.

Lemma length_RemainingPieceIdxs_ClearFlag F i :
  i ∈ RemainingPieceIdxs F ->
  (length (RemainingPieceIdxs (ClearFlag F i)) + 1 = length (RemainingPieceIdxs F))%nat.
Proof.
  intros Hi. pose proof (proj1 (RemainingPieceIdxs_spec F i) Hi) as [Hr _].
  rewrite RemainingPieceIdxs_ClearFlag by lia.
  apply length_filter_remove; [apply RemainingPieceIdxs_NoDup | done].
Qed.


Lemma Place_fields st Target PieceIdx Piece Orientation OffR OffC child :
  Place st Target PieceIdx Piece Orientation OffR OffC = Ok child ->
  RemainingPieceBitFlags child = ClearFlag (RemainingPieceBitFlags st) PieceIdx /\
  EmptyCellIdx child = u8 (EmptyCellIdx st + 1).
Proof.
  unfold Place. cbv zeta. intros (NewBoard & _ & [= <-])%bind_Ok. done.
Qed.










Lemma Setup_spec b InputBoard NumRows NumCols Out0 ec p0 :
  Setup b InputBoard NumRows NumCols Out0 = Ok (ec, p0) ->
  exists Flags,
    EmptyCellsOf InputBoard = Ok ec /\
    InitialFlags InputBoard NumRows NumCols = Ok Flags /\
    p0 = {| SearchStates := [{| Board := InputBoard; RemainingPieceBitFlags := Flags;
                                EmptyCellIdx := 0 |}];
            OutSolutions := [];
            Out := ResetCounters b Out0;
            Seen := NoTally |}.
Proof.
  unfold Setup. intros (ec' & Hec & H)%bind_Ok.
  apply bind_Ok in H as (Flags & HF & H). cbv zeta in H. injection H as <- <-.
  by exists Flags.
Qed.


(** ** The scan for the next empty cell *)

Lemma FindEmptyCell_exhausted ec Board n start idx :
  FindEmptyCell ec Board n start = Ok (idx, None) -> idx = start + Z.of_nat n.
Proof.
  revert start. induction n as [|n IH]; intros start; cbn [FindEmptyCell].
  - intros [= <-]. lia.
  - intros (Cell & _ & H)%bind_Ok. apply bind_Ok in H as (v & _ & H).
    destruct (v =? Empty); [discriminate|]. apply IH in H. lia.
Qed.

Lemma FindEmptyCell_found ec Board n start idx rc :
  FindEmptyCell ec Board n start = Ok (idx, Some rc) ->
  start <= idx < start + Z.of_nat n /\
  exists Cell, slot ec idx = Ok Cell /\ rc = (RowIdx Cell, ColIdx Cell) /\
               Cells Board (RowIdx Cell) (ColIdx Cell) = Ok Empty.
Proof.
  revert start. induction n as [|n IH]; intros start; cbn [FindEmptyCell].
  - discriminate.
  - intros (Cell & HC & H)%bind_Ok. apply bind_Ok in H as (v & Hv & H).
    destruct (Z.eqb_spec v Empty) as [-> | Hne].
    + injection H as <- <-. split; [lia|]. by exists Cell.
    + apply IH in H as [Hr HCell]. split; [lia | done].
Qed.

Lemma NextEmptyCell_exhausted ec st idx :
  NextEmptyCell ec st = Ok (idx, None) -> InputBoardNumEmptyCells ec <= idx.
Proof. unfold NextEmptyCell. intros ->%FindEmptyCell_exhausted. lia. Qed.

Lemma NextEmptyCell_found ec st idx rc :
  NextEmptyCell ec st = Ok (idx, Some rc) ->
  EmptyCellIdx st <= idx < InputBoardNumEmptyCells ec /\
  exists Cell, slot ec idx = Ok Cell /\ rc = (RowIdx Cell, ColIdx Cell) /\
               Cells (Board st) (RowIdx Cell) (ColIdx Cell) = Ok Empty.
Proof.
  unfold NextEmptyCell. intros [Hr HC]%FindEmptyCell_found. split; [lia | done].
Qed.

(** ** The assertion after the scan *)

Lemma Iteration_exhausted b sp ec nr nc st p idx :
  NextEmptyCell ec st = Ok (idx, None) ->
  Iteration b sp ec nr nc st p =
  if FAST b then
    for_each (RemainingPieceIdxs (RemainingPieceBitFlags st))
      (TryPiece b sp nr nc st None
         (Z.of_nat (length (RemainingPieceIdxs (RemainingPieceBitFlags st))) =? 1))
      (PopState (CountState b p))
  else AssertFailed.
Proof.
  intros Hnext. pose proof (NextEmptyCell_exhausted _ _ _ Hnext) as Hge.
  unfold Iteration. cbv zeta. rewrite Hnext. cbn [bind]. unfold NDEBUG.
  destruct (FAST b); cbn [negb andb]; [done|].
  destruct (Z.ltb_spec idx (InputBoardNumEmptyCells ec)); [lia | done].
Qed.

(** C4, as the code has it.  When the scan of a popped state reaches the
    end of the empty-cell list, a build with assertions (FAST = 0) stops at
    the assertion, whatever pieces remain; the shipped build (FAST = 1)
    compiles the assertion out and goes on into the placement loop with
    [RowIdx] and [ColIdx] never assigned. *)
Theorem exhausted_scan_meets_assertion
    (b : build) (SearchPieces : solver) (InputBoardEmptyCells : list cell_ref)
    (NumRows NumCols : Z) (st : search_state) (p : progress) (EmptyCellIdx : Z) :
  NextEmptyCell InputBoardEmptyCells st = Ok (EmptyCellIdx, None) ->
  (FAST b = false ->
   Iteration b SearchPieces InputBoardEmptyCells NumRows NumCols st p = AssertFailed) /\
  (FAST b = true ->
   Iteration b SearchPieces InputBoardEmptyCells NumRows NumCols st p =
   for_each (RemainingPieceIdxs (RemainingPieceBitFlags st))
     (TryPiece b SearchPieces NumRows NumCols st None
        (Z.of_nat (length (RemainingPieceIdxs (RemainingPieceBitFlags st))) =? 1))
     (PopState (CountState b p))).
Proof.
  intros Hnext. rewrite (Iteration_exhausted _ _ _ _ _ _ _ _ Hnext).
  split; by intros ->.
Qed.

Lemma exhausted_scan_meets_assertion_witness :
  Iteration checked unit_solver [] 2 6 full_state (start_of full_state) = AssertFailed.
Proof.
  exact (proj1 (exhausted_scan_meets_assertion checked unit_solver [] 2 6
                  full_state (start_of full_state) 0 eq_refl) eq_refl).
Defined.

(** In the shipped build the same state, the first one [Solve] pops for
    [full_board], runs into the placement loop. *)
Lemma exhausted_scan_not_caught :
  Setup shipped full_board 2 6 zero_counters = Ok ([], start_of full_state) /\
  NextEmptyCell [] full_state = Ok (0, None) /\
  RemainingPieceIdxs (RemainingPieceBitFlags full_state) = [0; 1; 2] /\
  Iteration shipped unit_solver [] 2 6 full_state (start_of full_state)
    = Undefined UninitTarget /\
  Iteration shipped unit_solver [] 2 6 full_state (start_of full_state)
    <> AssertFailed.
Proof. repeat split; [vm_compute; reflexivity..|discriminate]. Qed.

Lemma EmptyCellsOf_none InputBoard : NoEmptyCell InputBoard -> EmptyCellsOf InputBoard = Ok [].
Proof.
  intros Hnone. unfold EmptyCellsOf.
  apply (for2_invariant (fun acc => acc = Ok [])); [done|].
  intros i j acc Hi Hj ->. cbn [bind].
  unfold range in Hi, Hj. apply elem_of_seqZ in Hi, Hj.
  destruct (Z.eqb_spec (rd2 Invalid InputBoard i j) Empty) as [He|]; [|done].
  exfalso. apply (Hnone i j); [lia | lia | done].
Qed.

Lemma for_each_unchanged {S} (l : list Z) (body : Z -> S -> result S) (s s' : S) :
  (forall i t t', i ∈ l -> body i t = Ok t' -> t' = t) ->
  for_each l body s = Ok s' -> s' = s.
Proof.
  revert s. induction l as [|i l IH]; intros s Hbody.
  - rewrite for_each_nil. by intros [= <-].
  - rewrite for_each_cons. intros (t & Ht & Hrest)%bind_Ok.
    apply Hbody in Ht as ->; [|left]. apply IH; [|done].
    intros j u u' Hj. apply Hbody. by right.
Qed.

(** Without a target cell no placement attempt comes back. *)
Lemma TryBall_no_target b nr nc st IsLastPiece PieceIdx Piece Orientation i p p' :
  i ∈ range 0 (NumBalls Piece) ->
  TryBall b nr nc st None IsLastPiece PieceIdx Piece Orientation i p = Ok p' -> False.
Proof.
  intros Hi. unfold TryBall. intros (PlacedBall & _ & H)%bind_Ok. cbv zeta in H.
  apply bind_Ok in H as (tested & Hcan & _).
  unfold range in Hi, Hcan. apply elem_of_seqZ in Hi.
  rewrite seqZ_cons in Hcan by lia. cbn [CanPlaceLoop] in Hcan.
  unfold BallCell, ReadTarget in Hcan. cbn [bind] in Hcan. discriminate.
Qed.

Lemma TryPiece_no_target b sp nr nc st IsLastPiece PieceIdx p p' :
  TryPiece b sp nr nc st None IsLastPiece PieceIdx p = Ok p' -> p' = p.
Proof.
  unfold TryPiece. intros (Piece & _ & H)%bind_Ok.
  apply for_each_unchanged in H; [done|].
  intros oi t t' _. unfold TryOrientation. intros (Orientation & _ & Ht)%bind_Ok.
  apply for_each_unchanged in Ht; [done|].
  intros i u u' Hi Hu. exfalso. by eapply TryBall_no_target.
Qed.

Lemma Loop_done b sp ec nr nc fuel p :
  SearchStates p = [] -> Loop b sp ec nr nc fuel p = Some (Ok p).
Proof. intros H. destruct fuel; cbn [Loop]; by rewrite H. Qed.

(** C2, as the code has it.  On a board without an empty cell [Solve]
    never returns the input board: the first state popped has no target cell,
    so a build with assertions stops at the assertion, and the shipped build
    can only return with no solution at all. *)
Theorem no_empty_cell_no_solution
    (b : build) (SearchPieces : solver) (fuel : nat) (InputBoard : board)
    (NumRows NumCols : Z) (Out0 : counters) :
  NoEmptyCell InputBoard ->
  (1 <= fuel)%nat ->
  exists r,
    Solve b SearchPieces fuel InputBoard NumRows NumCols Out0 = Some r /\
    (forall p, r = Ok p -> FAST b = true /\ OutSolutions p = []) /\
    (FAST b = false ->
     (exists Flags, InitialFlags InputBoard NumRows NumCols = Ok Flags) ->
     r = AssertFailed).
Proof.
  intros Hnone Hfuel. destruct fuel as [|fuel]; [lia|].
  unfold Solve, Setup. rewrite (EmptyCellsOf_none _ Hnone). cbn [bind].
  destruct (InitialFlags InputBoard NumRows NumCols) as [Flags| |] eqn:HF; cbn [bind].
  - cbv zeta. cbn [Loop SearchStates].
    erewrite Iteration_exhausted by reflexivity.
    destruct (FAST b) eqn:Hfast.
    + match goal with
      | |- context [for_each ?l ?f ?q] => destruct (for_each l f q) as [p'| |] eqn:Hrun
      end.
      * apply for_each_unchanged in Hrun;
          [|intros i t t' _ Ht; by eapply TryPiece_no_target].
        subst p'. rewrite Loop_done by reflexivity.
        eexists. split; [reflexivity|]. split; [|discriminate].
        intros p [= <-]. done.
      * eexists. split; [reflexivity|]. split; [discriminate | discriminate].
      * eexists. split; [reflexivity|]. split; [discriminate | discriminate].
    + eexists. split; [reflexivity|]. split; [discriminate | done].
  - eexists. split; [reflexivity|]. split; [discriminate|].
    intros _ [Flags [=]].
  - eexists. split; [reflexivity|]. split; [discriminate|].
    intros _ [Flags [=]].
Qed.

Lemma NoEmptyCell_check InputBoard :
  no_empty_cellb InputBoard = true -> NoEmptyCell InputBoard.
Proof.
  unfold no_empty_cellb. rewrite forallb_forall. intros H r c Hr Hc.
  specialize (H r). rewrite forallb_forall in H.
  assert (Hr' : In r (range 0 MAX_BOARD_SIZE))
    by (apply list_elem_of_In, elem_of_seqZ; lia).
  assert (Hc' : In c (range 0 MAX_BOARD_SIZE))
    by (apply list_elem_of_In, elem_of_seqZ; lia).
  specialize (H Hr' c Hc'). intros He. rewrite He in H. discriminate.
Qed.

Lemma no_empty_cell_no_solution_witness :
  exists r,
    Solve checked unit_solver 1 full_board 2 6 zero_counters = Some r /\
    (forall p, r = Ok p -> FAST checked = true /\ OutSolutions p = []) /\
    (FAST checked = false ->
     (exists Flags, InitialFlags full_board 2 6 = Ok Flags) ->
     r = AssertFailed).
Proof.
  apply (no_empty_cell_no_solution checked unit_solver 1 full_board 2 6 zero_counters).
  - apply NoEmptyCell_check. vm_compute. reflexivity.
  - lia.
Defined.

(** The claim as stated fails on [full_board], where every piece is placed:
    the shipped build does not return it, and neither does a build with
    assertions. *)
Lemma full_board_not_returned :
  NoEmptyCell full_board /\
  Solve shipped unit_solver 100 full_board 2 6 zero_counters
    = Some (Undefined UninitTarget) /\
  Solve checked unit_solver 100 full_board 2 6 zero_counters = Some AssertFailed /\
  ~ (exists b p,
       Solve b unit_solver 100 full_board 2 6 zero_counters = Some (Ok p) /\
       OutSolutions p = [full_board]).
Proof.
  split; [apply NoEmptyCell_check; vm_compute; reflexivity|].
  split; [vm_compute; reflexivity|]. split; [vm_compute; reflexivity|].
  intros ([[]] & p & H & _); vm_compute in H; discriminate.
Qed.

Section CounterFacts.
Variable b : build.
Variable SearchPieces : solver.
Variable InputBoardEmptyCells : list cell_ref.
Variables NumRows NumCols : Z.

Local Abbreviation steps := (Steps b SearchPieces InputBoardEmptyCells NumRows NumCols).

Local Abbreviation loop := (Loop b SearchPieces InputBoardEmptyCells NumRows NumCols).

Local Abbreviation iteration :=
  (Iteration b SearchPieces InputBoardEmptyCells NumRows NumCols).

Lemma Iteration_Counted st p p' : iteration st p = Ok p' -> Counted b p p'.
Proof.
  intros (idx & Target & _ & _ & [_ HC])%Iteration_Advances.
  eapply Counted_trans; [|exact HC].
  eapply Counted_trans; [apply Counted_CountState|]. by apply Counted_same.
Qed.

Lemma Steps_done n p : SearchStates p = [] -> steps n p = Ok p.
Proof. intros H. destruct n; cbn [Steps]; by rewrite ?H. Qed.

Lemma Steps_Counted n p q : steps n p = Ok q -> Counted b p q.
Proof.
  revert p. induction n as [|n IH]; intros p; cbn [Steps].
  - intros [= <-]. apply Counted_refl.
  - destruct (SearchStates p) as [|st rest].
    + intros [= <-]. apply Counted_refl.
    + intros (p' & Hit & Hrest)%bind_Ok.
      eapply Counted_trans; [by eapply Iteration_Counted | by apply IH].
Qed.

Lemma Steps_add n m p : steps (n + m) p = bind (steps n p) (steps m).
Proof.
  revert p. induction n as [|n IH]; intros p; [done|].
  cbn [Nat.add Steps]. destruct (SearchStates p) as [|st rest] eqn:Hp.
  - cbn [bind]. by rewrite Steps_done.
  - destruct (iteration st p); cbn [bind]; [apply IH | done..].
Qed.

Lemma Steps_later n m p q q' :
  (n <= m)%nat -> steps n p = Ok q -> steps m p = Ok q' -> Counted b q q'.
Proof.
  intros Hnm Hq Hq'. replace m with (n + (m - n))%nat in Hq' by lia.
  rewrite Steps_add, Hq in Hq'. cbn [bind] in Hq'. by eapply Steps_Counted.
Qed.

Lemma Loop_Steps fuel p q : loop fuel p = Some (Ok q) -> steps fuel p = Ok q.
Proof.
  revert p. induction fuel as [|fuel IH]; intros p; cbn [Loop Steps].
  - destruct (SearchStates p); [|discriminate]. by intros [= <-].
  - destruct (SearchStates p) as [|st rest]; [by intros [= <-]|].
    destruct (iteration st p) as [p'| |]; cbn [bind]; [apply IH | discriminate..].
Qed.

End CounterFacts.

(** ** The tally follows the events *)

Lemma Adds_refl p : Adds p p 0 0 0.
Proof. unfold Adds. cbn. lia. Qed.

Lemma Adds_trans p1 p2 p3 a b c a' b' c' :
  Adds p1 p2 a b c -> Adds p2 p3 a' b' c' -> Adds p1 p3 (a + a') (b + b') (c + c').
Proof. unfold Adds. lia. Qed.

Lemma Adds_same p p' q a b c : Seen p' = Seen p -> Adds p' q a b c -> Adds p q a b c.
Proof. unfold Adds. by intros ->. Qed.

Lemma for_each_Adds {E F} (ga : Z -> list E) (gc : Z -> list F)
    (l : list Z) (body : Z -> progress -> result progress) (p p' : progress) :
  (forall i t t', body i t = Ok t' -> Adds t t' 0 (length (ga i)) (length (gc i))) ->
  for_each l body p = Ok p' ->
  Adds p p' 0 (length (l ≫= ga)) (length (l ≫= gc)).
Proof.
  intros Hbody. revert p. induction l as [|i l IH]; intros p.
  - rewrite for_each_nil. intros [= <-]. apply Adds_refl.
  - rewrite for_each_cons. intros (t & Ht & Hrest)%bind_Ok.
    rewrite !bind_cons, !length_app.
    exact (Adds_trans _ _ _ 0 _ _ 0 _ _ (Hbody _ _ _ Ht) (IH _ Hrest)).
Qed.

Section EventFacts.
Variable b : build.
Variable SearchPieces : solver.
Variable InputBoardEmptyCells : list cell_ref.
Variables NumRows NumCols : Z.

Lemma CanPlaceLoop_Adds B Target O OffR OffC idxs p ok p' :
  CanPlaceLoop b NumRows NumCols B Target O OffR OffC idxs p = Ok (ok, p') ->
  Adds p p' 0 0
    (length (TestedUntilFail (BallFits NumRows NumCols B Target O OffR OffC) idxs)).
Proof.
  revert p. induction idxs as [|i idxs IH]; intros p; cbn [CanPlaceLoop TestedUntilFail].
  - intros [= <- <-]. apply Adds_refl.
  - intros ([r c] & Hrc & H)%bind_Ok. apply bind_Ok in H as (Fits & HF & H).
    assert (Hfits : BallFits NumRows NumCols B Target O OffR OffC i = Fits).
    { unfold BallFits. rewrite Hrc.
      destruct ((0 <=? r) && (r <? NumRows) && (0 <=? c) && (c <? NumCols)).
      - apply bind_Ok in HF as (v & -> & [= <-]). done.
      - by injection HF as <-. }
    rewrite Hfits.
    assert (H1 : Adds p (CountBall b p) 0 0 1) by (unfold Adds; cbn; lia).
    destruct Fits.
    + cbn [length]. exact (Adds_trans _ _ _ 0 0 1 0 0 _ H1 (IH _ H)).
    + injection H as <- <-. exact H1.
Qed.

Lemma TryBall_Adds st Target last PieceIdx Piece O bi p p' :
  TryBall b NumRows NumCols st Target last PieceIdx Piece O bi p = Ok p' ->
  Adds p p' 0 1 (length (ChecksOfAttempt NumRows NumCols st Target Piece O bi)).
Proof.
  unfold TryBall, ChecksOfAttempt. intros (PB & -> & H)%bind_Ok. cbv zeta in H.
  apply bind_Ok in H as ([ok q] & Hcan%CanPlaceLoop_Adds & H).
  assert (H1 : Adds p (CountOrientation b p) 0 1 0) by (unfold Adds; cbn; lia).
  pose proof (Adds_trans _ _ _ _ _ _ _ _ _ H1 Hcan) as H2. cbn [Nat.add] in H2.
  destruct ok; [|by injection H as <-].
  apply bind_Ok in H as (New & _ & H).
  destruct last; cbn [negb] in H; injection H as <-; exact H2.
Qed.

Lemma TryOrientation_Adds st Target last PieceIdx Piece oi p p' :
  TryOrientation b NumRows NumCols st Target last PieceIdx Piece oi p = Ok p' ->
  Adds p p' 0
    (length ((fun bi => (PieceIdx, oi, bi)) <$> range 0 (NumBalls Piece)))
    (length (ChecksOfOrientation NumRows NumCols st Target PieceIdx Piece oi)).
Proof.
  unfold TryOrientation, ChecksOfOrientation. intros (O & -> & H)%bind_Ok.
  apply (for_each_Adds
           (fun bi => [(PieceIdx, oi, bi)])
           (fun bi => (fun i => (PieceIdx, oi, bi, i))
                        <$> ChecksOfAttempt NumRows NumCols st Target Piece O bi)) in H.
  - replace (length ((fun bi => (PieceIdx, oi, bi)) <$> range 0 (NumBalls Piece)))
      with (length (range 0 (NumBalls Piece) ≫= (fun bi => [(PieceIdx, oi, bi)]))); [done|].
    rewrite length_fmap. generalize (range 0 (NumBalls Piece)).
    induction l as [|x l IH]; [done|]. rewrite bind_cons, length_app, IH. done.
  - intros bi t t' Ht. rewrite length_fmap. cbn [length]. by eapply TryBall_Adds.
Qed.

Lemma TryPiece_Adds st Target last PieceIdx p p' :
  TryPiece b SearchPieces NumRows NumCols st Target last PieceIdx p = Ok p' ->
  Adds p p' 0
    (length (AttemptsOfPiece SearchPieces PieceIdx))
    (length (ChecksOfPiece SearchPieces NumRows NumCols st Target PieceIdx)).
Proof.
  unfold TryPiece, AttemptsOfPiece, ChecksOfPiece. intros (Piece & -> & H)%bind_Ok.
  apply (for_each_Adds
           (fun oi => (fun bi => (PieceIdx, oi, bi)) <$> range 0 (NumBalls Piece))
           (ChecksOfOrientation NumRows NumCols st Target PieceIdx Piece)) in H; [done|].
  intros oi t t' Ht. by eapply TryOrientation_Adds.
Qed.

Lemma Iteration_Adds st p p' :
  Iteration b SearchPieces InputBoardEmptyCells NumRows NumCols st p = Ok p' ->
  Adds p p' 1
    (length (AttemptsOf SearchPieces st))
    (length (ChecksOf SearchPieces InputBoardEmptyCells NumRows NumCols st)).
Proof.
  unfold Iteration, AttemptsOf, ChecksOf, TargetOf. cbv zeta.
  intros ([idx Target] & -> & H)%bind_Ok.
  destruct (negb (NDEBUG b) && negb (idx <? InputBoardNumEmptyCells InputBoardEmptyCells));
    [discriminate|].
  apply (for_each_Adds
           (AttemptsOfPiece SearchPieces)
           (ChecksOfPiece SearchPieces NumRows NumCols st Target)) in H.
  - assert (H1 : Adds p (PopState (CountState b p)) 1 0 0) by (unfold Adds; cbn; lia).
    exact (Adds_trans _ _ _ 1 0 0 0 _ _ H1 H).
  - intros i t t' Ht. by eapply TryPiece_Adds.
Qed.

Lemma Steps_Adds n : forall p q,
  Steps b SearchPieces InputBoardEmptyCells NumRows NumCols n p = Ok q ->
  Adds p q
    (length (PoppedStates b SearchPieces InputBoardEmptyCells NumRows NumCols n p))
    (length (PoppedStates b SearchPieces InputBoardEmptyCells NumRows NumCols n p
               ≫= AttemptsOf SearchPieces))
    (length (PoppedStates b SearchPieces InputBoardEmptyCells NumRows NumCols n p
               ≫= ChecksOf SearchPieces InputBoardEmptyCells NumRows NumCols)).
Proof.
  induction n as [|n IH]; intros p q; cbn [Steps PoppedStates].
  - intros [= <-]. apply Adds_refl.
  - destruct (SearchStates p) as [|st rest].
    + intros [= <-]. apply Adds_refl.
    + intros (p' & Hit & Hrest)%bind_Ok. rewrite Hit.
      rewrite !bind_cons, !length_app. cbn [length].
      exact (Adds_trans _ _ _ 1 _ _ _ _ _ (Iteration_Adds _ _ _ Hit) (IH _ _ Hrest)).
Qed.

Lemma Steps_Events n p q :
  Seen p = NoTally ->
  Steps b SearchPieces InputBoardEmptyCells NumRows NumCols n p = Ok q ->
  Seen q = EventsOf SearchPieces InputBoardEmptyCells NumRows NumCols
             (PoppedStates b SearchPieces InputBoardEmptyCells NumRows NumCols n p).
Proof.
  intros H0 (H1 & H2 & H3)%Steps_Adds. rewrite H0 in H1, H2, H3. cbn in H1, H2, H3.
  unfold EventsOf. destruct (Seen q) as [x y z]. cbn in H1, H2, H3. by subst.
Qed.

End EventFacts.

(** C3, as the code has it.  The tally of a run is the number of its
    events, as the loops make them: the states popped, the (piece,
    orientation, placed ball) attempts of the three nested loops for those
    states, and the balls tested by the validity loop for those attempts.
    In a build with statistics (FAST = 0) the three out-parameters are reset
    and then agree with that tally, after every iteration and at the return,
    as 64-bit values; these counts never decrease.  In the shipped build
    (FAST = 1) [Solve] leaves the three out-parameters as the caller passed
    them. *)
Theorem counters_follow_events
    (b : build) (SearchPieces : solver) (fuel : nat) (InputBoard : board)
    (NumRows NumCols : Z) (Out0 : counters) (p : progress) :
  Solve b SearchPieces fuel InputBoard NumRows NumCols Out0 = Some (Ok p) ->
  Seen p = EventsDuring b SearchPieces InputBoard NumRows NumCols Out0 fuel /\
  (forall n q,
     During b SearchPieces InputBoard NumRows NumCols Out0 n = Ok q ->
     Seen q = EventsDuring b SearchPieces InputBoard NumRows NumCols Out0 n) /\
  (WITH_STATS b = true ->
   InSync p /\
   forall n m q q',
     (n <= m)%nat ->
     During b SearchPieces InputBoard NumRows NumCols Out0 n = Ok q ->
     During b SearchPieces InputBoard NumRows NumCols Out0 m = Ok q' ->
     InSync q /\ InSync q' /\ SeenLe q q') /\
  (WITH_STATS b = false ->
   Out p = Out0 /\
   forall n q,
     During b SearchPieces InputBoard NumRows NumCols Out0 n = Ok q -> Out q = Out0).
Proof.
  unfold Solve, During, EventsDuring.
  destruct (Setup b InputBoard NumRows NumCols Out0) as [[ec p0]| |] eqn:HS;
    [|discriminate..].
  destruct (Setup_spec _ _ _ _ _ _ _ HS) as (Flags & _ & _ & Hp0).
  cbn [bind fst snd]. intros Hloop%Loop_Steps.
  assert (Hseen : Seen p0 = NoTally) by (by rewrite Hp0).
  split; [by apply Steps_Events|].
  split; [intros n q Hq; by apply Steps_Events|].
  split; intros Hb.
  - assert (H0 : InSync p0).
    { rewrite Hp0. unfold InSync, ResetCounters. rewrite Hb. by cbn. }
    split.
    + by apply (Steps_Counted _ _ _ _ _ _ _ _ Hloop).
    + intros n m q q' Hnm Hq Hq'.
      pose proof (Steps_Counted _ _ _ _ _ _ _ _ Hq) as (_ & Hsync & _).
      pose proof (Steps_Counted _ _ _ _ _ _ _ _ Hq') as (_ & Hsync' & _).
      pose proof (Steps_later _ _ _ _ _ _ _ _ _ _ Hnm Hq Hq') as (Hle & _ & _).
      auto.
  - assert (H0 : Out p0 = Out0).
    { rewrite Hp0. unfold ResetCounters. by rewrite Hb. }
    split.
    + pose proof (Steps_Counted _ _ _ _ _ _ _ _ Hloop) as (_ & _ & Hout).
      by rewrite Hout.
    + intros n q Hq.
      pose proof (Steps_Counted _ _ _ _ _ _ _ _ Hq) as (_ & _ & Hout).
      by rewrite Hout.
Qed.

Lemma lone_cell_events :
  EventsDuring checked sample_solver lone_cell 1 1 marked 10
  = {| Popped := 1; Attempted := 273; Checked := 329 |}.
Proof. vm_compute. reflexivity. Qed.

Lemma counters_follow_events_witness :
  Out lone_cell_result =
    {| OutNumBoardStatesTested := 1; OutNumOrientationsTested := 273;
       OutNumBallsTested := 329 |} /\
  InSync lone_cell_result /\
  Seen lone_cell_result = EventsDuring checked sample_solver lone_cell 1 1 marked 10 /\
  EventsDuring checked sample_solver lone_cell 1 1 marked 10
  = {| Popped := 1; Attempted := 273; Checked := 329 |}.
Proof.
  pose proof (counters_follow_events checked sample_solver 10 lone_cell 1 1
                marked lone_cell_result eq_refl) as (Hseen & _ & Hstats & _).
  split; [reflexivity|]. split; [exact (proj1 (Hstats eq_refl))|].
  split; [exact Hseen | exact lone_cell_events].
Defined.

(** The claim as stated fails in the shipped build: one state is popped and
    the out-parameters still hold what the caller left in them. *)
Lemma counters_not_written_when_FAST :
  exists p,
    Solve shipped sample_solver 10 lone_cell 1 1 marked = Some (Ok p) /\
    PoppedDuring shipped sample_solver lone_cell 1 1 marked 10
    = [{| Board := lone_cell; RemainingPieceBitFlags := 4095; EmptyCellIdx := 0 |}] /\
    Popped (Seen p) = 1 /\
    OutNumBoardStatesTested (Out p) = 7 /\
    OutNumBoardStatesTested (Out p) <> Popped (Seen p) /\
    Out p = marked.
Proof.
  eexists. split; [vm_compute; reflexivity|]. split; [vm_compute; reflexivity|].
  cbn. repeat split; (done || lia).
Qed.

Lemma wf_board_wr2 B r c v : wf_board B -> wf_board (wr2 B r c v).
Proof.
  intros [Hlen Hrows]. split; unfold wr2.
  - by rewrite length_alter.
  - apply Forall_alter; [done|]. intros row _ Hrow. by rewrite length_insert.
Qed.

Lemma rd2_wr2_eq B r c v :
  wf_board B -> 0 <= r < MAX_BOARD_SIZE -> 0 <= c < MAX_BOARD_SIZE ->
  rd2 Invalid (wr2 B r c v) r c = v.
Proof.
  unfold MAX_BOARD_SIZE. intros [Hlen Hrows] Hr Hc. unfold rd2, wr2.
  rewrite list_lookup_alter_eq.
  destruct (lookup_lt_is_Some_2 B (Z.to_nat r)) as [row Hrow]; [lia|].
  rewrite Hrow. cbn [fmap option_fmap option_map].
  rewrite Forall_forall in Hrows.
  assert (length row = 16%nat) by (apply Hrows; by eapply list_elem_of_lookup_2).
  by rewrite list_lookup_insert_eq by lia.
Qed.

Lemma rd2_wr2_ne B r c v r' c' :
  0 <= r -> 0 <= c -> 0 <= r' -> 0 <= c' -> (r, c) <> (r', c') ->
  rd2 Invalid (wr2 B r c v) r' c' = rd2 Invalid B r' c'.
Proof.
  intros Hr Hc Hr' Hc' Hne. unfold rd2, wr2.
  destruct (decide (Z.to_nat r = Z.to_nat r')) as [Heq | Hrow].
  - assert (r = r') as -> by lia. rewrite list_lookup_alter_eq.
    destruct (B !! Z.to_nat r') as [row|]; cbn [fmap option_fmap option_map]; [|done].
    rewrite list_lookup_insert_ne; [done|]. intros Hcc.
    apply Hne. f_equal. lia.
  - by rewrite list_lookup_alter_ne.
Qed.

Lemma place_loop Target Orientation OffR OffC v idxs B0 B1 :
  wf_board B0 ->
  for_each idxs
    (fun BallIdx NewBoard =>
       try rc <- BallCell Target Orientation OffR OffC BallIdx in
       SetCell NewBoard (fst rc) (snd rc) v) B0 = Ok B1 ->
  wf_board B1 /\
  exists cells,
    Forall2 (fun BallIdx rc => BallCell Target Orientation OffR OffC BallIdx = Ok rc)
      idxs cells /\
    forall r c, 0 <= r -> 0 <= c ->
      rd2 Invalid B1 r c = if bool_decide ((r, c) ∈ cells) then v else rd2 Invalid B0 r c.
Proof.
  revert B0. induction idxs as [|i idxs IH]; intros B0 Hwf.
  - rewrite for_each_nil. intros [= <-]. split; [done|]. exists []. split; [constructor|].
    intros r c _ _. by rewrite bool_decide_eq_false_2 by apply not_elem_of_nil.
  - rewrite for_each_cons. intros (B' & HB' & Hrest)%bind_Ok.
    apply bind_Ok in HB' as ([r0 c0] & Hcell & Hset). cbn [fst snd] in Hset.
    unfold SetCell in Hset.
    destruct ((0 <=? r0) && (r0 <? MAX_BOARD_SIZE) && (0 <=? c0) && (c0 <? MAX_BOARD_SIZE))
      eqn:Hin; [|discriminate].
    injection Hset as <-.
    assert (Hr0 : 0 <= r0 < MAX_BOARD_SIZE /\ 0 <= c0 < MAX_BOARD_SIZE).
    { repeat (apply andb_prop in Hin as [Hin ?]). lia. }
    destruct (IH _ (wf_board_wr2 _ r0 c0 v Hwf) Hrest) as (Hwf1 & cells & Hcells & Hrd).
    split; [done|]. exists ((r0, c0) :: cells). split; [by constructor|].
    intros r c Hr Hc. rewrite (Hrd r c Hr Hc).
    destruct (decide ((r, c) = (r0, c0))) as [[= -> ->] | Hne].
    + rewrite (bool_decide_eq_true_2 ((r0, c0) ∈ (r0, c0) :: cells)) by left.
      rewrite rd2_wr2_eq by tauto. by destruct (bool_decide _).
    + rewrite rd2_wr2_ne by (try lia; congruence).
      destruct (bool_decide ((r, c) ∈ cells)) eqn:Hd.
      * apply bool_decide_eq_true in Hd.
        by rewrite bool_decide_eq_true_2 by (by right).
      * apply bool_decide_eq_false in Hd.
        rewrite bool_decide_eq_false_2; [done|].
        intros [?|?]%elem_of_cons; done.
Qed.

(** The board of a placement: the ball cells hold the value of the piece,
    every other cell is as in the parent. *)
Lemma Place_board st Target PieceIdx Piece Orientation OffR OffC child :
  wf_board (Board st) ->
  Place st Target PieceIdx Piece Orientation OffR OffC = Ok child ->
  exists cells,
    BallCells Target Orientation OffR OffC (NumBalls Piece) cells /\
    forall r c, 0 <= r -> 0 <= c ->
      rd2 Invalid (Board child) r c =
      if bool_decide ((r, c) ∈ cells) then PieceIndexToCellValue PieceIdx
      else rd2 Invalid (Board st) r c.
Proof.
  intros Hwf. unfold Place. cbv zeta. intros (NewBoard & Hloop & [= <-])%bind_Ok.
  destruct (place_loop _ _ _ _ _ _ _ _ Hwf Hloop) as (_ & cells & Hcells & Hrd).
  exists cells. done.
Qed.




Lemma wf_board_staggered : wf_board staggered.
Proof. split; [reflexivity | repeat constructor]. Defined.



(** C1 on a board with pieces already placed.  [CellValueToPieceIndex]
    masks the cell value instead of subtracting [Piece01], so it is not the
    inverse of [PieceIndexToCellValue]: with A..I on the board the flags of
    D..L are cleared and A, B, C stay remaining.  [Solve] then returns six
    boards on which A, B and C are placed a second time and three cells are
    still empty, and none of the tilings by J, K and L. *)
Theorem Solve_misreads_preplaced_pieces :
  CellValueToPieceIndex (PieceIndexToCellValue 0) = 3 /\
  InitialFlags preplaced_board 1 15 = Ok 7 /\
  RemainingPieceIdxs 7 = [0; 1; 2] /\
  Solve shipped preplaced_solver 100 preplaced_board 1 15 zero_counters
    = Some (Ok preplaced_result) /\
  length (OutSolutions preplaced_result) = 6%nat /\
  Forall (fun B => CountCells B 1 15 Empty = 3) (OutSolutions preplaced_result) /\
  preplaced_tiling ∉ OutSolutions preplaced_result.
Proof.
  split; [reflexivity|]. split; [vm_compute; reflexivity|].
  split; [vm_compute; reflexivity|]. split; [vm_compute; reflexivity|].
  split; [reflexivity|]. split.
  - apply Forall_forall. intros B HB. apply list_elem_of_In in HB.
    vm_compute in HB. intuition (subst; reflexivity).
  - intros H. apply list_elem_of_In in H. vm_compute in H.
    intuition discriminate.
Qed.

(** C5 on the same board.  The solutions returned keep empty cells inside
    the board, piece A covers two cells although it has one ball, and the
    three pieces placed have three balls together while the input board had
    six empty cells. *)
Theorem preplaced_solutions_keep_empty_cells :
  EmptyCellsOf preplaced_board
    = Ok ((fun c => {| RowIdx := 0; ColIdx := c |}) <$> range 9 15) /\
  CountCells preplaced_board 1 15 Empty = 6 /\
  BallCount unit_piece + BallCount unit_piece + BallCount unit_piece = 3 /\
  OutSolutions preplaced_result <> [] /\
  Forall (fun B =>
            CountCells B 1 15 Empty = 3 /\
            CountCells B 1 15 Piece01 = 2 /\
            CountCells B 1 15 Piece10 = 0)
    (OutSolutions preplaced_result).
Proof.
  split; [vm_compute; reflexivity|]. split; [vm_compute; reflexivity|].
  split; [vm_compute; reflexivity|]. split; [discriminate|].
  apply Forall_forall. intros B HB. apply list_elem_of_In in HB.
  vm_compute in HB. intuition (subst; vm_compute; auto).
Qed.

(** * Further properties of the code *)

(** ** Loops over index pairs *)

Ltac explicit_piece d Hwf :=
  let a0 := fresh "a0" in let a1 := fresh "a1" in let a2 := fresh "a2" in
  let a3 := fresh "a3" in let b0 := fresh "b0" in let b1 := fresh "b1" in
  let b2 := fresh "b2" in let b3 := fresh "b3" in let c0 := fresh "c0" in
  let c1 := fresh "c1" in let c2 := fresh "c2" in let c3 := fresh "c3" in
  let d0 := fresh "d0" in let d1 := fresh "d1" in let d2 := fresh "d2" in
  let d3 := fresh "d3" in
  destruct (wf_piece_inv d Hwf)
    as (a0 & a1 & a2 & a3 & b0 & b1 & b2 & b3 & c0 & c1 & c2 & c3 &
        d0 & d1 & d2 & d3 & ->).

(** A loop whose body only lowers its state ends below what the body made
    of any of its index pairs. *)
Lemma for2_lowers {S} (le : S -> S -> Prop)
    (outer inner : list Z) (f : Z -> Z -> S -> S) (s : S) :
  (forall s, le s s) ->
  (forall a b c, le a b -> le b c -> le a c) ->
  (forall i j s, le (f i j s) s) ->
  le (for2 outer inner f s) s /\
  forall i j, i ∈ outer -> j ∈ inner -> exists s', le (for2 outer inner f s) (f i j s').
Proof.
  intros Hrefl Htrans Hf.
  assert (Hin : forall inner i s,
             le (fold_left (fun s j => f i j s) inner s) s /\
             forall j, j ∈ inner ->
               exists s', le (fold_left (fun s j => f i j s) inner s) (f i j s')).
  { clear inner s. induction inner as [|j inner IH]; intros i s; cbn [fold_left].
    - split; [apply Hrefl|]. intros j Hj. by apply elem_of_nil in Hj.
    - destruct (IH i (f i j s)) as [Hle Hex]. split.
      + eapply Htrans; [exact Hle | apply Hf].
      + intros j' [-> | Hj']%elem_of_cons; [by exists s | by apply Hex]. }
  unfold for2. revert s. induction outer as [|i outer IH]; intros s; cbn [fold_left].
  - split; [apply Hrefl|]. intros i j Hi. by apply elem_of_nil in Hi.
  - destruct (Hin inner i s) as [Hle1 Hex1].
    destruct (IH (fold_left (fun s j => f i j s) inner s)) as [Hle Hex]. split.
    + eapply Htrans; [exact Hle | exact Hle1].
    + intros i' j [-> | Hi']%elem_of_cons Hj.
      * destruct (Hex1 j Hj) as [s' Hs']. exists s'. eapply Htrans; [exact Hle | exact Hs'].
      * by apply Hex.
Qed.

Lemma fold_left_keeps {S A} (I : S -> Prop) (f : S -> A -> S) (l : list A) (s : S) :
  I s -> (forall x s, x ∈ l -> I s -> I (f s x)) -> I (fold_left f l s).
Proof.
  revert s. induction l as [|x l IH]; intros s Hs Hf; [done|].
  cbn [fold_left]. apply IH.
  - apply Hf; [left | done].
  - intros y t Hy. apply Hf. by right.
Qed.

Lemma fold_left_establishes {S A} (I P : S -> Prop) (f : S -> A -> S)
    (l : list A) (s : S) (a : A) :
  I s ->
  (forall x s, x ∈ l -> I s -> I (f s x)) ->
  (forall x s, x ∈ l -> I s -> P s -> P (f s x)) ->
  (forall s, I s -> P (f s a)) ->
  a ∈ l -> P (fold_left f l s).
Proof.
  revert s. induction l as [|x l IH]; intros s Hs HI HP Ha Hin.
  - by apply elem_of_nil in Hin.
  - cbn [fold_left].
    assert (Hx : I (f s x)) by (apply HI; [left | done]).
    apply elem_of_cons in Hin as [<- | Hin].
    + apply (fold_left_keeps (fun t => I t /\ P t)); [split; [done | by apply Ha]|].
      intros y t Hy [Ht Hp]. split; [apply HI | apply HP]; (done || by right).
    + apply IH; [done| | |done..].
      * intros y t Hy. apply HI. by right.
      * intros y t Hy. apply HP. by right.
Qed.

(** A property the body establishes at [(r, c)] and keeps everywhere holds
    after the loop. *)
Lemma for2_establishes {S} (I P : S -> Prop) (outer inner : list Z)
    (f : Z -> Z -> S -> S) (s : S) (r c : Z) :
  I s ->
  (forall i j s, i ∈ outer -> j ∈ inner -> I s -> I (f i j s)) ->
  (forall i j s, i ∈ outer -> j ∈ inner -> I s -> P s -> P (f i j s)) ->
  (forall s, I s -> P (f r c s)) ->
  r ∈ outer -> c ∈ inner ->
  P (for2 outer inner f s).
Proof.
  intros Hs HI HP Hat Hr Hc. unfold for2.
  apply (fold_left_establishes I P _ outer s r); [done| | | |done].
  - intros i t Hi Ht. apply fold_left_keeps; [done|]. intros j u Hj. by apply HI.
  - intros i t Hi Ht Hp.
    apply (fold_left_keeps (fun u => I u /\ P u)); [done|].
    intros j u Hj [Hu Hpu]. split; [by apply HI | by apply HP].
  - intros t Ht. apply (fold_left_establishes I P _ inner t c); [done| | |done..].
    + intros j u Hj. by apply HI.
    + intros j u Hj. by apply HP.
Qed.

(** Three loops over the same indices whose bodies keep a relation between
    their states end in related states. *)
Lemma for2_rel3 {S T U} (R : S -> T -> U -> Prop) (outer inner : list Z)
    (f : Z -> Z -> S -> S) (g : Z -> Z -> T -> T) (h : Z -> Z -> U -> U) s t u :
  R s t u ->
  (forall i j s t u, i ∈ outer -> j ∈ inner -> R s t u -> R (f i j s) (g i j t) (h i j u)) ->
  R (for2 outer inner f s) (for2 outer inner g t) (for2 outer inner h u).
Proof.
  unfold for2. revert s t u.
  induction outer as [|i outer IH]; intros s t u Hstu Hstep; cbn [fold_left]; [done|].
  apply IH.
  - assert (Hin : forall j, j ∈ inner ->
               forall s t u, R s t u -> R (f i j s) (g i j t) (h i j u)).
    { intros j Hj s' t' u' Hr. apply Hstep; [left | done | done]. }
    clear Hstep IH. revert s t u Hstu.
    induction inner as [|j inner IHin]; intros s t u Hstu; cbn [fold_left]; [done|].
    apply IHin.
    + intros j' Hj'. apply Hin. by right.
    + apply Hin; [left | done].
  - intros i' j s' t' u' Hi' Hj. apply Hstep; [by right | done].
Qed.

(** A loop that appends the cells satisfying [P] lists them in its order. *)
Lemma for2_filter (P : cell_ref -> Prop) `{!forall x, Decision (P x)}
    (outer inner : list Z) (l0 : list cell_ref) :
  for2 outer inner
    (fun r c l => if bool_decide (P {| RowIdx := r; ColIdx := c |})
                  then l ++ [{| RowIdx := r; ColIdx := c |}] else l) l0
  = l0 ++ filter P (CellsIn outer inner).
Proof.
  unfold for2, CellsIn. revert l0.
  induction outer as [|r outer IH]; intros l0; cbn [fold_left].
  - by rewrite app_nil_r.
  - rewrite IH. cbn [mbind list_bind]. rewrite filter_app, app_assoc. f_equal.
    clear. revert l0. induction inner as [|c inner IH]; intros l0; cbn [fold_left].
    + by rewrite app_nil_r.
    + rewrite IH, fmap_cons, filter_cons.
      destruct (decide (P _)) as [Hp | Hp].
      * rewrite bool_decide_eq_true_2 by done. by rewrite <- app_assoc.
      * by rewrite bool_decide_eq_false_2 by done.
Qed.

Lemma elem_of_CellsIn outer inner x :
  x ∈ CellsIn outer inner <-> RowIdx x ∈ outer /\ ColIdx x ∈ inner.
Proof.
  unfold CellsIn. rewrite list_elem_of_bind. split.
  - intros (r & (c & -> & Hc)%list_elem_of_fmap & Hr). done.
  - intros [Hr Hc]. exists (RowIdx x). split; [|done].
    apply list_elem_of_fmap. exists (ColIdx x). split; [by destruct x | done].
Qed.

Lemma NoDup_CellsIn outer inner : NoDup outer -> NoDup inner -> NoDup (CellsIn outer inner).
Proof.
  intros Ho Hi. unfold CellsIn. induction Ho as [|r outer Hr Ho IH]; cbn [mbind list_bind].
  - apply NoDup_nil_2.
  - apply NoDup_app. split; [|split; [|exact IH]].
    + apply NoDup_fmap_2; [|done]. intros c c' [=]. done.
    + intros x (c & -> & Hc)%list_elem_of_fmap Hin.
      apply (elem_of_CellsIn outer inner) in Hin as [Hin _]. done.
Qed.

Lemma for_each_rel {S} (R : S -> S -> Prop)
    (l : list Z) (body : Z -> S -> result S) (s s' : S) :
  (forall s, R s s) ->
  (forall a b c, R a b -> R b c -> R a c) ->
  (forall i t t', i ∈ l -> body i t = Ok t' -> R t t') ->
  for_each l body s = Ok s' -> R s s'.
Proof.
  intros Hrefl Htrans. revert s. induction l as [|i l IH]; intros s Hbody.
  - rewrite for_each_nil. intros [= <-]. apply Hrefl.
  - rewrite for_each_cons. intros (t & Ht & Hrest)%bind_Ok.
    eapply Htrans; [apply (Hbody i); [left | exact Ht]|].
    apply IH; [|done]. intros j u u' Hj. apply Hbody. by right.
Qed.

Lemma for_each_ext {S} (l : list Z) (f g : Z -> S -> result S) (s : S) :
  (forall i t, i ∈ l -> f i t = g i t) -> for_each l f s = for_each l g s.
Proof.
  revert s. induction l as [|i l IH]; intros s Hfg; [done|].
  rewrite !for_each_cons, Hfg by left.
  destruct (g i s); cbn [bind]; [|done..]. apply IH. intros j t Hj. apply Hfg. by right.
Qed.

Lemma for_each_append {A} (l : list Z) (g : Z -> list A) (out : list A) :
  for_each l (fun i out => Ok (out ++ g i)) out = Ok (out ++ concat (g <$> l)).
Proof.
  revert out. induction l as [|i l IH]; intros out.
  - cbn. by rewrite app_nil_r.
  - rewrite for_each_cons. cbn [bind]. rewrite IH, fmap_cons. cbn [concat].
    by rewrite app_assoc.
Qed.

Lemma length_filter_le {A} (P Q : A -> Prop)
    `{!forall x, Decision (P x)} `{!forall x, Decision (Q x)} (l : list A) :
  (forall x, x ∈ l -> P x -> Q x) -> (length (filter P l) <= length (filter Q l))%nat.
Proof.
  induction l as [|x l IH]; intros Himp; [done|].
  rewrite !filter_cons.
  assert (IH' : (length (filter P l) <= length (filter Q l))%nat).
  { apply IH. intros y Hy. apply Himp. by right. }
  destruct (decide (P x)) as [Hp | Hp], (decide (Q x)) as [Hq | Hq]; cbn [length]; try lia.
  exfalso. apply Hq, Himp; [left | done].
Qed.

(** Two filters that differ on one element of a list without repeats. *)
Lemma length_filter_at {A} (P Q : A -> Prop)
    `{!forall x, Decision (P x)} `{!forall x, Decision (Q x)} (l : list A) (a : A) :
  NoDup l -> a ∈ l -> ~ P a ->
  (forall x, x ∈ l -> x <> a -> (P x <-> Q x)) ->
  length (filter Q l) = (length (filter P l) + (if decide (Q a) then 1 else 0))%nat.
Proof.
  induction l as [|x l IH]; intros Hnd Hin Hna Hext; [by apply elem_of_nil in Hin|].
  apply NoDup_cons in Hnd as [Hx Hnd]. rewrite !filter_cons.
  apply elem_of_cons in Hin as [<- | Hin].
  - rewrite (decide_False (P := P a)) by done.
    assert (Hrest : filter Q l = filter P l).
    { apply filter_ext_in. intros y Hy. symmetry. apply Hext; [by right|].
      intros ->. done. }
    rewrite Hrest. destruct (decide (Q a)); cbn [length]; lia.
  - assert (Hxa : x <> a) by (intros ->; done).
    assert (Hpq : P x <-> Q x) by (apply Hext; [left | done]).
    pose proof (IH Hnd Hin Hna ltac:(intros y Hy; apply Hext; by right)) as IH'.
    destruct (decide (P x)), (decide (Q x)); cbn [length]; (tauto || lia).
Qed.

Lemma Forall2_Forall_l {A B} (P : A -> B -> Prop) (Q : A -> Prop) (R : B -> Prop) l k :
  Forall2 P l k -> Forall Q l -> (forall x y, P x y -> Q x -> R y) -> Forall R k.
Proof.
  intros H. induction H as [|x y l k Hxy _ IH]; intros HQ HR; [constructor|].
  apply Forall_cons in HQ as [Hx HQ]. constructor; [by eapply HR | by apply IH].
Qed.

Lemma length_one_inv {A} (l : list A) x : length l = 1%nat -> x ∈ l -> l = [x].
Proof.
  destruct l as [|y [|z l]]; try discriminate. intros _ Hin.
  apply list_elem_of_singleton in Hin. by subst.
Qed.

(** ** Cell values, piece indices and characters *)

Lemma IsPiece_PieceIndexToCellValue i :
  0 <= i < NUM_PIECES -> IsPiece (PieceIndexToCellValue i) = true.
Proof.
  unfold NUM_PIECES. intros H.
  assert (Hc : i = 0 \/ i = 1 \/ i = 2 \/ i = 3 \/ i = 4 \/ i = 5 \/ i = 6 \/
               i = 7 \/ i = 8 \/ i = 9 \/ i = 10 \/ i = 11) by lia.
  repeat (destruct Hc as [-> | Hc]); try subst i; reflexivity.
Qed.

Lemma IsPiece_index v :
  IsPiece v = true -> Piece01 <= v <= Piece12 /\ CellValueToPieceIndex v = v.
Proof.
  unfold IsPiece, Piece01, Piece12. intros [H1 H2]%andb_prop.
  assert (Hc : v = 3 \/ v = 4 \/ v = 5 \/ v = 6 \/ v = 7 \/ v = 8 \/ v = 9 \/
               v = 10 \/ v = 11 \/ v = 12 \/ v = 13 \/ v = 14) by lia.
  split; [lia|]. repeat (destruct Hc as [-> | Hc]); try subst v; reflexivity.
Qed.

(** X1.  [CellValueToPieceIndex] is not the inverse of
    [PieceIndexToCellValue]: on the cell value of piece [PieceIdx] it
    returns [PieceIdx + Piece01], the cell value itself, and never
    [PieceIdx]. *)
Theorem CellValueToPieceIndex_offset (PieceIdx : Z) :
  0 <= PieceIdx < NUM_PIECES ->
  IsPiece (PieceIndexToCellValue PieceIdx) = true /\
  CellValueToPieceIndex (PieceIndexToCellValue PieceIdx) = PieceIdx + Piece01 /\
  CellValueToPieceIndex (PieceIndexToCellValue PieceIdx) <> PieceIdx.
Proof.
  intros H. pose proof (IsPiece_PieceIndexToCellValue PieceIdx H) as Hp.
  destruct (IsPiece_index _ Hp) as [Hr Hi]. split; [done|].
  rewrite Hi. unfold NUM_PIECES in H. unfold PieceIndexToCellValue, u8, Piece01.
  rewrite Z.mod_small by lia. lia.
Qed.

Lemma CellValueToPieceIndex_offset_witness :
  CellValueToPieceIndex (PieceIndexToCellValue 11) = 11 + Piece01.
Proof.
  exact (proj1 (proj2 (CellValueToPieceIndex_offset 11 ltac:(unfold NUM_PIECES; lia)))).
Defined.

Lemma InputCharToCellValue_range b InputChar CellValue :
  InputCharToCellValue b InputChar = Ok CellValue -> Empty <= CellValue <= Piece12.
Proof.
  destruct InputChar as [[] [] [] [] [] [] [] []]; cbn;
    try (destruct (NDEBUG b)); (discriminate || (intros [= <-]; done)).
Qed.

(** X2.  [InputCharToCellValue] accepts the fifteen board characters and
    gives each a value between [Empty] and [Piece12], [Invalid] for the
    blank only and a piece for the letters A..L only.  On any other
    character the build with assertions stops at [assert(false)] and the
    shipped build returns [Invalid]. *)
Theorem InputCharToCellValue_alphabet (b : build) (InputChar : ascii) :
  (InputChar ∈ board_chars ->
   exists CellValue,
     InputCharToCellValue b InputChar = Ok CellValue /\
     Empty <= CellValue <= Piece12 /\
     (CellValue = Invalid <-> InputChar = " "%char) /\
     (IsPiece CellValue = true <-> InputChar ∈ piece_chars)) /\
  (InputChar ∉ board_chars ->
   InputCharToCellValue b InputChar = if NDEBUG b then Ok Invalid else AssertFailed).
Proof.
  split.
  - intros Hin. unfold board_chars in Hin.
    repeat (apply elem_of_cons in Hin as [-> | Hin]);
      [..|by apply elem_of_nil in Hin];
      eexists; (split; [reflexivity|]); (split; [done|]);
      split; (split; [try done | try done]);
      try (intros _; apply (bool_decide_unpack _); exact I);
      try (intros H; apply (bool_decide_pack _) in H; exact (False_ind _ H)).
  - intros Hout.
    assert (Hb : bool_decide (InputChar ∈ board_chars) = false)
      by (by apply bool_decide_eq_false).
    destruct InputChar as [[] [] [] [] [] [] [] []];
      try reflexivity; vm_compute in Hb; discriminate Hb.
Qed.

(** X3.  A board character read and printed again: the blank, the dot and
    the star come back as they were, but a piece letter comes back moved
    three letters on (A as D, ..., L as O), because the output adds the
    cell value, not the piece index, to ['A']. *)
Theorem output_char_of_input_char (b : build) (InputChar : ascii) (CellValue : cell_value) :
  InputChar ∈ board_chars ->
  InputCharToCellValue b InputChar = Ok CellValue ->
  CellValueToOutputChar b CellValue =
  Ok (if bool_decide (InputChar ∈ piece_chars)
      then to_char (code InputChar + Piece01) else InputChar) /\
  (InputChar ∈ piece_chars -> CellValueToOutputChar b CellValue <> Ok InputChar).
Proof.
  intros Hin. unfold board_chars in Hin.
  repeat (apply elem_of_cons in Hin as [-> | Hin]);
    [..|by apply elem_of_nil in Hin];
    intros [= <-]; (split; [reflexivity|]);
    first [ discriminate
          | intros H; apply (bool_decide_pack _) in H; exact (False_ind _ H) ].
Qed.

Lemma output_char_of_input_char_witness :
  CellValueToOutputChar checked Piece01 = Ok "D"%char /\
  CellValueToOutputChar checked Empty = Ok "."%char.
Proof.
  split.
  - exact (proj1 (output_char_of_input_char checked "A"%char Piece01
                    ltac:(apply (bool_decide_unpack _); exact I) eq_refl)).
  - exact (proj1 (output_char_of_input_char checked "."%char Empty
                    ltac:(apply (bool_decide_unpack _); exact I) eq_refl)).
Defined.

Lemma CellValueToOutputChar_Ok b v :
  NDEBUG b = true \/ Empty <= v <= Piece12 ->
  CellValueToOutputChar b v = Ok (OutputChar v).
Proof.
  intros [Hb | Hv].
  - destruct b as [[]]; [|discriminate]. unfold OutputChar.
    change {| FAST := true |} with shipped.
    destruct (CellValueToOutputChar shipped v) eqn:E; [done|..];
      unfold CellValueToOutputChar in E;
      repeat match type of E with
             | (if ?c then _ else _) = _ => destruct c; try discriminate
             end.
  - unfold Empty, Piece12 in Hv.
    assert (Hc : v = 0 \/ v = 1 \/ v = 2 \/ v = 3 \/ v = 4 \/ v = 5 \/ v = 6 \/ v = 7 \/
                 v = 8 \/ v = 9 \/ v = 10 \/ v = 11 \/ v = 12 \/ v = 13 \/ v = 14) by lia.
    repeat (destruct Hc as [-> | Hc]); try subst v; reflexivity.
Qed.

(** ** [SetCells] and [PrintBoard] *)

(** X4.  [SetCells] leaves the given value in every cell of the board,
    whatever the board held before. *)
Theorem SetCells_fills (Board : board) (CellValue : cell_value) (r c : Z) :
  wf_board Board ->
  0 <= r < MAX_BOARD_SIZE -> 0 <= c < MAX_BOARD_SIZE ->
  wf_board (SetCells Board CellValue) /\
  rd2 Invalid (SetCells Board CellValue) r c = CellValue.
Proof.
  intros Hwf Hr Hc. unfold SetCells. split.
  - apply for2_invariant; [done|]. intros. by apply wf_board_wr2.
  - apply (for2_establishes wf_board (fun B => rd2 Invalid B r c = CellValue)
             _ _ _ _ r c); [done|..].
    + intros. by apply wf_board_wr2.
    + intros i j B Hi%elem_of_seqZ Hj%elem_of_seqZ HB Hrd.
      destruct (decide ((i, j) = (r, c))) as [[= -> ->] | Hne].
      * by apply rd2_wr2_eq.
      * rewrite rd2_wr2_ne by (lia || done). done.
    + intros B HB. by apply rd2_wr2_eq.
    + apply elem_of_seqZ. lia.
    + apply elem_of_seqZ. lia.
Qed.

Lemma wf_board_replicate v : wf_board (replicate 16 (replicate 16 v)).
Proof. split; [reflexivity | repeat constructor]. Defined.

Lemma SetCells_fills_witness :
  rd2 Invalid (SetCells indeterminate Blocked) 15 0 = Blocked.
Proof.
  exact (proj2 (SetCells_fills indeterminate Blocked 15 0
                  (wf_board_replicate Empty)
                  ltac:(unfold MAX_BOARD_SIZE; lia) ltac:(unfold MAX_BOARD_SIZE; lia))).
Defined.

Lemma length_BoardText B nr nc :
  0 <= nr -> 0 <= nc -> Z.of_nat (length (BoardText B nr nc)) = nr * (nc + 1).
Proof.
  intros Hnr Hnc. unfold BoardText.
  assert (Hrow : forall r, Z.of_nat (length (RowText B nc r)) = nc + 1).
  { intros r. unfold RowText, range. rewrite length_app, length_fmap, length_seqZ.
    cbn [length]. lia. }
  assert (Hsum : forall l : list Z,
             Z.of_nat (length (concat (RowText B nc <$> l)))
             = Z.of_nat (length l) * (nc + 1)).
  { induction l as [|r l IH]; [done|].
    rewrite fmap_cons. cbn [concat length]. rewrite length_app, Nat2Z.inj_add, IH, Hrow.
    lia. }
  rewrite Hsum. unfold range. rewrite length_seqZ. lia.
Qed.

(** X5.  [PrintBoard] on a size inside the array prints the rows one
    after the other, each as the characters of its first [NumCols] cells
    and a newline: [NumRows * (NumCols + 1)] characters.  The shipped build
    prints ['?'] for a cell value the switch does not know; the build with
    assertions needs every printed cell to hold a known value. *)
Theorem PrintBoard_text (b : build) (Board : board) (NumRows NumCols : Z) :
  0 <= NumRows <= MAX_BOARD_SIZE -> 0 <= NumCols <= MAX_BOARD_SIZE ->
  (NDEBUG b = true \/
   forall r c, 0 <= r < NumRows -> 0 <= c < NumCols ->
     Empty <= rd2 Invalid Board r c <= Piece12) ->
  PrintBoard b Board NumRows NumCols = Ok (BoardText Board NumRows NumCols) /\
  Z.of_nat (length (BoardText Board NumRows NumCols)) = NumRows * (NumCols + 1).
Proof.
  intros Hnr Hnc Hok. split; [|apply length_BoardText; lia].
  unfold PrintBoard, BoardText.
  rewrite (for_each_ext _ _ (fun r out => Ok (out ++ RowText Board NumCols r))).
  - by rewrite for_each_append.
  - intros r out Hr%elem_of_seqZ. unfold RowText.
    rewrite (for_each_ext _ _
               (fun c out => Ok (out ++ [OutputChar (rd2 Invalid Board r c)]))).
    + rewrite for_each_append. cbn [bind]. f_equal. rewrite <- app_assoc. f_equal. f_equal.
      induction (range 0 NumCols) as [|c l IH]; [done|].
      rewrite !fmap_cons. cbn [concat app]. by rewrite IH.
    + intros c t Hc%elem_of_seqZ. unfold Cells, MAX_BOARD_SIZE in *.
      destruct (Z.leb_spec 0 r); [|lia]. destruct (Z.ltb_spec r 16); [|lia].
      destruct (Z.leb_spec 0 c); [|lia]. destruct (Z.ltb_spec c 16); [|lia].
      cbn [andb bind]. rewrite CellValueToOutputChar_Ok; [done|].
      destruct Hok as [Hb | Hv]; [by left | right]. apply Hv; lia.
Qed.

Lemma PrintBoard_text_witness :
  PrintBoard shipped preplaced_board 1 15 =
  Ok ["D"; "E"; "F"; "G"; "H"; "I"; "J"; "K"; "L";
      "."; "."; "."; "."; "."; "."; newline]%char.
Proof.
  exact (proj1 (PrintBoard_text shipped preplaced_board 1 15
                  ltac:(unfold MAX_BOARD_SIZE; lia) ltac:(unfold MAX_BOARD_SIZE; lia)
                  (or_introl eq_refl))).
Defined.

(** ** Rotations and flips *)

(** X6.  Four rotations give the definition back, and so do two flips;
    the result of [Rotate] does not depend on what its destination held. *)
Theorem Rotate_order_four_Flip_order_two (d T1 T2 T3 T4 : piece_definition) :
  wf_piece d -> wf_piece T1 -> wf_piece T2 -> wf_piece T3 -> wf_piece T4 ->
  Rotate (Rotate (Rotate (Rotate d T1) T2) T3) T4 = d /\
  Flip (Flip d T1) T2 = d /\
  Rotate d T1 = Rotate d T2.
Proof.
  intros Hd H1 H2 H3 H4. explicit_piece d Hd.
  rewrite !Rotate_explicit, !Flip_explicit by done. done.
Qed.

Lemma Rotate_order_four_Flip_order_two_witness :
  Rotate (Rotate (Rotate (Rotate ex_L blank_piece) unit_piece) domino) square = ex_L /\
  Flip (Flip ex_L blank_piece) unit_piece = ex_L /\
  Rotate ex_L blank_piece = Rotate ex_L unit_piece.
Proof.
  apply Rotate_order_four_Flip_order_two; apply wf_piece_explicit.
Defined.

(** X7.  The eight variants [Initialize] generates are closed under both
    operations: rotating or flipping any of them gives one of them again, so
    no orientation of a piece is missed. *)
Theorem Expand_closed (d To : piece_definition) (v : piece_definition) :
  wf_piece d -> wf_piece To -> v ∈ Expand d ->
  Rotate v To ∈ Expand d /\ Flip v To ∈ Expand d.
Proof.
  intros Hd HTo. rewrite Expand_GenerationOrder. unfold GenerationOrder. cbv zeta.
  explicit_piece d Hd.
  rewrite !Rotate_explicit, !Flip_explicit by (done || apply wf_blank_piece).
  rewrite !Rotate_explicit by (done || apply wf_blank_piece).
  intros Hv. repeat (apply elem_of_cons in Hv as [-> | Hv]);
    try (by apply elem_of_nil in Hv);
    rewrite Rotate_explicit, Flip_explicit by done;
    split; apply list_elem_of_In; cbn [In]; tauto.
Qed.

Lemma Expand_closed_witness :
  Rotate (Flip ex_L blank_piece) unit_piece ∈ Expand ex_L /\
  Flip (Flip ex_L blank_piece) unit_piece ∈ Expand ex_L.
Proof.
  apply (Expand_closed ex_L unit_piece (Flip ex_L blank_piece));
    [apply wf_piece_explicit | apply wf_piece_explicit |].
  apply list_elem_of_In. vm_compute. tauto.
Defined.

(** ** The loops of [PushUpAndLeft] *)

Lemma pair_le_refl s : pair_le s s.
Proof. unfold pair_le. lia. Qed.

Lemma pair_le_trans a b c : pair_le a b -> pair_le b c -> pair_le a c.
Proof. unfold pair_le. lia. Qed.

Lemma pair_ge_refl s : pair_ge s s.
Proof. apply pair_le_refl. Qed.

Lemma pair_ge_trans a b c : pair_ge a b -> pair_ge b c -> pair_ge a c.
Proof. unfold pair_ge. intros H1 H2. by eapply pair_le_trans. Qed.

Lemma MinIdx_MinStep D :
  MinIdx D = for2 (range 0 MAX_PIECE_SIZE) (range 0 MAX_PIECE_SIZE) (MinStep D)
               (MAX_PIECE_SIZE - 1, MAX_PIECE_SIZE - 1).
Proof. reflexivity. Qed.

Lemma MinStep_le D i j s : pair_le (MinStep D i j s) s.
Proof.
  destruct s as [mr mc]. unfold MinStep, pair_le.
  destruct (negb _); cbn [fst snd]; [|lia].
  destruct (Z.leb_spec i mr), (Z.leb_spec j mc); lia.
Qed.

Lemma MinStep_occupied D i j s :
  occupied D i j -> pair_le (MinStep D i j s) (i, j).
Proof.
  intros Hocc. destruct s as [mr mc]. unfold MinStep, pair_le.
  unfold occupied in Hocc. destruct (Z.eqb_spec (Balls D i j) 0); [done|].
  cbn [negb fst snd]. destruct (Z.leb_spec i mr), (Z.leb_spec j mc); lia.
Qed.

(** Either component is where the loop started or the index of a set cell. *)
Lemma MinIdx_reached D :
  (fst (MinIdx D) = MAX_PIECE_SIZE - 1 \/
   exists c, 0 <= c < MAX_PIECE_SIZE /\ 0 <= fst (MinIdx D) < MAX_PIECE_SIZE /\
             occupied D (fst (MinIdx D)) c) /\
  (snd (MinIdx D) = MAX_PIECE_SIZE - 1 \/
   exists r, 0 <= r < MAX_PIECE_SIZE /\ 0 <= snd (MinIdx D) < MAX_PIECE_SIZE /\
             occupied D r (snd (MinIdx D))).
Proof.
  rewrite MinIdx_MinStep.
  apply (for2_invariant (fun s : Z * Z =>
    (fst s = MAX_PIECE_SIZE - 1 \/
     exists c, 0 <= c < MAX_PIECE_SIZE /\ 0 <= fst s < MAX_PIECE_SIZE /\
               occupied D (fst s) c) /\
    (snd s = MAX_PIECE_SIZE - 1 \/
     exists r, 0 <= r < MAX_PIECE_SIZE /\ 0 <= snd s < MAX_PIECE_SIZE /\
               occupied D r (snd s)))).
  - cbn [fst snd]. split; by left.
  - intros i j [mr mc] Hi%elem_of_seqZ Hj%elem_of_seqZ [Hr Hc]. cbn [fst snd] in Hr, Hc.
    unfold MinStep.
    destruct (Z.eqb_spec (Balls D i j) 0) as [|Hocc]; cbn [negb fst snd]; [done|].
    split.
    + destruct (Z.leb_spec i mr); [|done]. right. exists j. split; [lia|]. split; [lia|done].
    + destruct (Z.leb_spec j mc); [|done]. right. exists i. split; [lia|]. split; [lia|done].
Qed.

Lemma MinIdx_range D :
  0 <= fst (MinIdx D) < MAX_PIECE_SIZE /\ 0 <= snd (MinIdx D) < MAX_PIECE_SIZE.
Proof.
  destruct (MinIdx_reached D) as [Hr Hc]. unfold MAX_PIECE_SIZE in *. split.
  - destruct Hr as [-> | (c & ? & ? & ?)]; lia.
  - destruct Hc as [-> | (c & ? & ? & ?)]; lia.
Qed.

(** X8.  The first loop of [PushUpAndLeft] finds the least row and the
    least column that hold a set cell, each on its own (the two need not
    meet in one cell); on a definition without a set cell both stay at
    [MAX_PIECE_SIZE - 1]. *)
Theorem MinIdx_least (D : piece_definition) :
  0 <= fst (MinIdx D) < MAX_PIECE_SIZE /\ 0 <= snd (MinIdx D) < MAX_PIECE_SIZE /\
  (forall r c, 0 <= r < MAX_PIECE_SIZE -> 0 <= c < MAX_PIECE_SIZE -> occupied D r c ->
     fst (MinIdx D) <= r /\ snd (MinIdx D) <= c) /\
  ((exists r c, 0 <= r < MAX_PIECE_SIZE /\ 0 <= c < MAX_PIECE_SIZE /\ occupied D r c) ->
     (exists c, 0 <= c < MAX_PIECE_SIZE /\ occupied D (fst (MinIdx D)) c) /\
     (exists r, 0 <= r < MAX_PIECE_SIZE /\ occupied D r (snd (MinIdx D)))) /\
  ((forall r c, 0 <= r < MAX_PIECE_SIZE -> 0 <= c < MAX_PIECE_SIZE -> ~ occupied D r c) ->
     MinIdx D = (MAX_PIECE_SIZE - 1, MAX_PIECE_SIZE - 1)).
Proof.
  pose proof (MinIdx_reached D) as [Hr Hc].
  pose proof (MinIdx_range D) as [Hrr Hrc].
  assert (Hlow : forall r c, 0 <= r < MAX_PIECE_SIZE -> 0 <= c < MAX_PIECE_SIZE ->
                   occupied D r c -> fst (MinIdx D) <= r /\ snd (MinIdx D) <= c).
  { intros r c Hr' Hc' Hocc. rewrite MinIdx_MinStep.
    destruct (for2_lowers pair_le (range 0 MAX_PIECE_SIZE) (range 0 MAX_PIECE_SIZE)
                (MinStep D) (MAX_PIECE_SIZE - 1, MAX_PIECE_SIZE - 1)
                pair_le_refl pair_le_trans (MinStep_le D))
      as [_ Hex].
    destruct (Hex r c) as [s' Hs']; [apply elem_of_seqZ; lia..|].
    pose proof (MinStep_occupied D r c s' Hocc) as Hb.
    unfold pair_le in *. cbn [fst snd] in *. lia. }
  split; [done|]. split; [done|]. unfold MAX_PIECE_SIZE in *.
  split; [exact Hlow|]. split.
  - intros (r & c & Hr' & Hc' & Hocc). destruct (Hlow r c Hr' Hc' Hocc) as [Hlr Hlc]. split.
    + destruct Hr as [Heq | (c' & ? & ? & ?)]; [|by exists c'].
      exists c. split; [done|]. replace (fst (MinIdx D)) with r by lia. done.
    + destruct Hc as [Heq | (r' & ? & ? & ?)]; [|by exists r'].
      exists r. split; [done|]. replace (snd (MinIdx D)) with c by lia. done.
  - intros Hnone. destruct (MinIdx D) as [mr mc]. cbn [fst snd] in *.
    f_equal.
    + destruct Hr as [-> | (c & ? & ? & Hocc)]; [done|]. by apply Hnone in Hocc.
    + destruct Hc as [-> | (r & ? & ? & Hocc)]; [done|]. by apply Hnone in Hocc.
Qed.

Lemma index_cases (r : Z) : 0 <= r < 4 -> r = 0 \/ r = 1 \/ r = 2 \/ r = 3.
Proof. lia. Qed.

(** X9.  [PushUpAndLeft] is a translation: cell [(r, c)] of the result is
    cell [(r + MinRowIdx, c + MinColIdx)] of the definition where that lies
    inside the grid, and 0 elsewhere.  The shift is done in place and still
    gives the translation of the definition as it was. *)
Theorem PushUpAndLeft_translates (d : piece_definition) (r c : Z) :
  wf_piece d ->
  0 <= r < MAX_PIECE_SIZE -> 0 <= c < MAX_PIECE_SIZE ->
  Balls (PushUpAndLeft d) r c =
  if (r + fst (MinIdx d) <? MAX_PIECE_SIZE) && (c + snd (MinIdx d) <? MAX_PIECE_SIZE)
  then Balls d (r + fst (MinIdx d)) (c + snd (MinIdx d))
  else 0.
Proof.
  intros Hwf Hr Hc.
  destruct (MinIdx_range d) as (Hmr & Hmc).
  unfold PushUpAndLeft. destruct (MinIdx d) as [mr mc]. cbn [fst snd] in *.
  unfold MAX_PIECE_SIZE in Hr, Hc, Hmr, Hmc.
  explicit_piece d Hwf.
  apply index_cases in Hr, Hc, Hmr, Hmc.
  destruct Hmr as [-> | [-> | [-> | ->]]], Hmc as [-> | [-> | [-> | ->]]];
    destruct Hr as [-> | [-> | [-> | ->]]], Hc as [-> | [-> | [-> | ->]]];
    reflexivity.
Qed.

Lemma PushUpAndLeft_translates_witness :
  Balls (PushUpAndLeft ex_L) 2 1 = Balls ex_L 3 2.
Proof.
  exact (PushUpAndLeft_translates ex_L 2 1 (wf_piece_explicit _ _ _ _ _ _ _ _ _ _ _ _ _ _ _ _)
           ltac:(unfold MAX_PIECE_SIZE; lia) ltac:(unfold MAX_PIECE_SIZE; lia)).
Defined.

(** ** The bits of a packed representation *)

Lemma is01_b2z v : is01 v -> v = Z.b2z (negb (v =? 0)).
Proof. by intros [-> | ->]. Qed.

Lemma fold_PackStep_testbit l i x :
  (length l <= 31)%nat -> Forall is01 l -> l !! i = Some x ->
  Z.testbit (fold_left PackStep l 0) (Z.of_nat (length l) - 1 - Z.of_nat i)
  = negb (x =? 0).
Proof.
  revert i x. induction l as [|v l IH] using rev_ind; intros i x Hlen Hl Hi.
  - by rewrite lookup_nil in Hi.
  - rewrite length_app in Hlen |- *. cbn [length] in Hlen |- *.
    apply Forall_app in Hl as [Hl Hv]. apply Forall_inv in Hv.
    destruct (fold_PackStep_snoc l v ltac:(lia) Hl Hv) as [_ ->].
    rewrite (is01_b2z v Hv).
    destruct (decide (i = length l)) as [-> | Hne].
    + rewrite list_lookup_middle in Hi by done. injection Hi as <-.
      replace (Z.of_nat (length l + 1) - 1 - Z.of_nat (length l)) with 0 by lia.
      apply Z.testbit_0_r.
    + assert (Hlt : (i < length l)%nat).
      { apply lookup_lt_Some in Hi. rewrite length_app in Hi. cbn [length] in Hi. lia. }
      rewrite lookup_app_l in Hi by done.
      replace (Z.of_nat (length l + 1) - 1 - Z.of_nat i)
        with (Z.succ (Z.of_nat (length l) - 1 - Z.of_nat i)) by lia.
      rewrite Z.testbit_succ_r by lia. apply IH; (done || lia).
Qed.

(** X10.  The packed representation of a 0/1 definition is a 16-bit
    number whose bit [15 - (4 * r + c)] is cell [(r, c)]: the first cell is
    the most significant bit. *)
Theorem Packed_bits (d : piece_definition) (r c : Z) :
  wf_piece d -> binary d ->
  0 <= r < MAX_PIECE_SIZE -> 0 <= c < MAX_PIECE_SIZE ->
  0 <= ComputePackedRepresentation d < 2 ^ 16 /\
  Z.testbit (ComputePackedRepresentation d) (15 - (MAX_PIECE_SIZE * r + c))
  = negb (Balls d r c =? 0).
Proof.
  intros Hwf Hb Hr Hc. unfold MAX_PIECE_SIZE in *.
  explicit_piece d Hwf. apply binary_explicit in Hb.
  rewrite Packed_explicit.
  set (l := [a0; a1; a2; a3; b0; b1; b2; b3; c0; c1; c2; c3; d0; d1; d2; d3]) in *.
  split.
  - assert (Hl15 : Forall is01 (removelast l) /\ is01 d3).
    { subst l. repeat (apply Forall_cons in Hb as [? Hb]). cbn [removelast].
      split; [|done]. repeat (apply Forall_cons; split; [done|]). by apply Forall_nil. }
    destruct Hl15 as [Hl15 Hd3].
    destruct (fold_PackStep_snoc (removelast l) d3 ltac:(cbn; lia) Hl15 Hd3) as [Hrange Hs].
    change (removelast l ++ [d3]) with l in Hs. rewrite Hs.
    change (Z.of_nat (length (removelast l))) with 15 in Hrange.
    destruct Hd3 as [-> | ->]; lia.
  - assert (Hi : exists x, l !! Z.to_nat (4 * r + c) = Some x /\ Balls
               [[a0; a1; a2; a3]; [b0; b1; b2; b3]; [c0; c1; c2; c3]; [d0; d1; d2; d3]] r c = x).
    { apply index_cases in Hr, Hc.
      destruct Hr as [-> | [-> | [-> | ->]]], Hc as [-> | [-> | [-> | ->]]];
        eexists; split; reflexivity. }
    destruct Hi as (x & Hx & ->).
    pose proof (fold_PackStep_testbit l _ x ltac:(cbn; lia) Hb Hx) as Ht.
    change (Z.of_nat (length l)) with 16 in Ht.
    rewrite <- Ht. f_equal. lia.
Qed.

Lemma Packed_bits_witness :
  0 <= ComputePackedRepresentation domino < 2 ^ 16 /\
  Z.testbit (ComputePackedRepresentation domino) (15 - (MAX_PIECE_SIZE * 0 + 1))
  = negb (Balls domino 0 1 =? 0).
Proof.
  exact (Packed_bits domino 0 1 (wf_piece_explicit _ _ _ _ _ _ _ _ _ _ _ _ _ _ _ _) eq_refl
           ltac:(unfold MAX_PIECE_SIZE; lia) ltac:(unfold MAX_PIECE_SIZE; lia)).
Defined.

(** ** The de-duplication loop on any list *)

Lemma IsOrientationUnique_true x Kept :
  IsOrientationUnique x Kept = true <-> Packed x ∉ Packed <$> Kept.
Proof.
  destruct (IsOrientationUnique x Kept) eqn:Hu.
  - split; [|done]. intros _ (o & Heq & Ho)%list_elem_of_fmap.
    assert (IsOrientationUnique x Kept = false)
      by (apply IsOrientationUnique_false; eauto).
    congruence.
  - split; [done|]. intros Hn. exfalso. apply Hn.
    apply IsOrientationUnique_false in Hu as (o & Ho & Heq).
    apply list_elem_of_fmap. eauto.
Qed.

Lemma DedupStep_facts All Kept :
  NoDup (Packed <$> Kept) ->
  NoDup (Packed <$> fold_left DedupStep All Kept) /\
  (forall x, x ∈ Kept ++ All ->
     Packed x ∈ Packed <$> fold_left DedupStep All Kept) /\
  exists Added, fold_left DedupStep All Kept = Kept ++ Added /\ sublist Added All.
Proof.
  revert Kept. induction All as [|y All IH]; intros Kept Hnd; cbn [fold_left].
  - split; [done|]. split.
    + intros x Hx. rewrite app_nil_r in Hx. by apply list_elem_of_fmap_2.
    + exists []. by rewrite app_nil_r.
  - unfold DedupStep at 2 4 6. destruct (IsOrientationUnique y Kept) eqn:Hu.
    + apply IsOrientationUnique_true in Hu.
      destruct (IH (Kept ++ [y])) as (H1 & H2 & Added & H3 & H4).
      { rewrite fmap_app. cbn [fmap list_fmap]. apply NoDup_app. split; [done|].
        split; [|apply NoDup_singleton].
        intros p Hp ->%list_elem_of_singleton. done. }
      split; [done|]. split.
      * intros x Hx. apply H2. rewrite <- app_assoc. exact Hx.
      * exists (y :: Added). rewrite H3, <- app_assoc. split; [done|].
        by apply sublist_skip.
    + apply IsOrientationUnique_false in Hu as (o & Ho & Heq).
      destruct (IH Kept Hnd) as (H1 & H2 & Added & H3 & H4).
      split; [done|]. split.
      * intros x [Hx | [-> | Hx]%elem_of_cons]%elem_of_app.
        -- apply H2. apply elem_of_app. by left.
        -- rewrite Heq. apply H2. apply elem_of_app. by left.
        -- apply H2. apply elem_of_app. by right.
      * exists Added. split; [done|]. by apply sublist_cons.
Qed.

(** X11.  The de-duplication loop, on any list of orientations: no two
    kept orientations share a packed representation, every packed
    representation of the list is kept once, the kept ones stand in the
    order of the list, and running the loop on its own result changes
    nothing. *)
Theorem Dedup_keeps_one_of_each (All : list expanded_representation) :
  NoDup (Packed <$> Dedup All) /\
  (forall x, x ∈ All -> Packed x ∈ Packed <$> Dedup All) /\
  sublist (Dedup All) All /\
  Dedup (Dedup All) = Dedup All.
Proof.
  rewrite !Dedup_fold.
  destruct (DedupStep_facts All []) as (H1 & H2 & Added & H3 & H4);
    [cbn; apply NoDup_nil_2|].
  split; [done|]. split; [exact H2|]. split.
  - rewrite H3. exact H4.
  - assert (Hid : forall l Kept,
               NoDup (Packed <$> (Kept ++ l)) -> fold_left DedupStep l Kept = Kept ++ l).
    { clear. induction l as [|y l IH]; intros Kept Hnd; cbn [fold_left].
      - by rewrite app_nil_r.
      - unfold DedupStep at 2.
        assert (Hu : IsOrientationUnique y Kept = true).
        { apply IsOrientationUnique_true. rewrite fmap_app in Hnd.
          apply NoDup_app in Hnd as (_ & Hdis & _). intros Hin.
          apply (Hdis _ Hin). rewrite fmap_cons. left. }
        rewrite Hu, IH; [by rewrite <- app_assoc|].
        by rewrite <- app_assoc. }
    apply (Hid _ []). exact H1.
Qed.

(** ** The conversion loop and the capacity of [Balls] *)

Lemma ConvertOrientation_Stored D : Stored (ConvertOrientation D) (BallsOf D) (BallCount D).
Proof.
  unfold ConvertOrientation, BallsOf, BallCount.
  apply (for2_rel3 Stored).
  - unfold Stored, MAX_BALLS. split; [lia|]. split; [done | lia].
  - intros i j acc l n Hi%elem_of_seqZ Hj%elem_of_seqZ (Hn & Hok & Hover).
    unfold MAX_PIECE_SIZE in Hi, Hj. unfold MAX_BALLS in *.
    unfold Stored, bit01, MAX_BALLS.
    destruct (Z.eqb_spec (Balls D i j) 0) as [Hz | Hnz]; cbn [negb].
    + rewrite Z.add_0_r. split; [done|]. split.
      * intros Hle. by rewrite Hok.
      * intros Hgt. by rewrite Hover.
    + split; [lia|]. split.
      * intros Hle. rewrite Hok by lia. cbn [bind].
        destruct (Z.ltb_spec n 5); [|lia].
        unfold u8. by rewrite !Z.mod_small by lia.
      * intros Hgt. destruct (Z.le_gt_cases n 5) as [Hle | Hgt'].
        -- rewrite Hok by done. cbn [bind]. by destruct (Z.ltb_spec n 5); [lia|].
        -- by rewrite Hover by lia.
Qed.

(** X12.  The conversion of one orientation stores the row and column of
    every set cell, row by row, while there are at most [MAX_BALLS] of them;
    with more set cells it writes past the end of [Balls]. *)
Theorem ConvertOrientation_capacity (D : piece_definition) :
  (BallCount D <= MAX_BALLS -> ConvertOrientation D = Ok (BallsOf D, BallCount D)) /\
  (MAX_BALLS < BallCount D -> ConvertOrientation D = Undefined BallsOverflow).
Proof.
  destruct (ConvertOrientation_Stored D) as (_ & H1 & H2). split; assumption.
Qed.

Lemma ConvertStep_Undefined Kept f :
  fold_left ConvertStep Kept (Undefined f) = Undefined f.
Proof. induction Kept as [|K Kept IH]; [done|]. cbn [fold_left]. exact IH. Qed.

Lemma ConvertStep_all_fit Kept sp0 :
  Forall (fun K => BallCount (Definition_ K) <= MAX_BALLS) Kept ->
  exists sp, fold_left ConvertStep Kept (Ok sp0) = Ok sp.
Proof.
  revert sp0. induction Kept as [|K Kept IH]; intros sp0 Hall; cbn [fold_left]; [eauto|].
  apply Forall_cons in Hall as [HK Hall].
  unfold ConvertStep at 2. cbn [bind].
  destruct (ConvertOrientation_Stored (Definition_ K)) as (_ & Hok & _).
  rewrite (Hok HK). cbn [bind]. by apply IH.
Qed.

Lemma InitializePiece_capacity Old d :
  wf_piece d ->
  (BallCount d <= MAX_BALLS -> exists sp, InitializePiece Old d = Ok sp) /\
  (MAX_BALLS < BallCount d -> InitializePiece Old d = Undefined BallsOverflow).
Proof.
  intros Hwf. unfold InitializePiece. rewrite ConvertPiece_fold. split.
  - intros Hle. apply ConvertStep_all_fit. apply Forall_forall. intros K HK.
    by rewrite (Dedup_Variants_count d K Hwf HK).
  - intros Hgt. pose proof (Dedup_Variants_length d) as Hlen.
    destruct (Dedup (Variants d)) as [|K Kept] eqn:HD; [cbn in Hlen; lia|].
    cbn [fold_left]. unfold ConvertStep at 2. cbn [bind].
    assert (HK : BallCount (Definition_ K) = BallCount d).
    { apply Dedup_Variants_count; [done|]. rewrite HD. left. }
    destruct (ConvertOrientation_Stored (Definition_ K)) as (_ & _ & Hover).
    rewrite Hover by lia. cbn [bind].
    apply ConvertStep_Undefined.
Qed.

(** X13.  [Initialize] completes exactly when no piece has more than
    [MAX_BALLS] set cells: then it fills all the pieces, and with one larger
    piece it writes past the end of a [Balls] array. *)
Theorem Initialize_capacity (this : solver) (Pieces : list piece_definition) :
  Forall wf_piece Pieces -> length this = length Pieces ->
  (Forall (fun d => BallCount d <= MAX_BALLS) Pieces ->
     exists s, Initialize this Pieces = Ok s /\ length s = length Pieces) /\
  (Exists (fun d => MAX_BALLS < BallCount d) Pieces ->
     Initialize this Pieces = Undefined BallsOverflow).
Proof.
  rewrite Initialize_InitializeAll. revert this.
  induction Pieces as [|d Pieces IH]; intros this Hwf Hlen.
  - destruct this; [|discriminate]. split.
    + intros _. by exists [].
    + intros H. by apply Exists_nil in H.
  - destruct this as [|Old Olds]; [discriminate|].
    apply Forall_cons in Hwf as [Hd Hwf]. injection Hlen as Hlen.
    destruct (IH Olds Hwf Hlen) as [IHfit IHover].
    destruct (InitializePiece_capacity Old d Hd) as [Hfit Hover].
    cbn [InitializeAll]. split.
    + intros [Hle Hall]%Forall_cons.
      destruct (Hfit Hle) as [sp ->]. destruct (IHfit Hall) as (s & -> & Hs).
      cbn [bind]. exists (sp :: s). split; [done|]. cbn [length]. by rewrite Hs.
    + intros Hex. destruct (Z.le_gt_cases (BallCount d) MAX_BALLS) as [Hle | Hgt].
      * destruct (Hfit Hle) as [sp ->]. cbn [bind].
        apply Exists_cons in Hex as [Hbad | Hex]; [lia|].
        by rewrite (IHover Hex).
      * by rewrite (Hover Hgt).
Qed.

Lemma Initialize_capacity_witness :
  Initialize blank_solver (replicate 11 unit_piece ++ [six_balls])
  = Undefined BallsOverflow.
Proof.
  refine (proj2 (Initialize_capacity blank_solver (replicate 11 unit_piece ++ [six_balls])
                   _ eq_refl) _).
  - repeat (constructor; [apply wf_piece_explicit|]). constructor.
  - apply Exists_exists. exists six_balls. split.
    + apply elem_of_app. right. left.
    + reflexivity.
Defined.

(** ** The ball lists [Initialize] stores *)

Lemma BallsOf_filter D :
  BallsOf D =
  filter (fun x => occupied D (RowIdx x) (ColIdx x))
    (CellsIn (range 0 MAX_PIECE_SIZE) (range 0 MAX_PIECE_SIZE)).
Proof.
  rewrite <- (app_nil_l (filter _ _)). rewrite <- for2_filter.
  unfold BallsOf. apply for2_ext. intros r c l _ _. cbn [RowIdx ColIdx].
  unfold occupied. destruct (Z.eqb_spec (Balls D r c) 0) as [Hz | Hnz]; cbn [negb].
  - by rewrite bool_decide_eq_false_2 by (intros H; by apply H).
  - by rewrite bool_decide_eq_true_2.
Qed.

Lemma BallsOf_spec D :
  NoDup (BallsOf D) /\
  forall x, x ∈ BallsOf D <->
    0 <= RowIdx x < MAX_PIECE_SIZE /\ 0 <= ColIdx x < MAX_PIECE_SIZE /\
    occupied D (RowIdx x) (ColIdx x).
Proof.
  rewrite BallsOf_filter. split.
  - apply NoDup_filter, NoDup_CellsIn; apply NoDup_seqZ.
  - intros x. rewrite list_elem_of_filter, elem_of_CellsIn. unfold range.
    rewrite !elem_of_seqZ. intuition lia.
Qed.

Lemma has_ball_in_row_inv d r :
  has_ball_in_row d r = true -> exists c, 0 <= c < MAX_PIECE_SIZE /\ occupied d r c.
Proof.
  unfold has_ball_in_row. intros (c & Hc%list_elem_of_In%elem_of_seqZ & Hocc)%existsb_exists.
  exists c. split; [lia|]. unfold occupied. by destruct (Z.eqb_spec (Balls d r c) 0).
Qed.

Lemma has_ball_in_col_inv d c :
  has_ball_in_col d c = true -> exists r, 0 <= r < MAX_PIECE_SIZE /\ occupied d r c.
Proof.
  unfold has_ball_in_col. intros (r & Hr%list_elem_of_In%elem_of_seqZ & Hocc)%existsb_exists.
  exists r. split; [lia|]. unfold occupied. by destruct (Z.eqb_spec (Balls d r c) 0).
Qed.

(** X14.  What the search reads of a piece with at least one ball: between
    one and eight orientations, and in each of them pairwise different
    balls inside the 4 x 4 grid with one ball in row 0 and one in column
    0. *)
Theorem Initialize_orientations_anchored
    (this : solver) (Pieces : list piece_definition) (s : solver)
    (i : nat) (d : piece_definition) (sp : search_piece) (Orientation : list cell_ref) :
  Initialize this Pieces = Ok s ->
  Pieces !! i = Some d -> s !! i = Some sp ->
  wf_piece d -> 0 < BallCount d ->
  Orientation ∈ Orientations sp ->
  1 <= NumOrientations sp <= 2 * NUM_ROTATIONS /\
  NoDup Orientation /\
  (forall Ball, Ball ∈ Orientation ->
     0 <= RowIdx Ball < MAX_PIECE_SIZE /\ 0 <= ColIdx Ball < MAX_PIECE_SIZE) /\
  (exists Ball, Ball ∈ Orientation /\ RowIdx Ball = 0) /\
  (exists Ball, Ball ∈ Orientation /\ ColIdx Ball = 0).
Proof.
  intros Hinit Hd Hsp Hwf Hpos HO. rewrite Initialize_InitializeAll in Hinit.
  destruct (InitializeAll_lookup _ _ _ Hinit i sp Hsp) as (Old & d' & _ & Hd' & Hp).
  assert (d' = d) as -> by congruence.
  destruct (InitializePiece_spec _ _ _ Hwf Hp) as (HNO & _ & Hall).
  split.
  { rewrite HNO. pose proof (Dedup_Variants_length d). unfold NUM_ROTATIONS. lia. }
  apply list_elem_of_lookup in HO as [j Hj].
  destruct (Forall2_lookup_r _ _ _ _ _ Hall Hj) as (K & HK & Hconv).
  apply ConvertOrientation_BallsOf in Hconv. subst Orientation.
  assert (Hin : Definition_ K ∈ Normalized d).
  { rewrite <- Variants_Normalized. apply list_elem_of_fmap_2.
    apply Dedup_incl. by eapply list_elem_of_lookup_2. }
  unfold Normalized in Hin. apply list_elem_of_fmap in Hin as (g & -> & Hg).
  pose proof (GenerationOrder_facts d Hwf) as Hf. rewrite Forall_forall in Hf.
  destruct (Hf g Hg) as [Hwfg Hcount].
  destruct (pattern_facts_spec g Hwfg) as (_ & _ & Hfirst & _).
  destruct Hfirst as [Hrow Hcol]; [lia|].
  destruct (BallsOf_spec (PushUpAndLeft g)) as [Hnd Hmem].
  split; [done|]. split; [|split].
  - intros Ball HB. apply Hmem in HB. tauto.
  - apply has_ball_in_row_inv in Hrow as (c & Hc & Hocc).
    exists {| RowIdx := 0; ColIdx := c |}. split; [|done]. apply Hmem.
    cbn [RowIdx ColIdx]. unfold MAX_PIECE_SIZE in *. split; [lia|]. done.
  - apply has_ball_in_col_inv in Hcol as (r & Hr & Hocc).
    exists {| RowIdx := r; ColIdx := 0 |}. split; [|done]. apply Hmem.
    cbn [RowIdx ColIdx]. unfold MAX_PIECE_SIZE in *. split; [done|]. split; [lia|done].
Qed.

Lemma Initialize_orientations_anchored_witness :
  exists sp Orientation,
    sample_solver !! 1%nat = Some sp /\
    head (Orientations sp) = Some Orientation /\
    NoDup Orientation /\
    (exists Ball, Ball ∈ Orientation /\ RowIdx Ball = 0) /\
    (exists Ball, Ball ∈ Orientation /\ ColIdx Ball = 0).
Proof.
  do 2 eexists. split; [reflexivity|]. split; [reflexivity|].
  destruct (Initialize_orientations_anchored blank_solver sample_pieces sample_solver
              1%nat long_L _ _ eq_refl eq_refl eq_refl
              (wf_piece_explicit _ _ _ _ _ _ _ _ _ _ _ _ _ _ _ _) eq_refl
              ltac:(left))
    as (_ & Hnd & _ & Hrow & Hcol).
  split; [exact Hnd|]. split; [exact Hrow | exact Hcol].
Defined.

(** ** The empty cells of the input board *)

Lemma EmptyCellsOf_Within B :
  Within NUM_VALID_CELLS EmptyCellsOverflow (EmptyCellsOf B) (EmptyIn B).
Proof.
  unfold EmptyIn. rewrite <- (app_nil_l (filter _ _)), <- for2_filter.
  unfold EmptyCellsOf.
  apply (for2_rel (Within NUM_VALID_CELLS EmptyCellsOverflow)).
  - unfold Within, NUM_VALID_CELLS. cbn [length]. split; [done | lia].
  - intros i j acc l Hi%elem_of_seqZ Hj%elem_of_seqZ [Hok Hover].
    unfold MAX_BOARD_SIZE in Hi, Hj. unfold Within, NUM_VALID_CELLS in *.
    cbn [RowIdx ColIdx].
    destruct (Z.eqb_spec (rd2 Invalid B i j) Empty) as [He | Hne].
    + rewrite bool_decide_eq_true_2 by done. rewrite length_app. cbn [length].
      split.
      * intros Hle. rewrite Hok by lia. cbn [bind].
        destruct (Z.ltb_spec (Z.of_nat (length l)) 64); [|lia].
        unfold u8. by rewrite !Z.mod_small by lia.
      * intros Hgt. destruct (Z.le_gt_cases (Z.of_nat (length l)) 64) as [Hle | Hgt'].
        -- rewrite Hok by done. cbn [bind].
           by destruct (Z.ltb_spec (Z.of_nat (length l)) 64); [lia|].
        -- by rewrite Hover by lia.
    + rewrite bool_decide_eq_false_2 by done. split.
      * intros Hle. by rewrite Hok.
      * intros Hgt. by rewrite Hover.
Qed.

(** X15.  The first loop of [Solve] lists the empty cells of the whole
    16 x 16 array, row by row and each once -- also those outside
    [NumRows] x [NumCols] -- while there are at most [NUM_VALID_CELLS] of
    them; with more it writes past the end of [InputBoardEmptyCells]. *)
Theorem EmptyCellsOf_capacity (InputBoard : board) :
  (Z.of_nat (length (EmptyIn InputBoard)) <= NUM_VALID_CELLS ->
   EmptyCellsOf InputBoard = Ok (EmptyIn InputBoard)) /\
  (NUM_VALID_CELLS < Z.of_nat (length (EmptyIn InputBoard)) ->
   EmptyCellsOf InputBoard = Undefined EmptyCellsOverflow) /\
  NoDup (EmptyIn InputBoard) /\
  (forall Cell, Cell ∈ EmptyIn InputBoard <->
     0 <= RowIdx Cell < MAX_BOARD_SIZE /\ 0 <= ColIdx Cell < MAX_BOARD_SIZE /\
     rd2 Invalid InputBoard (RowIdx Cell) (ColIdx Cell) = Empty).
Proof.
  destruct (EmptyCellsOf_Within InputBoard) as [H1 H2].
  split; [exact H1|]. split; [exact H2|]. unfold EmptyIn. split.
  - apply NoDup_filter, NoDup_CellsIn; apply NoDup_seqZ.
  - intros x. rewrite list_elem_of_filter, elem_of_CellsIn. unfold range.
    rewrite !elem_of_seqZ. intuition lia.
Qed.

(** ** The remaining-piece flags of the initial state *)

Lemma AllFlags_value : AllFlags = 4095.
Proof. reflexivity. Qed.

Lemma ClearFlag_range F i : 0 <= ClearFlag F i < 2 ^ NUM_PIECES.
Proof. unfold ClearFlag, bitfield. apply Z.mod_pos_bound. unfold NUM_PIECES. lia. Qed.

Lemma InitialFlags_FlagAfter B nr nc j :
  nr <= MAX_BOARD_SIZE -> nc <= MAX_BOARD_SIZE -> 0 <= j < NUM_PIECES ->
  FlagAfter j (InitialFlags B nr nc)
    (filter (fun x => rd2 Invalid B (RowIdx x) (ColIdx x) = j)
       (CellsIn (range 0 nr) (range 0 nc))).
Proof.
  intros Hnr Hnc Hj.
  rewrite <- (app_nil_l (filter _ _)), <- for2_filter.
  unfold InitialFlags. cbv zeta. fold AllFlags. rewrite AllFlags_value.
  apply (for2_rel (FlagAfter j)).
  - exists 4095. split; [done|]. split; [unfold NUM_PIECES; lia|].
    split; [|intros [_ H]; by destruct H].
    unfold NUM_PIECES in Hj.
    assert (Hc : j = 0 \/ j = 1 \/ j = 2 \/ j = 3 \/ j = 4 \/ j = 5 \/ j = 6 \/
                 j = 7 \/ j = 8 \/ j = 9 \/ j = 10 \/ j = 11) by lia.
    repeat (destruct Hc as [-> | Hc]); try subst j; discriminate.
  - intros r c acc seen Hr%elem_of_seqZ Hc%elem_of_seqZ (F & -> & HF & Hbit).
    unfold MAX_BOARD_SIZE in *. unfold FlagAfter. cbn [bind RowIdx ColIdx].
    unfold Cells, MAX_BOARD_SIZE.
    destruct (Z.leb_spec 0 r); [|lia]. destruct (Z.ltb_spec r 16); [|lia].
    destruct (Z.leb_spec 0 c); [|lia]. destruct (Z.ltb_spec c 16); [|lia].
    cbn [andb bind]. set (v := rd2 Invalid B r c).
    destruct (IsPiece v) eqn:Hp.
    + destruct (IsPiece_index v Hp) as [Hv ->].
      exists (ClearFlag F v). split; [done|]. split; [apply ClearFlag_range|].
      rewrite ClearFlag_testbit by (unfold Piece01 in Hv; lia).
      destruct (decide (v = j)) as [-> | Hne].
      * rewrite bool_decide_eq_true_2 by done. rewrite Z.eqb_refl, andb_false_r.
        split; [|done]. intros _. split; [lia|]. by destruct seen.
      * rewrite bool_decide_eq_false_2 by done.
        destruct (Z.eqb_spec j v); [congruence|]. by rewrite andb_true_r.
    + exists F. split; [done|]. split; [done|].
      destruct (decide (v = j)) as [Hvj | Hne].
      * rewrite bool_decide_eq_true_2 by done.
        assert (Hlow : j < Piece01).
        { unfold IsPiece, Piece01, Piece12, NUM_PIECES in *. rewrite Hvj in Hp.
          destruct (Z.leb_spec 3 j), (Z.leb_spec j 14); cbn in Hp; (lia || discriminate). }
        split; [|lia]. intros Hf. apply Hbit in Hf. lia.
      * by rewrite bool_decide_eq_false_2 by done.
Qed.

(** X16.  In the initial state the flag of piece [PieceIdx] is cleared
    exactly when some cell inside [NumRows] x [NumCols] holds the cell value
    [PieceIdx] and that value is a piece -- the identifier of piece
    [PieceIdx - 3], not of piece [PieceIdx].  So the flags of the first three
    pieces are never cleared, and a board holding the last three pieces
    clears nothing for them. *)
Theorem InitialFlags_clears_by_value (InputBoard : board) (NumRows NumCols : Z) :
  NumRows <= MAX_BOARD_SIZE -> NumCols <= MAX_BOARD_SIZE ->
  exists Flags,
    InitialFlags InputBoard NumRows NumCols = Ok Flags /\
    0 <= Flags < 2 ^ NUM_PIECES /\
    forall PieceIdx, 0 <= PieceIdx < NUM_PIECES ->
      (Z.testbit Flags PieceIdx = false <->
       Piece01 <= PieceIdx /\
       exists r c, 0 <= r < NumRows /\ 0 <= c < NumCols /\
                   rd2 Invalid InputBoard r c = PieceIdx).
Proof.
  intros Hnr Hnc.
  destruct (InitialFlags_FlagAfter InputBoard NumRows NumCols 0 Hnr Hnc
              ltac:(unfold NUM_PIECES; lia)) as (Flags & HF & Hrange & _).
  exists Flags. split; [done|]. split; [done|].
  intros j Hj.
  destruct (InitialFlags_FlagAfter InputBoard NumRows NumCols j Hnr Hnc Hj)
    as (Flags' & HF' & _ & Hbit).
  assert (Flags' = Flags) as -> by congruence.
  rewrite Hbit. split; intros [Hlow Hseen]; (split; [done|]).
  - destruct (filter _ _) as [|x l] eqn:Hfil; [done|].
    assert (Hx : x ∈ filter (fun x => rd2 Invalid InputBoard (RowIdx x) (ColIdx x) = j)
                        (CellsIn (range 0 NumRows) (range 0 NumCols)))
      by (rewrite Hfil; left).
    apply list_elem_of_filter in Hx as [Hv [Hr Hc]%elem_of_CellsIn].
    unfold range in Hr, Hc. apply elem_of_seqZ in Hr, Hc.
    exists (RowIdx x), (ColIdx x). split; [lia|]. split; [lia|done].
  - destruct Hseen as (r & c & Hr & Hc & Hv).
    assert (Hx : {| RowIdx := r; ColIdx := c |} ∈
                 filter (fun x => rd2 Invalid InputBoard (RowIdx x) (ColIdx x) = j)
                   (CellsIn (range 0 NumRows) (range 0 NumCols))).
    { apply list_elem_of_filter. split; [done|]. apply elem_of_CellsIn.
      cbn [RowIdx ColIdx]. unfold range. rewrite !elem_of_seqZ. lia. }
    intros Hnil. rewrite Hnil in Hx. by apply elem_of_nil in Hx.
Qed.

Lemma InitialFlags_clears_by_value_witness :
  exists Flags,
    InitialFlags preplaced_board 1 15 = Ok Flags /\
    0 <= Flags < 2 ^ NUM_PIECES /\
    forall PieceIdx, 0 <= PieceIdx < NUM_PIECES ->
      (Z.testbit Flags PieceIdx = false <->
       Piece01 <= PieceIdx /\
       exists r c, 0 <= r < 1 /\ 0 <= c < 15 /\
                   rd2 Invalid preplaced_board r c = PieceIdx).
Proof.
  exact (InitialFlags_clears_by_value preplaced_board 1 15
           ltac:(unfold MAX_BOARD_SIZE; lia) ltac:(unfold MAX_BOARD_SIZE; lia)).
Defined.

(** ** The scan returns the first empty cell *)

Lemma FindEmptyCell_skipped ec Board n start idx Target :
  FindEmptyCell ec Board n start = Ok (idx, Target) ->
  forall k, start <= k < idx ->
    exists Cell CellValue,
      slot ec k = Ok Cell /\
      Cells Board (RowIdx Cell) (ColIdx Cell) = Ok CellValue /\
      CellValue <> Empty.
Proof.
  revert start. induction n as [|n IH]; intros start; cbn [FindEmptyCell].
  - intros [= <- <-] k Hk. lia.
  - intros (Cell & HC & H)%bind_Ok. apply bind_Ok in H as (v & Hv & H).
    destruct (Z.eqb_spec v Empty) as [-> | Hne].
    + injection H as <- <-. intros k Hk. lia.
    + intros k Hk. destruct (decide (k = start)) as [-> | Hks].
      * by exists Cell, v.
      * apply (IH _ H). lia.
Qed.

(** X17.  The scan of a popped state stops at the first entry of the
    empty-cell list, from the state's cursor on, whose cell is still empty
    on the state's board: every entry it passed over is filled.  When it
    finds none it ends at the length of the list, or at the cursor if that
    is larger. *)
Theorem NextEmptyCell_first_empty
    (InputBoardEmptyCells : list cell_ref) (SearchState : search_state)
    (idx : Z) (Target : option (Z * Z)) :
  NextEmptyCell InputBoardEmptyCells SearchState = Ok (idx, Target) ->
  (forall k, EmptyCellIdx SearchState <= k < idx ->
     exists Cell CellValue,
       slot InputBoardEmptyCells k = Ok Cell /\
       Cells (Board SearchState) (RowIdx Cell) (ColIdx Cell) = Ok CellValue /\
       CellValue <> Empty) /\
  match Target with
  | Some rc =>
      EmptyCellIdx SearchState <= idx < InputBoardNumEmptyCells InputBoardEmptyCells /\
      exists Cell, slot InputBoardEmptyCells idx = Ok Cell /\
                   rc = (RowIdx Cell, ColIdx Cell) /\
                   Cells (Board SearchState) (RowIdx Cell) (ColIdx Cell) = Ok Empty
  | None =>
      InputBoardNumEmptyCells InputBoardEmptyCells <= idx /\
      EmptyCellIdx SearchState <= idx
  end.
Proof.
  intros H. split.
  - unfold NextEmptyCell in H. by eapply FindEmptyCell_skipped.
  - destruct Target as [rc|].
    + by apply NextEmptyCell_found.
    + split; [by eapply NextEmptyCell_exhausted|].
      unfold NextEmptyCell in H. apply FindEmptyCell_exhausted in H. lia.
Qed.

Lemma NextEmptyCell_first_empty_witness :
  (forall k, EmptyCellIdx staggered_second <= k < 2 ->
     exists Cell CellValue,
       slot staggered_cells k = Ok Cell /\
       Cells (Board staggered_second) (RowIdx Cell) (ColIdx Cell) = Ok CellValue /\
       CellValue <> Empty) /\
  EmptyCellIdx staggered_second <= 2 < InputBoardNumEmptyCells staggered_cells /\
  exists Cell, slot staggered_cells 2 = Ok Cell /\
               (0, 2) = (RowIdx Cell, ColIdx Cell) /\
               Cells (Board staggered_second) (RowIdx Cell) (ColIdx Cell) = Ok Empty.
Proof.
  exact (NextEmptyCell_first_empty staggered_cells staggered_second 2 (Some (0, 2)) eq_refl).
Defined.

(** ** The pieces that remain *)

Lemma StronglySorted_filter {A} (R : A -> A -> Prop) (P : A -> Prop)
    `{!forall x, Decision (P x)} (l : list A) :
  StronglySorted R l -> StronglySorted R (filter P l).
Proof.
  induction 1 as [|x l Hl IH Hx]; [constructor|].
  rewrite filter_cons. destruct (decide (P x)); [|done].
  constructor; [done|]. apply Forall_forall. intros y [_ Hy]%list_elem_of_filter.
  rewrite Forall_forall in Hx. by apply Hx.
Qed.

(** X18.  The pieces a state tries are the indices whose flag is set, in
    increasing order, and placing a remaining piece takes exactly that index
    out of the list. *)
Theorem RemainingPieceIdxs_increasing (Flags PieceIdx : Z) :
  StronglySorted Z.lt (RemainingPieceIdxs Flags) /\
  (forall j, j ∈ RemainingPieceIdxs Flags <->
     0 <= j < NUM_PIECES /\ Z.testbit Flags j = true) /\
  (PieceIdx ∈ RemainingPieceIdxs Flags ->
   RemainingPieceIdxs (ClearFlag Flags PieceIdx)
   = filter (fun j => j <> PieceIdx) (RemainingPieceIdxs Flags) /\
   (length (RemainingPieceIdxs (ClearFlag Flags PieceIdx)) + 1
    = length (RemainingPieceIdxs Flags))%nat).
Proof.
  split; [|split].
  - unfold RemainingPieceIdxs. apply StronglySorted_filter.
    change (range 0 NUM_PIECES) with [0; 1; 2; 3; 4; 5; 6; 7; 8; 9; 10; 11].
    repeat first [ apply SSorted_nil | apply SSorted_cons
                 | apply Forall_nil_2 | apply Forall_cons_2 | reflexivity ].
  - apply RemainingPieceIdxs_spec.
  - intros Hin. split.
    + apply RemainingPieceIdxs_ClearFlag.
      by apply RemainingPieceIdxs_spec in Hin as [[? _] _].
    + by apply length_RemainingPieceIdxs_ClearFlag.
Qed.

(** ** A placement fills empty cells only *)

Lemma CanPlaceLoop_true b nr nc B Target O OffR OffC idxs p p' :
  CanPlaceLoop b nr nc B Target O OffR OffC idxs p = Ok (true, p') ->
  Forall (fun i => exists rc,
            BallCell Target O OffR OffC i = Ok rc /\
            0 <= fst rc < nr /\ 0 <= snd rc < nc /\
            Cells B (fst rc) (snd rc) = Ok Empty) idxs.
Proof.
  revert p. induction idxs as [|i idxs IH]; intros p; cbn [CanPlaceLoop]; [constructor|].
  intros ([r c] & Hrc & H)%bind_Ok. apply bind_Ok in H as (Fits & HF & H).
  destruct Fits; [|discriminate].
  constructor; [|by eapply IH].
  exists (r, c). split; [done|]. cbn [fst snd].
  destruct (Z.leb_spec 0 r), (Z.ltb_spec r nr), (Z.leb_spec 0 c), (Z.ltb_spec c nc);
    cbn [andb] in HF; try discriminate.
  apply bind_Ok in HF as (v & Hv & [= Hve]). apply Z.eqb_eq in Hve. subst v.
  repeat split; (lia || done).
Qed.

Lemma Cells_Ok B r c v :
  Cells B r c = Ok v ->
  0 <= r < MAX_BOARD_SIZE /\ 0 <= c < MAX_BOARD_SIZE /\ rd2 Invalid B r c = v.
Proof.
  unfold Cells.
  destruct (Z.leb_spec 0 r), (Z.ltb_spec r MAX_BOARD_SIZE),
    (Z.leb_spec 0 c), (Z.ltb_spec c MAX_BOARD_SIZE); cbn [andb]; try discriminate.
  intros [= <-]. done.
Qed.

Lemma place_loop_wf Target Orientation OffR OffC v idxs B0 B1 :
  wf_board B0 ->
  for_each idxs
    (fun BallIdx NewBoard =>
       try rc <- BallCell Target Orientation OffR OffC BallIdx in
       SetCell NewBoard (fst rc) (snd rc) v) B0 = Ok B1 ->
  wf_board B1.
Proof. intros Hwf H. by destruct (place_loop _ _ _ _ _ _ _ _ Hwf H). Qed.

Lemma IsPlacement_PlacedOn b sp nr nc st Target PieceIdx child :
  wf_board (Board st) ->
  IsPlacement b sp nr nc st Target PieceIdx child ->
  wf_board (Board child) /\
  exists cells, PlacedOn nr nc st Target PieceIdx cells child.
Proof.
  intros Hwf (Piece & oi & O & bi & PB & q & q' & HP & _ & HO & Hbi & HB & Hcan & Hplace).
  pose proof (Place_fields _ _ _ _ _ _ _ _ Hplace) as [HF _].
  destruct (Place_board _ _ _ _ _ _ _ _ Hwf Hplace) as (cells & Hcells & Hrd).
  split.
  { unfold Place in Hplace. cbv zeta in Hplace.
    apply bind_Ok in Hplace as (NB & Hloop & [= <-]). cbn [Board].
    by eapply place_loop_wf. }
  exists cells. split; [done|].
  apply CanPlaceLoop_true in Hcan.
  assert (Hall : Forall (fun x => 0 <= fst x < nr /\ 0 <= snd x < nc /\
                     0 <= fst x < MAX_BOARD_SIZE /\ 0 <= snd x < MAX_BOARD_SIZE /\
                     rd2 Invalid (Board st) (fst x) (snd x) = Empty) cells).
  { eapply Forall2_Forall_l; [exact Hcells | exact Hcan |].
    intros i x Hx (rc & Hrc & H1 & H2 & H3). cbn beta in Hx.
    assert (rc = x) as -> by congruence.
    apply Cells_Ok in H3 as (? & ? & ?). done. }
  split; [|split; [exact Hall | exact Hrd]].
  (* the placed ball lands on the target *)
  rewrite Forall_forall in Hcan. destruct (Hcan bi Hbi) as (rc0 & Hrc0 & _).
  unfold BallCell in Hrc0. destruct Target as [rc|]; [|discriminate].
  cbn [ReadTarget bind] in Hrc0. rewrite HB in Hrc0. cbn [bind] in Hrc0.
  injection Hrc0 as <-.
  exists rc. split; [done|].
  unfold BallCells in Hcells.
  apply list_elem_of_lookup in Hbi as [k Hk].
  destruct (Forall2_lookup_l _ _ _ _ _ Hcells Hk) as (x & Hx & Hcell).
  cbn beta in Hcell. unfold BallCell in Hcell. cbn [ReadTarget bind] in Hcell.
  rewrite HB in Hcell. cbn [bind] in Hcell. injection Hcell as <-.
  replace (fst rc + - RowIdx PB + RowIdx PB, snd rc + - ColIdx PB + ColIdx PB)
    with rc in Hx by (destruct rc; cbn [fst snd]; f_equal; lia).
  by eapply list_elem_of_lookup_2.
Qed.

(** X19.  Every state an iteration pushes and every solution it records
    comes from the popped state by putting one remaining piece on cells that
    were all empty and inside [NumRows] x [NumCols], the target cell of the
    scan among them; the piece's flag is cleared and no other cell
    changes. *)
Theorem Iteration_places_on_empty_cells
    (b : build) (SearchPieces : solver) (InputBoardEmptyCells : list cell_ref)
    (NumRows NumCols : Z) (SearchState : search_state) (p p' : progress) :
  wf_board (Board SearchState) ->
  Iteration b SearchPieces InputBoardEmptyCells NumRows NumCols SearchState p = Ok p' ->
  exists TargetIdx Target pushed recorded,
    NextEmptyCell InputBoardEmptyCells SearchState = Ok (TargetIdx, Target) /\
    SearchStates p' = pushed ++ tail (SearchStates p) /\
    OutSolutions p' = OutSolutions p ++ (Board <$> recorded) /\
    Forall (fun child =>
              wf_board (Board child) /\
              exists PieceIdx cells,
                PieceIdx ∈ RemainingPieceIdxs (RemainingPieceBitFlags SearchState) /\
                PlacedOn NumRows NumCols SearchState Target PieceIdx cells child)
      (pushed ++ recorded).
Proof.
  intros Hwf (idx & Target & Hnext & _ & [G _])%Iteration_Advances.
  destruct G as (pushed & recorded & Hs & Ho & Hpu & Hre & _).
  exists idx, Target, pushed, recorded.
  split; [done|]. split; [exact Hs|]. split; [exact Ho|].
  apply Forall_app. split.
  - eapply Forall_impl; [exact Hpu|]. intros child (PieceIdx & Hin & HP).
    destruct (IsPlacement_PlacedOn _ _ _ _ _ _ _ _ Hwf HP) as (Hw & cells & Hc).
    split; [done|]. by exists PieceIdx, cells.
  - eapply Forall_impl; [exact Hre|]. intros child (PieceIdx & Hin & HP).
    destruct (IsPlacement_PlacedOn _ _ _ _ _ _ _ _ Hwf HP) as (Hw & cells & Hc).
    split; [done|]. by exists PieceIdx, cells.
Qed.

Lemma Iteration_places_on_empty_cells_witness :
  exists TargetIdx Target pushed recorded,
    NextEmptyCell staggered_cells staggered_state = Ok (TargetIdx, Target) /\
    SearchStates staggered_after_one
      = pushed ++ tail (SearchStates (start_of staggered_state)) /\
    OutSolutions staggered_after_one
      = OutSolutions (start_of staggered_state) ++ (Board <$> recorded) /\
    Forall (fun child =>
              wf_board (Board child) /\
              exists PieceIdx cells,
                PieceIdx ∈ RemainingPieceIdxs (RemainingPieceBitFlags staggered_state) /\
                PlacedOn 2 13 staggered_state Target PieceIdx cells child)
      (pushed ++ recorded).
Proof.
  exact (Iteration_places_on_empty_cells shipped domiblank_solver staggered_cells 2 13
           staggered_state (start_of staggered_state) staggered_after_one
           wf_board_staggered eq_refl).
Defined.

(** ** Solutions are recorded with the last piece only *)

Lemma Leaves_refl last p : Leaves last p p.
Proof. by destruct last. Qed.

Lemma Leaves_trans last p1 p2 p3 : Leaves last p1 p2 -> Leaves last p2 p3 -> Leaves last p1 p3.
Proof. unfold Leaves. destruct last; congruence. Qed.

Lemma CanPlaceLoop_Leaves last b nr nc B Target O OffR OffC idxs p ok p' :
  CanPlaceLoop b nr nc B Target O OffR OffC idxs p = Ok (ok, p') -> Leaves last p p'.
Proof.
  revert p. induction idxs as [|i idxs IH]; intros p; cbn [CanPlaceLoop].
  - intros [= <- <-]. apply Leaves_refl.
  - intros ([r c] & Hrc & H)%bind_Ok. apply bind_Ok in H as (Fits & HF & H).
    assert (H0 : Leaves last p (CountBall b p)) by (by destruct last).
    destruct Fits.
    + eapply Leaves_trans; [exact H0 | by apply IH].
    + by injection H as <- <-.
Qed.

Lemma TryPiece_Leaves b sp nr nc st Target last PieceIdx p p' :
  TryPiece b sp nr nc st Target last PieceIdx p = Ok p' -> Leaves last p p'.
Proof.
  unfold TryPiece. intros (Piece & _ & H)%bind_Ok.
  apply (for_each_rel (Leaves last)) in H;
    [done | apply Leaves_refl | apply Leaves_trans |].
  intros oi t t' _. unfold TryOrientation. intros (O & _ & Ht)%bind_Ok.
  apply (for_each_rel (Leaves last)) in Ht;
    [done | apply Leaves_refl | apply Leaves_trans |].
  intros bi u u' _. unfold TryBall. intros (PB & _ & Hu)%bind_Ok. cbv zeta in Hu.
  apply bind_Ok in Hu as ([ok q] & Hcan & Hu).
  apply (CanPlaceLoop_Leaves last) in Hcan.
  assert (H0 : Leaves last u (CountOrientation b u)) by (by destruct last).
  eapply Leaves_trans; [exact H0|]. eapply Leaves_trans; [exact Hcan|].
  destruct ok; [|injection Hu as <-; apply Leaves_refl].
  apply bind_Ok in Hu as (New & _ & Hu).
  destruct last; cbn [negb] in Hu; by injection Hu as <-.
Qed.

Lemma Iteration_Leaves b sp ec nr nc st p p' :
  Iteration b sp ec nr nc st p = Ok p' ->
  Leaves (Z.of_nat (length (RemainingPieceIdxs (RemainingPieceBitFlags st))) =? 1)
    (PopState (CountState b p)) p'.
Proof.
  unfold Iteration. cbv zeta. intros ([idx Target] & _ & H)%bind_Ok.
  destruct (negb (NDEBUG b) && negb (idx <? InputBoardNumEmptyCells ec));
    [discriminate|].
  apply (for_each_rel
           (Leaves (Z.of_nat (length (RemainingPieceIdxs (RemainingPieceBitFlags st))) =? 1)))
    in H; [done | apply Leaves_refl | apply Leaves_trans |].
  intros i t t' _ Ht. by eapply TryPiece_Leaves.
Qed.

(** X20.  An iteration records solutions only when exactly one piece
    remains in the popped state, and then it pushes nothing; with any other
    number of remaining pieces it records nothing.  Whether an empty cell is
    left on the board plays no part. *)
Theorem Iteration_records_with_last_piece
    (b : build) (SearchPieces : solver) (InputBoardEmptyCells : list cell_ref)
    (NumRows NumCols : Z) (SearchState : search_state) (p p' : progress) :
  Iteration b SearchPieces InputBoardEmptyCells NumRows NumCols SearchState p = Ok p' ->
  (length (RemainingPieceIdxs (RemainingPieceBitFlags SearchState)) = 1%nat ->
   SearchStates p' = tail (SearchStates p)) /\
  (length (RemainingPieceIdxs (RemainingPieceBitFlags SearchState)) <> 1%nat ->
   OutSolutions p' = OutSolutions p).
Proof.
  intros H%Iteration_Leaves.
  unfold Leaves in H. cbn [PopState CountState SearchStates OutSolutions] in H.
  split; intros Hlen.
  - destruct (Z.eqb_spec (Z.of_nat (length (RemainingPieceIdxs
                (RemainingPieceBitFlags SearchState)))) 1); [done | lia].
  - destruct (Z.eqb_spec (Z.of_nat (length (RemainingPieceIdxs
                (RemainingPieceBitFlags SearchState)))) 1); [lia | done].
Qed.

Lemma Iteration_records_with_last_piece_witness :
  OutSolutions staggered_after_one = OutSolutions (start_of staggered_state).
Proof.
  refine (proj2 (Iteration_records_with_last_piece shipped domiblank_solver staggered_cells
                   2 13 staggered_state (start_of staggered_state) staggered_after_one
                   eq_refl) _).
  vm_compute. intros H. discriminate H.
Defined.

(** ** Invariants of the loop of [Solve] *)

Lemma FillsEmpty_refl nr nc B : FillsEmpty nr nc B B.
Proof. intros r c _ _. by left. Qed.

Lemma FillsEmpty_trans nr nc B1 B2 B3 :
  FillsEmpty nr nc B1 B2 -> FillsEmpty nr nc B2 B3 -> FillsEmpty nr nc B1 B3.
Proof.
  intros H12 H23 r c Hr Hc.
  destruct (H23 r c Hr Hc) as [-> | (He & ? & ? & Hp)]; [by apply H12|].
  destruct (H12 r c Hr Hc) as [<- | (_ & _ & _ & Hp')].
  - right. done.
  - rewrite He in Hp'. discriminate.
Qed.

Lemma PlacedOn_FillsEmpty nr nc st Target PieceIdx cells child :
  PieceIdx ∈ RemainingPieceIdxs (RemainingPieceBitFlags st) ->
  PlacedOn nr nc st Target PieceIdx cells child ->
  FillsEmpty nr nc (Board st) (Board child).
Proof.
  intros Hin (_ & _ & Hall & Hrd) r c Hr Hc. rewrite (Hrd r c Hr Hc).
  destruct (bool_decide ((r, c) ∈ cells)) eqn:Hd; [|by left].
  apply bool_decide_eq_true in Hd. rewrite Forall_forall in Hall.
  destruct (Hall _ Hd) as (? & ? & ? & ? & He). cbn [fst snd] in *.
  right. split; [done|]. split; [lia|]. split; [lia|].
  apply IsPiece_PieceIndexToCellValue. by apply RemainingPieceIdxs_spec in Hin as [? _].
Qed.

Lemma Loop_Holds b sp ec nr nc (Q : search_state -> Prop) (R : board -> Prop) :
  (forall st p p', Q st ->
     Iteration b sp ec nr nc st p = Ok p' ->
     exists pushed recorded,
       SearchStates p' = pushed ++ tail (SearchStates p) /\
       OutSolutions p' = OutSolutions p ++ recorded /\
       Forall Q pushed /\ Forall R recorded) ->
  forall fuel p q,
    Holds Q R p -> Loop b sp ec nr nc fuel p = Some (Ok q) -> Holds Q R q.
Proof.
  intros Hstep. induction fuel as [|fuel IH]; intros p q [HQ HR]; cbn [Loop].
  - destruct (SearchStates p) eqn:Hp; [|discriminate]. intros [= <-].
    split; [rewrite Hp; constructor | done].
  - destruct (SearchStates p) as [|st rest] eqn:Hp.
    { intros [= <-]. split; [rewrite Hp; constructor | done]. }
    destruct (Iteration b sp ec nr nc st p) as [p'| |] eqn:Hit; [|discriminate..].
    apply IH. apply Forall_cons in HQ as [Hst Hrest].
    destruct (Hstep st p p' Hst Hit) as (pushed & recorded & Hs & Ho & Hpu & Hre).
    split.
    + rewrite Hs, Hp. cbn [tail]. by apply Forall_app.
    + rewrite Ho. by apply Forall_app.
Qed.

(** X21.  [Solve] never changes a cell that is not empty: every solution
    agrees with the input board on its blocked, invalid and pre-placed
    cells, and each empty cell of the input either stays empty or gets a
    piece identifier, the latter only inside [NumRows] x [NumCols]. *)
Theorem Solve_fills_only_empty_cells
    (b : build) (SearchPieces : solver) (fuel : nat) (InputBoard : board)
    (NumRows NumCols : Z) (Out0 : counters) (p : progress) (Solution : board) :
  wf_board InputBoard ->
  Solve b SearchPieces fuel InputBoard NumRows NumCols Out0 = Some (Ok p) ->
  Solution ∈ OutSolutions p ->
  forall r c, 0 <= r -> 0 <= c ->
    rd2 Invalid Solution r c = rd2 Invalid InputBoard r c \/
    (rd2 Invalid InputBoard r c = Empty /\ r < NumRows /\ c < NumCols /\
     IsPiece (rd2 Invalid Solution r c) = true).
Proof.
  intros Hwf HS Hin. unfold Solve in HS.
  destruct (Setup b InputBoard NumRows NumCols Out0) as [[ec p0]| |] eqn:Hset;
    [|discriminate..].
  destruct (Setup_spec _ _ _ _ _ _ _ Hset) as (Flags & _ & _ & ->).
  pose (Q := fun st : search_state =>
               wf_board (Board st) /\ FillsEmpty NumRows NumCols InputBoard (Board st)).
  pose (R := fun B : board => FillsEmpty NumRows NumCols InputBoard B).
  assert (HH : Holds Q R p).
  { eapply (Loop_Holds b SearchPieces ec NumRows NumCols Q R); [| |exact HS].
    - intros st q q' [Hwfst Hfill] Hit.
      apply Iteration_Advances in Hit as (idx & Target & _ & _ & [G _]).
      destruct G as (pushed & recorded & Hs & Ho & Hpu & Hre & _).
      exists pushed, (Board <$> recorded).
      cbn [PopState CountState SearchStates OutSolutions] in Hs, Ho.
      split; [done|]. split; [done|]. split.
      + eapply Forall_impl; [exact Hpu|]. intros child (PieceIdx & Hi & HP).
        destruct (IsPlacement_PlacedOn _ _ _ _ _ _ _ _ Hwfst HP) as (Hw & cells & Hc).
        split; [done|]. eapply FillsEmpty_trans; [exact Hfill|].
        by eapply PlacedOn_FillsEmpty.
      + apply Forall_fmap. eapply Forall_impl; [exact Hre|].
        intros child (PieceIdx & Hi & HP). cbn.
        destruct (IsPlacement_PlacedOn _ _ _ _ _ _ _ _ Hwfst HP) as (Hw & cells & Hc).
        eapply FillsEmpty_trans; [exact Hfill|]. by eapply PlacedOn_FillsEmpty.
    - split; cbn [SearchStates OutSolutions]; [|constructor].
      apply Forall_singleton. split; [done | apply FillsEmpty_refl]. }
  destruct HH as [_ HR]. rewrite Forall_forall in HR. exact (HR _ Hin).
Qed.

Lemma wf_preplaced_board : wf_board preplaced_board.
Proof. split; [reflexivity | repeat constructor]. Defined.

Lemma preplaced_run :
  Solve shipped preplaced_solver 100 preplaced_board 1 15 zero_counters
  = Some (Ok preplaced_result).
Proof. vm_compute. reflexivity. Qed.

Lemma preplaced_first_In : preplaced_first ∈ OutSolutions preplaced_result.
Proof. left. Qed.

Lemma Solve_fills_only_empty_cells_witness :
  rd2 Invalid preplaced_first 0 9 = rd2 Invalid preplaced_board 0 9 \/
  (rd2 Invalid preplaced_board 0 9 = Empty /\ 0 < 1 /\ 9 < 15 /\
   IsPiece (rd2 Invalid preplaced_first 0 9) = true).
Proof.
  apply (Solve_fills_only_empty_cells shipped preplaced_solver 100 preplaced_board 1 15
           zero_counters preplaced_result preplaced_first
           wf_preplaced_board preplaced_run preplaced_first_In 0 9); lia.
Defined.

(** ** Every piece that was remaining is on every solution *)

Lemma PlacedOn_Accounted nr nc Flags0 st Target PieceIdx cells child :
  Accounted nr nc Flags0 st ->
  wf_board (Board child) ->
  PieceIdx ∈ RemainingPieceIdxs (RemainingPieceBitFlags st) ->
  PlacedOn nr nc st Target PieceIdx cells child ->
  Accounted nr nc Flags0 child /\
  (length (RemainingPieceIdxs (RemainingPieceBitFlags st)) = 1%nat ->
   forall i, i ∈ RemainingPieceIdxs Flags0 -> OnBoard nr nc (Board child) i).
Proof.
  intros [Hwf Hacc] Hwf' Hin (HF & (rc & _ & Hrc) & Hall & Hrd).
  rewrite Forall_forall in Hall.
  assert (Hidx : 0 <= PieceIdx < NUM_PIECES) by (by apply RemainingPieceIdxs_spec in Hin as [? _]).
  assert (Hplaced : OnBoard nr nc (Board child) PieceIdx).
  { destruct (Hall _ Hrc) as (? & ? & ? & ? & _).
    exists (fst rc), (snd rc). split; [done|]. split; [done|].
    rewrite Hrd by lia. rewrite bool_decide_eq_true_2; [done|]. by destruct rc. }
  assert (Hkept : forall i, OnBoard nr nc (Board st) i -> 0 <= i < NUM_PIECES ->
                    OnBoard nr nc (Board child) i).
  { intros i (r & c & Hr & Hc & Hv) Hi. exists r, c. split; [done|]. split; [done|].
    rewrite Hrd by lia.
    destruct (bool_decide ((r, c) ∈ cells)) eqn:Hd; [|done].
    apply bool_decide_eq_true in Hd. destruct (Hall _ Hd) as (_ & _ & _ & _ & He).
    cbn [fst snd] in He. rewrite He in Hv.
    pose proof (IsPiece_PieceIndexToCellValue i Hi) as Hp. rewrite <- Hv in Hp.
    discriminate. }
  assert (Hstep : forall i, i ∈ RemainingPieceIdxs Flags0 ->
            (i ∈ RemainingPieceIdxs (RemainingPieceBitFlags st) /\ i <> PieceIdx) \/
            OnBoard nr nc (Board child) i).
  { intros i Hi. pose proof (proj1 (RemainingPieceIdxs_spec _ _) Hi) as [Hri _].
    destruct (Hacc i Hi) as [Hrem | Hon]; [|right; by apply Hkept].
    destruct (decide (i = PieceIdx)) as [-> | Hne]; [by right | by left]. }
  split; [split; [done|]|].
  - intros i Hi. destruct (Hstep i Hi) as [[Hrem Hne] | Hon]; [left | by right].
    rewrite HF, RemainingPieceIdxs_ClearFlag by lia.
    apply list_elem_of_filter. done.
  - intros Hone i Hi. destruct (Hstep i Hi) as [[Hrem Hne] | Hon]; [|done].
    rewrite (length_one_inv _ _ Hone Hin) in Hrem.
    apply list_elem_of_singleton in Hrem. done.
Qed.

(** X22.  Every piece whose flag is set in the initial state has a cell
    on every solution, inside [NumRows] x [NumCols]: a solution is recorded
    only after each of them was placed. *)
Theorem Solve_places_every_remaining_piece
    (b : build) (SearchPieces : solver) (fuel : nat) (InputBoard : board)
    (NumRows NumCols : Z) (Out0 : counters) (p : progress)
    (Flags : Z) (Solution : board) (PieceIdx : Z) :
  wf_board InputBoard ->
  InitialFlags InputBoard NumRows NumCols = Ok Flags ->
  Solve b SearchPieces fuel InputBoard NumRows NumCols Out0 = Some (Ok p) ->
  Solution ∈ OutSolutions p ->
  PieceIdx ∈ RemainingPieceIdxs Flags ->
  exists r c, 0 <= r < NumRows /\ 0 <= c < NumCols /\
    rd2 Invalid Solution r c = PieceIndexToCellValue PieceIdx.
Proof.
  intros Hwf HF HS Hin Hidx. unfold Solve in HS.
  destruct (Setup b InputBoard NumRows NumCols Out0) as [[ec p0]| |] eqn:Hset;
    [|discriminate..].
  destruct (Setup_spec _ _ _ _ _ _ _ Hset) as (Flags' & _ & HF' & ->).
  assert (Flags' = Flags) as -> by congruence.
  pose (R := fun B : board =>
               forall i, i ∈ RemainingPieceIdxs Flags -> OnBoard NumRows NumCols B i).
  assert (HH : Holds (Accounted NumRows NumCols Flags) R p).
  { eapply (Loop_Holds b SearchPieces ec NumRows NumCols _ R); [| |exact HS].
    - intros st q q' Hacc Hit.
      pose proof (Iteration_Leaves _ _ _ _ _ _ _ _ Hit) as Hleaves.
      apply Iteration_Advances in Hit as (idx & Target & _ & _ & [G _]).
      destruct G as (pushed & recorded & Hs & Ho & Hpu & Hre & _).
      exists pushed, (Board <$> recorded).
      cbn [PopState CountState SearchStates OutSolutions] in Hs, Ho.
      split; [done|]. split; [done|]. split.
      + eapply Forall_impl; [exact Hpu|]. intros child (i & Hi & HP).
        destruct (IsPlacement_PlacedOn _ _ _ _ _ _ _ _ (proj1 Hacc) HP) as (Hw & cells & Hc).
        by destruct (PlacedOn_Accounted _ _ _ _ _ _ _ _ Hacc Hw Hi Hc).
      + apply Forall_fmap.
        destruct (decide (length (RemainingPieceIdxs (RemainingPieceBitFlags st)) = 1%nat))
          as [Hone | Hmany].
        * eapply Forall_impl; [exact Hre|]. intros child (i & Hi & HP). cbn.
          destruct (IsPlacement_PlacedOn _ _ _ _ _ _ _ _ (proj1 Hacc) HP)
            as (Hw & cells & Hc).
          destruct (PlacedOn_Accounted _ _ _ _ _ _ _ _ Hacc Hw Hi Hc) as [_ Hall].
          exact (Hall Hone).
        * unfold Leaves in Hleaves.
          destruct (Z.eqb_spec (Z.of_nat (length (RemainingPieceIdxs
                      (RemainingPieceBitFlags st)))) 1) as [Heq | _]; [lia|].
          cbn [PopState CountState OutSolutions] in Hleaves.
          rewrite Hleaves in Ho.
          rewrite <- (app_nil_r (OutSolutions q)) in Ho at 1.
          apply app_inv_head in Ho. symmetry in Ho. apply fmap_nil_inv in Ho.
          subst recorded. constructor.
    - split; cbn [SearchStates OutSolutions]; [|constructor].
      apply Forall_singleton. split; [done|]. intros i Hi. by left. }
  destruct HH as [_ HR]. rewrite Forall_forall in HR. exact (HR _ Hin _ Hidx).
Qed.

Lemma preplaced_flags : InitialFlags preplaced_board 1 15 = Ok 7.
Proof. vm_compute. reflexivity. Qed.

Lemma Solve_places_every_remaining_piece_witness :
  exists r c, 0 <= r < 1 /\ 0 <= c < 15 /\
    rd2 Invalid preplaced_first r c = PieceIndexToCellValue 2.
Proof.
  apply (Solve_places_every_remaining_piece shipped preplaced_solver 100 preplaced_board
           1 15 zero_counters preplaced_result 7 preplaced_first 2
           wf_preplaced_board preplaced_flags preplaced_run preplaced_first_In).
  apply list_elem_of_In. vm_compute. tauto.
Defined.

(** ** The build does not change the search *)

Lemma Agree_bind {A B} (R : A -> A -> Prop) (R' : B -> B -> Prop)
    (m1 m2 : result A) (k1 k2 : A -> result B) :
  Agree R m1 m2 -> (forall a b, R a b -> Agree R' (k1 a) (k2 b)) ->
  Agree R' (bind m1 k1) (bind m2 k2).
Proof. destruct m1, m2; cbn; (done || auto). Qed.

Lemma for_each_Agree {S} (R : S -> S -> Prop) (l : list Z)
    (f g : Z -> S -> result S) (s t : S) :
  (forall i s t, R s t -> Agree R (f i s) (g i t)) ->
  R s t -> Agree R (for_each l f s) (for_each l g t).
Proof.
  intros Hstep. revert s t. induction l as [|i l IH]; intros s t Hst; [done|].
  rewrite !for_each_cons. apply (Agree_bind R R); [by apply Hstep | exact IH].
Qed.

Lemma CanPlaceLoop_Agree b1 b2 nr nc B Target O OffR OffC idxs p q :
  SameRun p q ->
  Agree (fun x y => fst x = fst y /\ SameRun (snd x) (snd y))
    (CanPlaceLoop b1 nr nc B Target O OffR OffC idxs p)
    (CanPlaceLoop b2 nr nc B Target O OffR OffC idxs q).
Proof.
  revert p q. induction idxs as [|i idxs IH]; intros p q Hpq; cbn [CanPlaceLoop]; [done|].
  assert (Hc : SameRun (CountBall b1 p) (CountBall b2 q)).
  { destruct Hpq as (H1 & H2 & H3). unfold SameRun, CountBall. cbn. by rewrite H1, H2, H3. }
  destruct (BallCell Target O OffR OffC i) as [[r c]| |]; cbn [bind]; [|done..].
  match goal with
  | |- Agree _ (bind ?m _) _ => destruct m as [[]| |]; cbn [bind]; [| |done..]
  end.
  - by apply IH.
  - done.
Qed.

Lemma TryPiece_Agree b1 b2 sp nr nc st Target last PieceIdx p q :
  SameRun p q ->
  Agree SameRun (TryPiece b1 sp nr nc st Target last PieceIdx p)
    (TryPiece b2 sp nr nc st Target last PieceIdx q).
Proof.
  intros Hpq. unfold TryPiece.
  destruct (slot sp PieceIdx) as [Piece| |]; cbn [bind]; [|done..].
  apply for_each_Agree; [|done]. clear p q Hpq. intros oi p q Hpq.
  unfold TryOrientation.
  destruct (slot (Orientations Piece) oi) as [O| |]; cbn [bind]; [|done..].
  apply for_each_Agree; [|done]. clear p q Hpq. intros bi p q Hpq.
  unfold TryBall.
  destruct (slot O bi) as [PB| |]; cbn [bind]; [|done..]. cbv zeta.
  eapply Agree_bind.
  - apply CanPlaceLoop_Agree.
    destruct Hpq as (H1 & H2 & H3). unfold SameRun, CountOrientation. cbn.
    by rewrite H1, H2, H3.
  - intros [ok1 p1] [ok2 q1] [Hok Hrun]. cbn [fst snd] in Hok, Hrun. subst ok2.
    destruct ok1; [|done].
    destruct (Place st Target PieceIdx Piece O (- RowIdx PB) (- ColIdx PB))
      as [New| |]; cbn [bind]; [|done..].
    destruct Hrun as (H1 & H2 & H3).
    destruct last; cbn [negb Agree]; unfold SameRun, PushState, PushSolution; cbn;
      by rewrite H1, H2, H3.
Qed.

Lemma Iteration_Agree b ec sp nr nc st p q p' :
  SameRun p q ->
  Iteration b sp ec nr nc st p = Ok p' ->
  exists q', Iteration shipped sp ec nr nc st q = Ok q' /\ SameRun p' q'.
Proof.
  intros Hpq. unfold Iteration. cbv zeta.
  destruct (NextEmptyCell ec st) as [[idx Target]| |]; cbn [bind]; [|discriminate..].
  destruct (negb (NDEBUG b) && negb (idx <? InputBoardNumEmptyCells ec)); [discriminate|].
  cbn [NDEBUG shipped FAST negb andb].
  intros Hrun.
  match goal with
  | |- exists q', for_each ?l ?g ?t = Ok q' /\ _ =>
      pose proof (for_each_Agree SameRun l
                    (TryPiece b sp nr nc st Target
                       (Z.of_nat (length (RemainingPieceIdxs (RemainingPieceBitFlags st))) =? 1))
                    g (PopState (CountState b p)) t) as HA
  end.
  rewrite Hrun in HA.
  match type of HA with
  | _ -> _ -> Agree _ _ ?m => destruct m as [q'| |] eqn:Hq
  end.
  - exists q'. split; [done|]. apply HA.
    + intros i s t Hst. by apply TryPiece_Agree.
    + destruct Hpq as (H1 & H2 & H3). unfold SameRun, PopState, CountState. cbn.
      by rewrite H1, H2, H3.
  - exfalso. apply HA.
    + intros i s t Hst. by apply TryPiece_Agree.
    + destruct Hpq as (H1 & H2 & H3). unfold SameRun, PopState, CountState. cbn.
      by rewrite H1, H2, H3.
  - exfalso. apply HA.
    + intros i s t Hst. by apply TryPiece_Agree.
    + destruct Hpq as (H1 & H2 & H3). unfold SameRun, PopState, CountState. cbn.
      by rewrite H1, H2, H3.
Qed.

Lemma Loop_Agree b ec sp nr nc fuel : forall p q p',
  SameRun p q ->
  Loop b sp ec nr nc fuel p = Some (Ok p') ->
  exists q', Loop shipped sp ec nr nc fuel q = Some (Ok q') /\ SameRun p' q'.
Proof.
  induction fuel as [|fuel IH]; intros p q p' Hpq; cbn [Loop];
    pose proof Hpq as (Hs & _ & _); rewrite <- Hs.
  - destruct (SearchStates p); [|discriminate]. intros [= <-]. by exists q.
  - destruct (SearchStates p) as [|st rest]; [intros [= <-]; by exists q|].
    destruct (Iteration b sp ec nr nc st p) as [p1| |] eqn:Hit; [|discriminate..].
    destruct (Iteration_Agree _ _ _ _ _ _ _ q _ Hpq Hit) as (q1 & -> & Hrun).
    intros Hloop. by apply (IH p1 q1).
Qed.

Lemma Steps_Agree b ec sp nr nc n : forall p q p',
  SameRun p q ->
  Steps b sp ec nr nc n p = Ok p' ->
  exists q', Steps shipped sp ec nr nc n q = Ok q' /\ SameRun p' q' /\
    PoppedStates shipped sp ec nr nc n q = PoppedStates b sp ec nr nc n p.
Proof.
  induction n as [|n IH]; intros p q p' Hpq; cbn [Steps PoppedStates];
    pose proof Hpq as (Hs & _ & _); rewrite <- ?Hs.
  - intros [= <-]. by exists q.
  - destruct (SearchStates p) as [|st rest]; [intros [= <-]; by exists q|].
    intros (p1 & Hit & Hrest)%bind_Ok. rewrite Hit.
    destruct (Iteration_Agree _ _ _ _ _ _ _ q _ Hpq Hit) as (q1 & -> & Hrun).
    cbn [bind]. destruct (IH p1 q1 p' Hrun Hrest) as (q' & Hq' & Hrun' & Htr).
    exists q'. split; [done|]. split; [done|]. by rewrite Htr.
Qed.

Lemma Loop_exit b ec sp nr nc fuel : forall p q,
  Loop b sp ec nr nc fuel p = Some (Ok q) -> SearchStates q = [].
Proof.
  induction fuel as [|fuel IH]; intros p q; cbn [Loop].
  - destruct (SearchStates p) eqn:Hp; [|discriminate]. by intros [= <-].
  - destruct (SearchStates p) as [|st rest] eqn:Hp; [by intros [= <-]|].
    destruct (Iteration b sp ec nr nc st p) as [p'| |]; [apply IH | discriminate..].
Qed.

Lemma Loop_Steps_any b ec sp nr nc fuel p q n :
  Loop b sp ec nr nc fuel p = Some (Ok q) ->
  exists pn, Steps b sp ec nr nc n p = Ok pn.
Proof.
  intros Hloop. pose proof (Loop_exit _ _ _ _ _ _ _ _ Hloop) as Hexit.
  apply Loop_Steps in Hloop.
  destruct (decide (n <= fuel)%nat) as [Hle | Hgt].
  - replace fuel with (n + (fuel - n))%nat in Hloop by lia.
    rewrite Steps_add in Hloop. apply bind_Ok in Hloop as (pn & Hpn & _). by exists pn.
  - exists q. replace n with (fuel + (n - fuel))%nat by lia.
    rewrite Steps_add, Hloop. cbn [bind]. by apply Steps_done.
Qed.

(** X23.  Whatever a build of [Solve] completes, the build with [FAST]
    completes too, with the same fuel, the same solutions in the same order
    and the same tally of events.  The two runs go the same way: they pop
    the same states in the same order, and after every number of iterations
    they have the same stack and the same solutions.  The only difference is
    that the build with [FAST] leaves the counters of the caller as they
    were. *)
Theorem Solve_same_solutions_when_FAST
    (b : build) (SearchPieces : solver) (fuel : nat) (InputBoard : board)
    (NumRows NumCols : Z) (Out0 Out1 : counters) (p : progress) :
  Solve b SearchPieces fuel InputBoard NumRows NumCols Out0 = Some (Ok p) ->
  exists q,
    Solve shipped SearchPieces fuel InputBoard NumRows NumCols Out1 = Some (Ok q) /\
    OutSolutions q = OutSolutions p /\
    Seen q = Seen p /\
    Out q = Out1 /\
    forall n,
      PoppedDuring shipped SearchPieces InputBoard NumRows NumCols Out1 n
      = PoppedDuring b SearchPieces InputBoard NumRows NumCols Out0 n /\
      exists pn qn,
        During b SearchPieces InputBoard NumRows NumCols Out0 n = Ok pn /\
        During shipped SearchPieces InputBoard NumRows NumCols Out1 n = Ok qn /\
        SearchStates qn = SearchStates pn /\
        OutSolutions qn = OutSolutions pn.
Proof.
  unfold Solve, During, PoppedDuring, Setup.
  destruct (EmptyCellsOf InputBoard) as [ec| |]; cbn [bind]; [|discriminate..].
  destruct (InitialFlags InputBoard NumRows NumCols) as [Flags| |]; cbn [bind];
    [|discriminate..].
  cbv zeta. cbn [fst snd]. intros Hloop.
  set (p0 := {| SearchStates := [{| Board := InputBoard; RemainingPieceBitFlags := Flags;
                                    EmptyCellIdx := 0 |}];
                OutSolutions := []; Out := ResetCounters b Out0; Seen := NoTally |}) in *.
  set (q0 := {| SearchStates := [{| Board := InputBoard; RemainingPieceBitFlags := Flags;
                                    EmptyCellIdx := 0 |}];
                OutSolutions := []; Out := ResetCounters shipped Out1; Seen := NoTally |}).
  assert (H0 : SameRun p0 q0) by (split; [|split]; reflexivity).
  destruct (Loop_Agree b ec SearchPieces NumRows NumCols fuel p0 q0 p H0 Hloop)
    as (q & Hq & H1 & H2 & H3).
  exists q. split; [exact Hq|]. split; [done|]. split; [done|]. split.
  - apply Loop_Steps in Hq.
    destruct (Steps_Counted _ _ _ _ _ _ _ _ Hq) as (_ & _ & Hout).
    by rewrite Hout.
  - intros n.
    destruct (Loop_Steps_any _ _ _ _ _ _ _ _ n Hloop) as (pn & Hpn).
    destruct (Steps_Agree b ec SearchPieces NumRows NumCols n p0 q0 pn H0 Hpn)
      as (qn & Hqn & (Hs & Ho & _) & Htr).
    split; [exact Htr|]. exists pn, qn. by rewrite Hs, Ho.
Qed.

Lemma preplaced_checked_run :
  Solve checked preplaced_solver 100 preplaced_board 1 15 marked
  = Some (Ok preplaced_checked).
Proof. vm_compute. reflexivity. Qed.

Lemma Solve_same_solutions_when_FAST_witness :
  length (OutSolutions preplaced_checked) = 6%nat /\
  exists q,
    Solve shipped preplaced_solver 100 preplaced_board 1 15 zero_counters
    = Some (Ok q) /\
    OutSolutions q = OutSolutions preplaced_checked /\
    Seen q = Seen preplaced_checked /\
    Out q = zero_counters /\
    forall n,
      PoppedDuring shipped preplaced_solver preplaced_board 1 15 zero_counters n
      = PoppedDuring checked preplaced_solver preplaced_board 1 15 marked n /\
      exists pn qn,
        During checked preplaced_solver preplaced_board 1 15 marked n = Ok pn /\
        During shipped preplaced_solver preplaced_board 1 15 zero_counters n = Ok qn /\
        SearchStates qn = SearchStates pn /\
        OutSolutions qn = OutSolutions pn.
Proof.
  split; [reflexivity|].
  exact (Solve_same_solutions_when_FAST checked preplaced_solver 100 preplaced_board 1 15
           marked zero_counters preplaced_checked preplaced_checked_run).
Defined.

(** * The boards file *)

(** ** One board *)

Lemma ValidIn_wr2 B r c v :
  wf_board B -> 0 <= r < MAX_BOARD_SIZE -> 0 <= c < MAX_BOARD_SIZE ->
  rd2 Invalid B r c = Invalid ->
  Z.of_nat (length (ValidIn (wr2 B r c v))) =
  Z.of_nat (length (ValidIn B)) + (if v =? Invalid then 0 else 1).
Proof.
  intros Hwf Hr Hc Hold. unfold ValidIn.
  rewrite (length_filter_at
             (fun x => rd2 Invalid B (RowIdx x) (ColIdx x) <> Invalid)
             (fun x => rd2 Invalid (wr2 B r c v) (RowIdx x) (ColIdx x) <> Invalid)
             _ {| RowIdx := r; ColIdx := c |}).
  - cbn [RowIdx ColIdx]. rewrite rd2_wr2_eq by done.
    destruct (Z.eqb_spec v Invalid); destruct (decide (v <> Invalid)); (done || lia).
  - apply NoDup_CellsIn; apply NoDup_seqZ.
  - apply elem_of_CellsIn. cbn [RowIdx ColIdx]. unfold range. rewrite !elem_of_seqZ. lia.
  - cbn [RowIdx ColIdx]. intros H. by apply H.
  - intros x [Hxr Hxc]%elem_of_CellsIn Hne. unfold range in Hxr, Hxc.
    apply elem_of_seqZ in Hxr, Hxc.
    rewrite rd2_wr2_ne; [done|lia..|].
    intros [= -> ->]. apply Hne. by destruct x.
Qed.

Lemma Reading_newline B R C N : Reading B R C N -> Reading B (R + 1) 0 N.
Proof.
  intros (Hwf & Hok & HR & HC & HN & Hrest).
  split; [done|]. split; [done|]. split; [lia|]. split; [lia|]. split; [done|].
  intros r c Hr Hc Hpos. apply Hrest; [done..|]. lia.
Qed.

Lemma Reading_write B R C N v :
  Reading B R C N -> R < MAX_BOARD_SIZE -> C < MAX_BOARD_SIZE ->
  Empty <= v <= Piece12 ->
  Reading (wr2 B R C v) R (C + 1) (N + (if v =? Invalid then 0 else 1)).
Proof.
  intros (Hwf & Hok & HR & HC & HN & Hrest) HR16 HC16 Hv.
  split; [by apply wf_board_wr2|]. split; [|split; [done|]; split; [lia|]; split].
  - intros r c Hr Hc. destruct (decide ((R, C) = (r, c))) as [[= <- <-] | Hne].
    + by rewrite rd2_wr2_eq by (done || lia).
    + rewrite rd2_wr2_ne by (lia || done). by apply Hok.
  - rewrite ValidIn_wr2, HN; [done..| | |]; [lia | lia |].
    apply Hrest; lia.
  - intros r c Hr Hc Hpos. rewrite rd2_wr2_ne; [apply Hrest; lia | lia..|].
    intros [= <- <-]. lia.
Qed.

Lemma ReadBoard_spec b File : forall B R C N B' rest,
  Reading B R C N ->
  ReadBoard b File B R C N = Ok (B', rest) ->
  wf_board B' /\ CellValuesOk B' /\
  (forall File', rest = Some File' -> (length File' < length File)%nat) /\
  (NDEBUG b = false -> N <= NUM_VALID_CELLS ->
   Z.of_nat (length (ValidIn B')) = NUM_VALID_CELLS).
Proof.
  induction File as [|ch File IH]; intros B R C N B' rest HRd; cbn [ReadBoard].
  - destruct HRd as (Hwf & Hok & _ & _ & Hcount & _).
    destruct (NDEBUG b) eqn:Hnd; cbn [negb andb].
    + intros [= <- <-]. split; [done|]. split; [done|]. split; [intros ? [=]|].
      intros [=].
    + destruct (Z.eqb_spec N NUM_VALID_CELLS) as [HN | HN]; cbn [negb]; [|discriminate].
      intros [= <- <-]. split; [done|]. split; [done|]. split; [intros ? [=]|].
      intros _ _. lia.
  - assert (Hstep : forall B1 R1 C1 N1,
              Reading B1 R1 C1 N1 ->
              (NDEBUG b = false -> N <= NUM_VALID_CELLS -> N1 <= NUM_VALID_CELLS) ->
              ReadBoard b File B1 R1 C1 N1 = Ok (B', rest) ->
              wf_board B' /\ CellValuesOk B' /\
              (forall File', rest = Some File' -> (length File' < length (ch :: File))%nat) /\
              (NDEBUG b = false -> N <= NUM_VALID_CELLS ->
               Z.of_nat (length (ValidIn B')) = NUM_VALID_CELLS)).
    { intros B1 R1 C1 N1 H1 HN1 Hrun.
      destruct (IH _ _ _ _ _ _ H1 Hrun) as (Hw & Hk & Hlen & Hcount).
      split; [done|]. split; [done|]. split.
      - intros File' HF. specialize (Hlen _ HF). cbn [length]. lia.
      - intros Hnd HN. apply Hcount; [done|]. by apply HN1. }
    destruct (bool_decide (ch = newline)).
    + cbv zeta.
      destruct (negb (NDEBUG b) && negb (R + 1 <=? MAX_BOARD_SIZE)); [discriminate|].
      destruct (Z.geb_spec N NUM_VALID_CELLS) as [Hge | Hlt].
      * intros [= <- <-]. destruct HRd as (Hwf & Hok & _ & _ & Hcount & _).
        split; [done|]. split; [done|]. split.
        -- intros File' [= <-]. cbn [length]. lia.
        -- intros _ Hle. lia.
      * intros H. eapply Hstep; [exact (Reading_newline _ _ _ _ HRd) | | exact H]. done.
    + assert (Hwrite : forall v B1,
                InputCharToCellValue b ch = Ok v ->
                SetCell B R C v = Ok B1 ->
                Reading B1 R (C + 1) (N + (if v =? Invalid then 0 else 1))).
      { intros v B1 Hv HB1. unfold SetCell in HB1.
        destruct (Z.leb_spec 0 R), (Z.ltb_spec R MAX_BOARD_SIZE),
          (Z.leb_spec 0 C), (Z.ltb_spec C MAX_BOARD_SIZE); cbn [andb] in HB1;
          try discriminate.
        injection HB1 as <-.
        apply Reading_write; [done | lia | lia |].
        by eapply InputCharToCellValue_range. }
      destruct (negb (NDEBUG b) && negb (C <? MAX_BOARD_SIZE)); [discriminate|].
      intros (v & Hv & H)%bind_Ok. apply bind_Ok in H as (B1 & HB1 & H).
      cbv zeta in H. specialize (Hwrite v B1 Hv HB1).
      destruct (Z.eqb_spec v Invalid) as [-> | Hne]; cbn [negb] in H.
      * rewrite Z.add_0_r in Hwrite. eapply Hstep; [exact Hwrite | | exact H]. done.
      * destruct (NDEBUG b) eqn:Hnd; cbn [negb andb] in H.
        -- eapply Hstep; [exact Hwrite | discriminate | exact H].
        -- destruct (Z.leb_spec (N + 1) NUM_VALID_CELLS) as [Hle | Hgt]; cbn [negb] in H;
             [|discriminate].
           eapply Hstep; [exact Hwrite | done | exact H].
Qed.

Lemma SetCells_indeterminate : SetCells indeterminate Invalid = invalid_board.
Proof. reflexivity. Qed.

Lemma rd2_invalid_board r c : rd2 Invalid invalid_board r c = Invalid.
Proof.
  unfold rd2, invalid_board.
  destruct (replicate 16 (replicate 16 Invalid) !! Z.to_nat r) as [row|] eqn:Hrow; [|done].
  apply lookup_replicate in Hrow as [-> _].
  destruct (replicate 16 Invalid !! Z.to_nat c) as [v|] eqn:Hv; [|done].
  by apply lookup_replicate in Hv as [-> _].
Qed.

Lemma Reading_initial : Reading (SetCells indeterminate Invalid) 0 0 0.
Proof.
  rewrite SetCells_indeterminate.
  split; [apply wf_board_replicate|]. split; [|split; [done|]; split; [done|]; split].
  - intros r c _ _. by rewrite rd2_invalid_board.
  - reflexivity.
  - intros r c _ _ _. apply rd2_invalid_board.
Qed.

(** ** The loop over the boards *)

Lemma ReadBoards_spec b (P : board -> Prop) :
  (forall File B rest,
     ReadBoard b File (SetCells indeterminate Invalid) 0 0 0 = Ok (B, rest) -> P B) ->
  forall fuel File Bs,
    (length File < fuel)%nat -> Forall P Bs ->
    exists r, ReadBoards b fuel File Bs = Some r /\
      forall Boards, r = Ok Boards ->
        (length Bs < length Boards)%nat /\ Forall P Boards.
Proof.
  intros HP. induction fuel as [|fuel IH]; intros File Bs Hfuel HBs; [lia|].
  cbn [ReadBoards]. cbv zeta.
  destruct (ReadBoard b File (SetCells indeterminate Invalid) 0 0 0)
    as [[B rest]| |] eqn:Hread.
  - pose proof (HP _ _ _ Hread) as HB.
    destruct (ReadBoard_spec b File _ _ _ _ _ _ Reading_initial Hread) as (_ & _ & Hlen & _).
    assert (Hnew : Forall P (Bs ++ [B])) by (apply Forall_app; split; [done | by constructor]).
    assert (Hmore : (length Bs < length (Bs ++ [B]))%nat)
      by (rewrite length_app; cbn [length]; lia).
    destruct rest as [[|ch File']|].
    + eexists. split; [reflexivity|]. by intros Boards [= <-].
    + destruct (negb (NDEBUG b) && negb (bool_decide (ch = newline))).
      * eexists. split; [reflexivity|]. intros Boards [=].
      * specialize (Hlen _ eq_refl). cbn [length] in Hlen.
        destruct (IH File' (Bs ++ [B]) ltac:(lia) Hnew) as (r & -> & Hr).
        exists r. split; [done|]. intros Boards HBoards.
        destruct (Hr _ HBoards). split; [lia | done].
    + eexists. split; [reflexivity|]. by intros Boards [= <-].
  - eexists. split; [reflexivity|]. intros Boards [=].
  - eexists. split; [reflexivity|]. intros Boards [=].
Qed.

(** X24.  The loop that reads the boards ends on every file: each pass
    takes at least one character or is the last, so more passes than the
    file has characters are never needed.  When it completes it has read at
    least one board, and every cell of every board holds one of the fifteen
    cell values. *)
Theorem ReadBoards_terminates (b : build) (File : list ascii) (fuel : nat) :
  (length File < fuel)%nat ->
  exists r,
    ReadBoards b fuel File [] = Some r /\
    forall InputBoards, r = Ok InputBoards ->
      (1 <= length InputBoards)%nat /\
      Forall (fun B => wf_board B /\ CellValuesOk B) InputBoards.
Proof.
  intros Hfuel.
  destruct (ReadBoards_spec b (fun B => wf_board B /\ CellValuesOk B))
    with (fuel := fuel) (File := File) (Bs := @nil board)
    as (r & Hr & Hall); [|done|constructor|].
  - intros F B rest Hread.
    destruct (ReadBoard_spec b F _ _ _ _ _ _ Reading_initial Hread) as (Hw & Hk & _).
    by split.
  - exists r. split; [done|]. intros Boards HB. destruct (Hall _ HB) as [Hlen HF].
    cbn [length] in Hlen. split; [lia|]. exact HF.
Qed.

Lemma ReadBoards_terminates_witness :
  exists r,
    ReadBoards checked 69 four_rows [] = Some r /\
    forall InputBoards, r = Ok InputBoards ->
      (1 <= length InputBoards)%nat /\
      Forall (fun B => wf_board B /\ CellValuesOk B) InputBoards.
Proof.
  apply (ReadBoards_terminates checked four_rows 69). vm_compute. lia.
Defined.

(** ** The size of a board *)

Lemma BoardSize_SizeStep B :
  BoardSize B = for2 (range 0 MAX_BOARD_SIZE) (range 0 MAX_BOARD_SIZE) (SizeStep B) (0, 0).
Proof. reflexivity. Qed.

Lemma SizeStep_ge B i j s : pair_ge (SizeStep B i j s) s.
Proof.
  destruct s as [nr nc]. unfold SizeStep, pair_ge, pair_le.
  destruct (negb _); cbn [fst snd]; [|lia].
  destruct (Z.gtb_spec (i + 1) nr), (Z.gtb_spec (j + 1) nc); lia.
Qed.

Lemma SizeStep_valid B i j s :
  rd2 Invalid B i j <> Invalid -> pair_ge (SizeStep B i j s) (i + 1, j + 1).
Proof.
  intros Hv. destruct s as [nr nc]. unfold SizeStep, pair_ge, pair_le.
  destruct (Z.eqb_spec (rd2 Invalid B i j) Invalid); [done|].
  cbn [negb fst snd]. destruct (Z.gtb_spec (i + 1) nr), (Z.gtb_spec (j + 1) nc); lia.
Qed.

Lemma BoardSize_reached B :
  (fst (BoardSize B) = 0 \/
   0 < fst (BoardSize B) <= MAX_BOARD_SIZE /\
   exists c, 0 <= c < MAX_BOARD_SIZE /\ rd2 Invalid B (fst (BoardSize B) - 1) c <> Invalid) /\
  (snd (BoardSize B) = 0 \/
   0 < snd (BoardSize B) <= MAX_BOARD_SIZE /\
   exists r, 0 <= r < MAX_BOARD_SIZE /\ rd2 Invalid B r (snd (BoardSize B) - 1) <> Invalid).
Proof.
  rewrite BoardSize_SizeStep.
  apply (for2_invariant (fun s : Z * Z =>
    (fst s = 0 \/
     0 < fst s <= MAX_BOARD_SIZE /\
     exists c, 0 <= c < MAX_BOARD_SIZE /\ rd2 Invalid B (fst s - 1) c <> Invalid) /\
    (snd s = 0 \/
     0 < snd s <= MAX_BOARD_SIZE /\
     exists r, 0 <= r < MAX_BOARD_SIZE /\ rd2 Invalid B r (snd s - 1) <> Invalid))).
  - cbn [fst snd]. split; by left.
  - intros i j [nr nc] Hi%elem_of_seqZ Hj%elem_of_seqZ [Hr Hc]. cbn [fst snd] in Hr, Hc.
    unfold SizeStep.
    destruct (Z.eqb_spec (rd2 Invalid B i j) Invalid) as [|Hv]; cbn [negb fst snd]; [done|].
    split.
    + destruct (Z.gtb_spec (i + 1) nr); [|done]. right. split; [lia|].
      exists j. split; [lia|]. by replace (i + 1 - 1) with i by lia.
    + destruct (Z.gtb_spec (j + 1) nc); [|done]. right. split; [lia|].
      exists i. split; [lia|]. by replace (j + 1 - 1) with j by lia.
Qed.

Lemma BoardSize_le B :
  fst (BoardSize B) <= MAX_BOARD_SIZE /\ snd (BoardSize B) <= MAX_BOARD_SIZE.
Proof.
  destruct (BoardSize_reached B) as [Hr Hc]. split.
  - destruct Hr as [-> | [? _]]; unfold MAX_BOARD_SIZE in *; lia.
  - destruct Hc as [-> | [? _]]; unfold MAX_BOARD_SIZE in *; lia.
Qed.

(** X25.  The size [main] passes to [Solve] is the bounding box of the
    valid cells, measured from the corner (0, 0): every cell that is not
    [Invalid] lies inside it, its last row and its last column hold such a
    cell, and it is 0 x 0 for a board without one.  Leading invalid rows and
    columns are counted in. *)
Theorem BoardSize_bounding_box (InputBoard : board) :
  0 <= fst (BoardSize InputBoard) <= MAX_BOARD_SIZE /\
  0 <= snd (BoardSize InputBoard) <= MAX_BOARD_SIZE /\
  (forall r c, 0 <= r < MAX_BOARD_SIZE -> 0 <= c < MAX_BOARD_SIZE ->
     rd2 Invalid InputBoard r c <> Invalid ->
     r < fst (BoardSize InputBoard) /\ c < snd (BoardSize InputBoard)) /\
  (0 < fst (BoardSize InputBoard) ->
     exists c, 0 <= c < MAX_BOARD_SIZE /\
       rd2 Invalid InputBoard (fst (BoardSize InputBoard) - 1) c <> Invalid) /\
  (0 < snd (BoardSize InputBoard) ->
     exists r, 0 <= r < MAX_BOARD_SIZE /\
       rd2 Invalid InputBoard r (snd (BoardSize InputBoard) - 1) <> Invalid).
Proof.
  pose proof (BoardSize_reached InputBoard) as [Hr Hc].
  split; [destruct Hr as [-> | [? _]]; unfold MAX_BOARD_SIZE in *; lia|].
  split; [destruct Hc as [-> | [? _]]; unfold MAX_BOARD_SIZE in *; lia|].
  split; [|split].
  - intros r c Hr' Hc' Hv. rewrite BoardSize_SizeStep.
    destruct (for2_lowers pair_ge (range 0 MAX_BOARD_SIZE) (range 0 MAX_BOARD_SIZE)
                (SizeStep InputBoard) (0, 0) pair_ge_refl pair_ge_trans
                (SizeStep_ge InputBoard)) as [_ Hex].
    destruct (Hex r c) as [s' Hs']; [apply elem_of_seqZ; lia..|].
    pose proof (SizeStep_valid InputBoard r c s' Hv) as Hb.
    unfold pair_ge, pair_le in *. cbn [fst snd] in *. lia.
  - intros Hpos. destruct Hr as [Hz | [_ Hex]]; [lia | done].
  - intros Hpos. destruct Hc as [Hz | [_ Hex]]; [lia | done].
Qed.

(** ** Boards of the checked build fit the arrays of [Solve] *)

Lemma Setup_Ok b B nr nc Out0 :
  nr <= MAX_BOARD_SIZE -> nc <= MAX_BOARD_SIZE ->
  Z.of_nat (length (EmptyIn B)) <= NUM_VALID_CELLS ->
  exists Flags,
    Setup b B nr nc Out0 =
    Ok (EmptyIn B,
        {| SearchStates := [{| Board := B; RemainingPieceBitFlags := Flags;
                               EmptyCellIdx := 0 |}];
           OutSolutions := []; Out := ResetCounters b Out0; Seen := NoTally |}) /\
    InitialFlags B nr nc = Ok Flags.
Proof.
  intros Hnr Hnc Hlen. unfold Setup.
  destruct (EmptyCellsOf_Within B) as [Hok _]. rewrite (Hok Hlen). cbn [bind].
  destruct (InitialFlags_FlagAfter B nr nc 0 Hnr Hnc ltac:(unfold NUM_PIECES; lia))
    as (Flags & -> & _). cbn [bind]. by exists Flags.
Qed.

Lemma EmptyIn_ValidIn B : (length (EmptyIn B) <= length (ValidIn B))%nat.
Proof.
  unfold EmptyIn, ValidIn. apply length_filter_le. intros x _ ->. discriminate.
Qed.

Lemma ReadBoards_counts b (Hnd : NDEBUG b = false) : forall fuel File Bs Boards,
  Forall (fun B => Z.of_nat (length (ValidIn B)) = NUM_VALID_CELLS) Bs ->
  ReadBoards b fuel File Bs = Some (Ok Boards) ->
  Forall (fun B => Z.of_nat (length (ValidIn B)) = NUM_VALID_CELLS) Boards.
Proof.
  induction fuel as [|fuel IH]; intros File Bs Boards HBs; [discriminate|].
  cbn [ReadBoards]. cbv zeta.
  destruct (ReadBoard b File (SetCells indeterminate Invalid) 0 0 0)
    as [[B rest]| |] eqn:Hread; [|discriminate..].
  destruct (ReadBoard_spec b File _ _ _ _ _ _ Reading_initial Hread)
    as (_ & _ & _ & Hcount).
  assert (Hnew : Forall (fun B => Z.of_nat (length (ValidIn B)) = NUM_VALID_CELLS)
                   (Bs ++ [B])).
  { apply Forall_app. split; [done|]. constructor; [|constructor].
    apply Hcount; [done | unfold NUM_VALID_CELLS; lia]. }
  destruct rest as [[|ch File']|].
  - by intros [= <-].
  - destruct (negb (NDEBUG b) && negb (bool_decide (ch = newline))); [discriminate|].
    by apply IH.
  - by intros [= <-].
Qed.

(** X26.  Every board the build with assertions reads to the end has
    exactly [NUM_VALID_CELLS] cells that are not [Invalid].  So its empty
    cells fit [InputBoardEmptyCells], and with the size [main] computes the
    setup of [Solve] completes in either build, without a write or a read
    out of bounds. *)
Theorem ReadBoards_checked_boards_fit
    (b : build) (File : list ascii) (fuel : nat) (InputBoards : list board)
    (InputBoard : board) :
  NDEBUG b = false ->
  ReadBoards b fuel File [] = Some (Ok InputBoards) ->
  InputBoard ∈ InputBoards ->
  Z.of_nat (length (ValidIn InputBoard)) = NUM_VALID_CELLS /\
  forall (b' : build) (Out0 : counters),
    exists p0,
      Setup b' InputBoard (fst (BoardSize InputBoard)) (snd (BoardSize InputBoard)) Out0
      = Ok (EmptyIn InputBoard, p0).
Proof.
  intros Hnd Hread Hin.
  assert (HP : Forall (fun B => Z.of_nat (length (ValidIn B)) = NUM_VALID_CELLS)
                 InputBoards).
  { eapply (ReadBoards_counts b Hnd); [|exact Hread]. constructor. }
  rewrite Forall_forall in HP. specialize (HP _ Hin). cbn beta in HP.
  split; [done|]. intros b' Out0.
  destruct (BoardSize_le InputBoard) as [Hr Hc].
  destruct (Setup_Ok b' InputBoard (fst (BoardSize InputBoard))
              (snd (BoardSize InputBoard)) Out0 Hr Hc) as (Flags & -> & _).
  - pose proof (EmptyIn_ValidIn InputBoard). lia.
  - eauto.
Qed.

Lemma four_rows_read : ReadBoards checked 2 four_rows [] = Some (Ok [four_rows_board]).
Proof. vm_compute. reflexivity. Qed.

Lemma ReadBoards_checked_boards_fit_witness :
  Z.of_nat (length (ValidIn four_rows_board)) = NUM_VALID_CELLS /\
  forall (b' : build) (Out0 : counters),
    exists p0,
      Setup b' four_rows_board (fst (BoardSize four_rows_board))
        (snd (BoardSize four_rows_board)) Out0
      = Ok (EmptyIn four_rows_board, p0).
Proof.
  apply (ReadBoards_checked_boards_fit checked four_rows 2 [four_rows_board]
           four_rows_board eq_refl four_rows_read).
  left.
Defined.

(** ** Rows past the end of the board *)

Lemma ReadBoard_newlines b rest B N (k : nat) : forall R C,
  R + Z.of_nat k <= MAX_BOARD_SIZE -> N < NUM_VALID_CELLS -> (0 < k)%nat ->
  ReadBoard b (replicate k newline ++ rest) B R C N
  = ReadBoard b rest B (R + Z.of_nat k) 0 N.
Proof.
  induction k as [|k IH]; intros R C HR HN Hk; [lia|].
  cbn [replicate app ReadBoard]. rewrite bool_decide_eq_true_2 by done. cbv zeta.
  destruct (Z.leb_spec (R + 1) MAX_BOARD_SIZE); [|lia].
  cbn [negb]. rewrite andb_false_r.
  destruct (Z.geb_spec N NUM_VALID_CELLS); [lia|].
  destruct k as [|k'].
  - cbn [replicate app]. f_equal; lia.
  - rewrite IH by lia. f_equal; lia.
Qed.

(** X27.  The assertion on the row index lets row 16 through: after
    sixteen newlines a board character is written to [InputBoard[16]], past
    the end of the array, in the build with assertions as in the one
    without. *)
Theorem ReadBoards_row_sixteen
    (b : build) (fuel : nat) (InputChar : ascii) (File : list ascii) :
  InputChar ∈ board_chars ->
  ReadBoards b (S fuel) (replicate 16 newline ++ InputChar :: File) []
  = Some (Undefined OutOfBounds).
Proof.
  intros Hin. cbn [ReadBoards]. cbv zeta.
  rewrite ReadBoard_newlines by (unfold MAX_BOARD_SIZE, NUM_VALID_CELLS; lia).
  cbn [ReadBoard].
  assert (Hnl : InputChar <> newline).
  { intros ->. unfold board_chars in Hin.
    apply (bool_decide_pack _) in Hin. exact (False_ind _ Hin). }
  rewrite bool_decide_eq_false_2 by done.
  change (0 <? MAX_BOARD_SIZE) with true. cbn [negb]. rewrite andb_false_r.
  assert (Hv : exists v, InputCharToCellValue b InputChar = Ok v).
  { unfold board_chars in Hin.
    repeat (apply elem_of_cons in Hin as [-> | Hin]); [..|by apply elem_of_nil in Hin];
      eexists; reflexivity. }
  destruct Hv as [v ->]. cbn [bind]. unfold SetCell.
  change (0 + Z.of_nat 16 <? MAX_BOARD_SIZE) with false.
  rewrite andb_false_r. cbn [andb bind]. reflexivity.
Qed.

Lemma ReadBoards_row_sixteen_witness :
  ReadBoards checked 1 (replicate 16 newline ++ ["."%char]) [] = Some (Undefined OutOfBounds).
Proof.
  apply (ReadBoards_row_sixteen checked 0 "."%char []).
  apply (bool_decide_unpack _). exact I.
Defined.

(** ** The end of the file *)

(** X28.  When nothing is left of the file at the start of a board -- the
    file is empty, or it ends with the newline that delimits two boards --
    the build with assertions stops at the assertion on the number of valid
    cells, and the build without appends a board without a valid cell, of
    size 0 x 0. *)
Theorem ReadBoards_empty_file (b : build) (fuel : nat) (InputBoards : list board) :
  ReadBoards b (S fuel) [] InputBoards =
  Some (if NDEBUG b then Ok (InputBoards ++ [invalid_board]) else AssertFailed) /\
  BoardSize invalid_board = (0, 0).
Proof.
  split; [|reflexivity].
  cbn [ReadBoards ReadBoard]. cbv zeta. rewrite SetCells_indeterminate.
  change (0 =? NUM_VALID_CELLS) with false. cbn [negb]. rewrite andb_true_r.
  by destruct (NDEBUG b).
Qed.
